(** * rollup-plugin-commonjs-alternate: the CommonJS-to-ESM transform

    A shallow embedding of the plugin's [transform] hook
    (src/unnamed/part_000, the current variant, and the older variant
    src/index.js) together with the libraries it drives:

    - the syntax tree produced by [this.parse]: ESTree node objects, each
      with its identity, its scalar properties and its children in key
      order;
    - [estree-walker]'s [walk] with its [enter] and [leave] callbacks;
    - [magic-string]'s [overwrite], [prepend], [append] and [toString]
      (the source map is not modelled);
    - the [eval] of the regenerated [if] statement that picks a branch: the
      transform takes the meaning of an expression in the host world as a
      parameter, and [JsEval] gives it for a fragment of JavaScript.

    Stateful code is written in explicit state-passing style over the
    record [state], which holds the [let] variables of [transform] and the
    world [eval] runs in; JavaScript exceptions are the [Err] results of
    the type [result].  The tree of a unit is an input of the model: the
    parser is the host's.  Part I holds the definitions, Part II the
    properties. *)

From Stdlib Require Import ZArith Ascii String List DecimalString DecimalNat
  DecimalFacts Lia.
From stdpp Require Import base strings list gmap.

Set Warnings "-register-all".
Open Scope string_scope.
Open Scope nat_scope.
Open Scope list_scope.

(* ===================================================================== *)
(** ** Results and exceptions *)
(* ===================================================================== *)

Inductive error : Type :=
  | TypeError (msg : string)        (* property read of undefined / null *)
  | ReferenceError (ident : string) (* unbound identifier inside [eval]    *)
  | MagicStringError (msg : string) (* thrown by magic-string              *)
  | OutOfFuel                       (* the evaluation has not finished     *)
  | Unmodelled (what : string).     (* JavaScript outside the fragment     *)

Inductive result (A : Type) : Type :=
  | Ok (a : A)
  | Err (e : error).
Arguments Ok {A} a.
Arguments Err {A} e.

Definition bind {A B} (m : result A) (k : A -> result B) : result B :=
  match m with
  | Ok a => k a
  | Err e => Err e
  end.

Notation "'let*' x ':=' m 'in' k" := (bind m (fun x => k))
  (at level 10, x pattern, m at level 100, k at level 200).

(* ===================================================================== *)
(** ** JavaScript values *)
(* ===================================================================== *)

(** Primitive values and plain objects.  Numbers are the integer-valued
    ones; an object is its own-property map, so an object that holds itself
    (a namespace that is its own [default]) has no image here. *)
Inductive value : Type :=
  | VUndefined
  | VNull
  | VBool (b : bool)
  | VNum (z : Z)
  | VStr (s : string)
  | VObject (props : gmap string value).

(** ToBoolean. *)
Definition truthy (v : value) : bool :=
  match v with
  | VUndefined | VNull => false
  | VBool b => b
  | VNum z => negb (z =? 0)%Z
  | VStr s => negb (String.eqb s "")
  | VObject _ => true
  end.

(** [o.k]: a property read on an object; an absent property reads as
    [undefined]. *)
Definition get_prop (o : gmap string value) (k : string) : value :=
  default VUndefined (o !! k).

(** [v !== undefined] *)
Definition is_undefined (v : value) : bool :=
  match v with VUndefined => true | _ => false end.

(* ===================================================================== *)
(** ** Syntax trees *)
(* ===================================================================== *)

(** The [value] property of a [Literal] node.  The value of a number
    literal is a double: a whole number [n], a number [m / 2 ^ e] with a
    fraction, or [Infinity] for a literal beyond the largest double. *)
Inductive literal : Type :=
  | LString (s : string)
  | LNumber (n : Z)
  | LBoolean (b : bool)
  | LNull
  | LRegExp (pattern flags : string)
  | LFraction (m e : positive)
  | LInfinity
  | LBigInt (n : Z).

(** The scalar properties of a node object.  [ref] stands for the identity
    of the JavaScript object (what [===] compares). *)
Record attrs : Type := Attrs {
  a_ref : nat;
  a_type : string;
  a_start : nat;
  a_end : nat;
  a_name : option string;
  a_value : option literal;
  a_operator : option string
}.

(** A node is its scalar properties and its child nodes, in the key order
    of the object ([Object.keys]); an array-valued property contributes one
    entry per element, a [null] child contributes none. *)
Inductive node : Type :=
  | Node (a : attrs) (fields : list (string * node)).

Definition node_attrs (n : node) : attrs := match n with Node a _ => a end.
Definition node_fields (n : node) : list (string * node) :=
  match n with Node _ fs => fs end.
Definition node_ref (n : node) : nat := a_ref (node_attrs n).
Definition node_type (n : node) : string := a_type (node_attrs n).
Definition node_start (n : node) : nat := a_start (node_attrs n).
Definition node_end (n : node) : nat := a_end (node_attrs n).
Definition node_name (n : node) : option string := a_name (node_attrs n).
Definition node_value (n : node) : option literal := a_value (node_attrs n).
Definition node_operator (n : node) : option string := a_operator (node_attrs n).

(** [n[k]] for an array-valued property. *)
Fixpoint fields_at (k : string) (fs : list (string * node)) : list node :=
  match fs with
  | [] => []
  | (k', c) :: fs' =>
      if String.eqb k k' then c :: fields_at k fs' else fields_at k fs'
  end.

Definition children_at (k : string) (n : node) : list node :=
  fields_at k (node_fields n).

(** [n.k] for a node-valued property; [None] is [null] / [undefined]. *)
Definition child (k : string) (n : node) : option node :=
  head (children_at k n).

(** [a === b] on node objects. *)
Definition same_node (a b : node) : bool := Nat.eqb (node_ref a) (node_ref b).

(** [n.type === t] *)
Definition has_type (t : string) (n : node) : bool := String.eqb (node_type n) t.

(** [n.name === x] *)
Definition name_is (x : string) (n : node) : bool :=
  match node_name n with
  | Some y => String.eqb y x
  | None => false
  end.

(** [n.value === x] for a string [x] *)
Definition value_is (x : string) (n : node) : bool :=
  match node_value n with
  | Some (LString y) => String.eqb y x
  | _ => false
  end.

(** Induction over trees: the property holds of a node when it holds of all
    its children. *)
Section node_induction.
Variable P : node -> Prop.
Hypothesis step : forall a fs, Forall (fun kc => P (snd kc)) fs -> P (Node a fs).

Fixpoint node_ind' (n : node) : P n :=
  match n with
  | Node a fs =>
      step a fs
        ((fix go (l : list (string * node)) : Forall (fun kc => P (snd kc)) l :=
            match l with
            | [] => @List.Forall_nil _ _
            | (k, c) :: l' => @List.Forall_cons _ _ (k, c) l' (node_ind' c) (go l')
            end) fs)
  end.
End node_induction.

(** All the nodes of a tree, in the order the walker enters them. *)
Fixpoint nodes (n : node) : list node :=
  match n with
  | Node a fs => n :: flat_map (fun kc => nodes (snd kc)) fs
  end.

(** The ancestors of the node object [r] in a tree, from the root down to
    its parent. *)
Fixpoint ancestors_of (r : nat) (n : node) : option (list node) :=
  match n with
  | Node a fs =>
      if a_ref a =? r then Some []
      else
        (fix among (l : list (string * node)) : option (list node) :=
           match l with
           | [] => None
           | (_, c) :: l' =>
               match ancestors_of r c with
               | Some path => Some (n :: path)
               | None => among l'
               end
           end) fs
  end.

(** The node objects of a tree are pairwise distinct. *)
Definition distinct_nodes (t : node) : Prop := NoDup (map node_ref (nodes t)).

(** The calls of [enter] the walker makes on a tree, in order: each node
    with the parent it is entered from. *)
Fixpoint entered (n : node) (parent : option node) : list (node * option node) :=
  match n with
  | Node a fs => (n, parent) :: flat_map (fun kc => entered (snd kc) (Some n)) fs
  end.

(* ===================================================================== *)
(** ** magic-string *)
(* ===================================================================== *)

(** A [MagicString] keeps the original text as a chain of chunks, each
    covering the original range from [c_start] to [c_end] and holding its
    current [c_content], plus the text inserted before ([intro]) and after
    ([outro]) the whole chain.  Offsets count characters of the original. *)
Module MagicString.

Record Chunk : Type := mkChunk {
  c_start : nat;
  c_end : nat;
  c_content : string;
  c_edited : bool
}.

Record t : Type := mk {
  original : string;
  intro : string;
  outro : string;
  chunks : list Chunk;
  sourcemapLocations : gset nat
}.

(** [new MagicString(code)] *)
Definition new (code : string) : t :=
  {| original := code; intro := ""; outro := "";
     chunks := [mkChunk 0 (String.length code) code false];
     sourcemapLocations := ∅ |}.

(** [s.addSourcemapLocation(char)] *)
Definition addSourcemapLocation (char : nat) (s : t) : t :=
  {| original := original s; intro := intro s; outro := outro s;
     chunks := chunks s;
     sourcemapLocations := {[ char ]} ∪ sourcemapLocations s |}.

(** [s.prepend(content)]: [this.intro = content + this.intro] *)
Definition prepend (content : string) (s : t) : t :=
  {| original := original s; intro := content +:+ intro s; outro := outro s;
     chunks := chunks s; sourcemapLocations := sourcemapLocations s |}.

(** [s.append(content)]: [this.outro += content] *)
Definition append (content : string) (s : t) : t :=
  {| original := original s; intro := intro s; outro := outro s +:+ content;
     chunks := chunks s; sourcemapLocations := sourcemapLocations s |}.

Definition slice (text : string) (from to : nat) : string :=
  String.substring from (to - from) text.

(** [_split(index)]: cut the chunk that strictly contains [index]; a chunk
    that was edited to a non-empty content cannot be cut. *)
Fixpoint split (text : string) (index : nat) (cs : list Chunk) : result (list Chunk) :=
  match cs with
  | [] => Ok []
  | c :: cs' =>
      if (c_start c <? index) && (index <? c_end c) then
        if c_edited c && negb (String.eqb (c_content c) "") then
          Err (MagicStringError "Cannot split a chunk that has already been edited")
        else if c_edited c then
          Ok (mkChunk (c_start c) index "" true :: mkChunk index (c_end c) "" true :: cs')
        else
          Ok (mkChunk (c_start c) index (slice text (c_start c) index) false
                :: mkChunk index (c_end c) (slice text index (c_end c)) false :: cs')
      else
        let* cs'' := split text index cs' in Ok (c :: cs'')
  end.

(** The chunk starting at [start] takes the new content, the other chunks
    up to [end_] become empty. *)
Definition edit_range (start end_ : nat) (content : string) (cs : list Chunk) : list Chunk :=
  map (fun c =>
         if (start <=? c_start c) && (c_end c <=? end_) then
           mkChunk (c_start c) (c_end c)
                   (if c_start c =? start then content else "") true
         else c) cs.

(** [s.overwrite(start, end, content)] *)
Definition overwrite (start end_ : nat) (content : string) (s : t) : result t :=
  if String.length (original s) <? end_ then
    Err (MagicStringError "end is out of bounds")
  else if end_ <=? start then
    Err (MagicStringError "Cannot overwrite a zero-length range")
  else
    let* cs1 := split (original s) start (chunks s) in
    let* cs2 := split (original s) end_ cs1 in
    Ok {| original := original s; intro := intro s; outro := outro s;
          chunks := edit_range start end_ content cs2;
          sourcemapLocations := sourcemapLocations s |}.

(** The text of the chunk chain. *)
Definition body (s : t) : string :=
  fold_right (fun c acc => c_content c +:+ acc) "" (chunks s).

(** [s.toString()] *)
Definition toString (s : t) : string :=
  intro s +:+ body s +:+ outro s.

End MagicString.

(** A queued edit, and a sequence of edits applied in call order. *)
Inductive edit : Type :=
  | Prepend (content : string)
  | Append (content : string)
  | Overwrite (start end_ : nat) (content : string).

Definition apply_edit (e : edit) (s : MagicString.t) : result MagicString.t :=
  match e with
  | Prepend c => Ok (MagicString.prepend c s)
  | Append c => Ok (MagicString.append c s)
  | Overwrite a b c => MagicString.overwrite a b c s
  end.

Fixpoint apply_edits (es : list edit) (s : MagicString.t) : result MagicString.t :=
  match es with
  | [] => Ok s
  | e :: es' => let* s' := apply_edit e s in apply_edits es' s'
  end.

(** The contents inserted at the start, and at the end, in call order. *)
Fixpoint prepended (es : list edit) : list string :=
  match es with
  | [] => []
  | Prepend c :: es' => c :: prepended es'
  | _ :: es' => prepended es'
  end.

Fixpoint appended (es : list edit) : list string :=
  match es with
  | [] => []
  | Append c :: es' => c :: appended es'
  | _ :: es' => appended es'
  end.

(** Strings put end to end. *)
Fixpoint concat_all (l : list string) : string :=
  match l with
  | [] => ""
  | x :: l' => x +:+ concat_all l'
  end.


(** *** Replacements made from left to right *)


(** A replacement: the range and the new content of an [overwrite]. *)
Definition span : Type := (nat * nat * string)%type.

(** The text of a list of chunks. *)
Definition rendered (cs : list MagicString.Chunk) : string :=
  fold_right (fun c acc => MagicString.c_content c +:+ acc) "" cs.

(** The chunk that holds the original text from [pos] to its end. *)
Definition unedited (code : string) (pos : nat) : MagicString.Chunk :=
  MagicString.mkChunk pos (String.length code)
    (MagicString.slice code pos (String.length code)) false.

(** The chunk chain after replacements made from left to right, the last
    of them [prev] and ending at [pos]: the chunks up to [pos], whose text
    is [done], then the rest of the original in one piece. *)
Definition chain (code : string) (pos : nat) (prev : option span) (done : string)
    (cs : list MagicString.Chunk) : Prop :=
  exists pre rest,
    cs = pre ++ rest /\
    Forall (fun ch => MagicString.c_start ch < MagicString.c_end ch /\
                      MagicString.c_end ch <= pos) pre /\
    ((rest = [unedited code pos] /\ (prev = None \/ pos < String.length code)) \/
     (rest = [] /\ pos = String.length code)) /\
    rendered pre = done /\
    match prev with
    | None => pos = 0
    | Some (a, b, c) =>
        b = pos /\
        exists pre0,
          pre = pre0 ++ [MagicString.mkChunk a b c true] /\
          Forall (fun ch => MagicString.c_end ch <= a) pre0
    end.

(** The replacements come in source order: each lies inside the text and
    starts where the one before it ends or later, or repeats it. *)
Fixpoint in_source_order (len : nat) (prev : option span) (spans : list span) : Prop :=
  match spans with
  | [] => True
  | (a, b, c) :: rest =>
      a < b /\ b <= len /\
      (prev = Some (a, b, c) \/
       match prev with Some (_, b0, _) => b0 <= a | None => True end) /\
      in_source_order len (Some (a, b, c)) rest
  end.

(** The text from [pos] on with the replacements made; one that ends at
    [pos] or before repeats the one just made. *)
Fixpoint spliced (code : string) (pos : nat) (spans : list span) : string :=
  match spans with
  | [] => MagicString.slice code pos (String.length code)
  | (a, b, c) :: rest =>
      if b <=? pos then spliced code pos rest
      else MagicString.slice code pos a +:+ c +:+ spliced code b rest
  end.


(* ===================================================================== *)
(** ** estree-walker *)
(* ===================================================================== *)

(** [estree.walk(ast, { enter, leave })]: [enter] on the node, then every
    child in key order, then [leave]; the root has no parent.  The walker's
    state is whatever the callbacks close over. *)
Section estree.
Context {St : Type}.
Variables enter leave : node -> option node -> St -> result St.

Section visit_children.
Variable visit : node -> St -> result St.
Fixpoint visit_children (fs : list (string * node)) (st : St) : result St :=
  match fs with
  | [] => Ok st
  | (_, c) :: fs' => let* st' := visit c st in visit_children fs' st'
  end.
End visit_children.

Fixpoint visit (n : node) (parent : option node) (st : St) {struct n} : result St :=
  match n with
  | Node a fs =>
      let* st1 := enter n parent st in
      let* st2 := visit_children (fun c => visit c (Some n)) fs st1 in
      leave n parent st2
  end.

Definition walk (ast : node) (st : St) : result St := visit ast None st.
End estree.

(** No [leave] callback. *)
Definition no_leave {St : Type} (n : node) (parent : option node) (st : St) : result St :=
  Ok st.

(* ===================================================================== *)
(** ** Helpers of the plugin *)
(* ===================================================================== *)

(** [l.some(f)] for a callback that may throw: stops at the first [true]. *)
Fixpoint some_r {A} (f : A -> result bool) (l : list A) : result bool :=
  match l with
  | [] => Ok false
  | x :: l' => let* b := f x in if b then Ok true else some_r f l'
  end.

(** [l.filter(f)] for a callback that may throw. *)
Fixpoint filter_r {A} (f : A -> result bool) (l : list A) : result (list A) :=
  match l with
  | [] => Ok []
  | x :: l' =>
      let* b := f x in
      let* r := filter_r f l' in
      Ok (if b then x :: r else r)
  end.

(** [l.indexOf(x)], [-1] when absent. *)
Fixpoint indexOf (x : string) (l : list string) : Z :=
  match l with
  | [] => (-1)%Z
  | y :: l' =>
      if String.eqb y x then 0%Z
      else let i := indexOf x l' in if (i =? -1)%Z then (-1)%Z else (i + 1)%Z
  end.

(** [l.filter((e, i, a) => f e i a)] *)
Fixpoint filter_indexed_from {A} (f : A -> Z -> bool) (i : Z) (l : list A) : list A :=
  match l with
  | [] => []
  | x :: l' =>
      if f x i then x :: filter_indexed_from f (i + 1)%Z l'
      else filter_indexed_from f (i + 1)%Z l'
  end.

Definition filter_indexed {A} (f : A -> Z -> list A -> bool) (l : list A) : list A :=
  filter_indexed_from (fun e i => f e i l) 0%Z l.

(** [l.join(sep)] *)
Fixpoint join (sep : string) (l : list string) : string :=
  match l with
  | [] => ""
  | [x] => x
  | x :: l' => x +:+ sep +:+ join sep l'
  end.

(** A mandatory child property: reading through [null] / [undefined]
    throws. *)
Definition req_child (k : string) (n : node) : result node :=
  match child k n with
  | Some c => Ok c
  | None => Err (TypeError k)
  end.

(** [d.id.name === name] *)
Definition id_name_is (name : string) (d : node) : result bool :=
  let* id := req_child "id" d in Ok (name_is name id).

(** [findTopLevelDeclaration(ast, name)] (part_000, lines 6-26) *)
Definition findTopLevelDeclaration (ast : node) (name : string) : result bool :=
  some_r (fun node =>
    let* hit1 :=
      (if has_type "VariableDeclaration" node then
         (* [declarations.find(...)] stops at the first match *)
         some_r (id_name_is name) (children_at "declarations" node)
       else Ok false) in
    if hit1 then Ok true else
    let* hit2 :=
      (if has_type "FunctionDeclaration" node then id_name_is name node
       else Ok false) in
    if hit2 then Ok true else
    let* hit3 :=
      (if has_type "ClassDeclaration" node then id_name_is name node
       else Ok false) in
    Ok hit3)
  (children_at "body" ast).

(** [findNodeInAst(ast, target)] (part_000, lines 28-40); [ast] may be
    [null] (an [if] without [else]), which the walker does not visit. *)
Definition findNodeInAst (ast : option node) (target : node) : bool :=
  match ast with
  | None => false
  | Some t =>
      match walk (fun node _ found => Ok (if same_node node target then true else found))
                 no_leave t false with
      | Ok found => found
      | Err _ => false
      end
  end.

(** The two statements written by [exportNames]. *)
Definition export_list_text (topLevelNames : list string) : string :=
  "
            export { " +:+ join ", " topLevelNames +:+ " };
        ".

Definition export_var_text (otherNames : list string) : string :=
  "
            " +:+ join " " (map (fun ex => "export var " +:+ ex +:+ " = __exports." +:+ ex +:+ ";") otherNames) +:+ "
        ".

(** [exportNames(ast, names, s)] (part_000, lines 42-64) *)
Definition exportNames (ast : node) (names : list string) (s : MagicString.t)
  : result MagicString.t :=
  let* topLevelNames := filter_r (findTopLevelDeclaration ast) names in
  let otherNames := List.filter (fun name => (indexOf name topLevelNames =? -1)%Z) names in
  let s1 := if 0 <? length topLevelNames
            then MagicString.append (export_list_text topLevelNames) s else s in
  let s2 := if 0 <? length otherNames
            then MagicString.append (export_var_text otherNames) s1 else s1 in
  Ok s2.

(** [findTopLevelDeclaration] as a test, for the names on which it does not
    throw. *)
Definition declared (ast : node) (name : string) : bool :=
  match findTopLevelDeclaration ast name with
  | Ok b => b
  | Err _ => false
  end.

(** A top-level statement that binds [name]: a variable declaration with a
    declarator of that name, or a function or class declaration of that
    name. *)
Definition declares (name : string) (d : node) : Prop :=
  (has_type "VariableDeclaration" d = true /\
   exists dc id, In dc (children_at "declarations" d) /\
                 child "id" dc = Some id /\ name_is name id = true) \/
  ((has_type "FunctionDeclaration" d = true \/ has_type "ClassDeclaration" d = true) /\
   exists id, child "id" d = Some id /\ name_is name id = true).

(** The statements of the program body have the identifiers the parser
    always gives them: every declarator of a variable declaration and every
    function or class declaration has its [id]. *)
Definition declarations_have_ids (ast : node) : Prop :=
  forall d, In d (children_at "body" ast) ->
    (has_type "VariableDeclaration" d = true ->
       forall dc, In dc (children_at "declarations" d) -> child "id" dc <> None) /\
    (has_type "FunctionDeclaration" d = true \/ has_type "ClassDeclaration" d = true ->
       child "id" d <> None).

(** What [exportNames] appends for [names]: the re-export of the names
    bound at top level, then a fresh exported variable for each other
    name. *)
Definition names_text (ast : node) (names : list string) : string :=
  let topLevelNames := List.filter (declared ast) names in
  let otherNames := List.filter (fun name => negb (declared ast name)) names in
  (if 0 <? length topLevelNames then export_list_text topLevelNames else "")
  +:+ (if 0 <? length otherNames then export_var_text otherNames else "").

(** The elements of a list in the order of their first occurrence, without
    repetition and without those already [seen]. *)
Fixpoint unique_in_order (seen l : list string) : list string :=
  match l with
  | [] => []
  | x :: l' =>
      if existsb (String.eqb x) seen then unique_in_order seen l'
      else x :: unique_in_order (x :: seen) l'
  end.

(** The decimal digits of a natural number and of an integer. *)
Definition decimal (n : nat) : string := NilZero.string_of_uint (Nat.to_uint n).

Definition digits (z : Z) : string := NilZero.string_of_int (Z.to_int z).

(** [String(x)] for a number [x] ([Number::toString] of the language): the
    digits are the fewest that read back as the same double, and the
    closest to it among those; they are written with a decimal point for
    a number from [1e-6] up to 21 digits, and with an exponent beyond
    ([String(1e21)] is ['1e+21'], [String(2 ** 63)] is
    ['9223372036854776000'], [String(1e-7)] is ['1e-7']).  A double is
    given exactly, as [m / 2 ^ e]. *)
Module Number.

(** [10 ^ j] for a [j] of any sign, as a numerator and a denominator. *)
Definition ten_up (j : Z) : Z := (10 ^ Z.max 0 j)%Z.
Definition ten_down (j : Z) : Z := (10 ^ Z.max 0 (- j))%Z.

Section shortest_decimal.
(** The number [m / 2 ^ e], for [0 < m] and [0 <= e]. *)
Variables m e : Z.

(** The exponent of the power of two below the number, and that of the
    distance to the next double above it. *)
Definition binary_exponent : Z := (Z.log2 m - e)%Z.
Definition ulp_exponent : Z := Z.max (-1074) (binary_exponent - 52).

(** All quantities are counted in units of [2 ^ - grain], which makes the
    number, and a quarter of the distance to the next double, whole. *)
Definition grain : Z := Z.max e (Z.max 0 (2 - ulp_exponent)).
Definition scaled : Z := (m * 2 ^ (grain - e))%Z.
Definition ulp : Z := (2 ^ (ulp_exponent + grain))%Z.
Definition mantissa : Z := (scaled / ulp)%Z.

(** The decimal [s * 10 ^ j] reads back as the number: it lies no further
    from it than half the way to the next double -- a quarter of the way
    below a power of two -- the half-way points counting when the mantissa
    is even. *)
Definition reads_back (s j : Z) : bool :=
  let below := (if (mantissa =? 2 ^ 52) && (-1074 <? ulp_exponent)
                then ulp / 4 else ulp / 2)%Z in
  let lower := ((scaled - below) * ten_down j)%Z in
  let upper := ((scaled + ulp / 2) * ten_down j)%Z in
  let c := (s * ten_up j * 2 ^ grain)%Z in
  if Z.even mantissa
  then ((lower <=? c) && (c <=? upper))%Z
  else ((lower <? c) && (c <? upper))%Z.

(** The number of digits before the decimal point (none or less for a
    number below one): [10 ^ (n - 1) <= m / 2 ^ e < 10 ^ n]. *)
Definition at_least_ten_to (f : Z) : bool :=
  (ten_up f * 2 ^ e <=? m * ten_down f)%Z.

Definition point : Z :=
  let f := (binary_exponent * 30103 / 100000)%Z in
  let f := if at_least_ten_to f then f else (f - 1)%Z in
  let f := if at_least_ten_to f then f else (f - 1)%Z in
  let f := if at_least_ten_to (f + 1) then (f + 1)%Z else f in
  let f := if at_least_ten_to (f + 1) then (f + 1)%Z else f in
  (f + 1)%Z.

(** The decimal with the fewest digits that reads back as the number, and
    among those the closest to it: with [k] digits, the candidates are the
    number cut after its first [k] digits and the next decimal up; of two
    candidates as close the one with an even last digit is taken. *)
Fixpoint shortest (steps : nat) (k : Z) : Z * Z :=
  let j := (point - k)%Z in
  let lo := (m * ten_down j / (2 ^ e * ten_up j))%Z in
  let hi := (lo + 1)%Z in
  match steps with
  | 0 => (lo, j)
  | S steps' =>
      match reads_back lo j, reads_back hi j with
      | true, true =>
          let twice := (2 * m * ten_down j)%Z in
          let middle := ((2 * lo + 1) * ten_up j * 2 ^ e)%Z in
          if (twice <? middle)%Z then (lo, j)
          else if (middle <? twice)%Z then (hi, j)
          else if Z.even lo then (lo, j) else (hi, j)
      | true, false => (lo, j)
      | false, true => (hi, j)
      | false, false => shortest steps' (k + 1)%Z
      end
  end.
End shortest_decimal.

Fixpoint without_trailing_zeros (s : string) : string :=
  match s with
  | EmptyString => EmptyString
  | String c s' =>
      match without_trailing_zeros s' with
      | EmptyString => if Ascii.eqb c "0" then EmptyString else String c EmptyString
      | r => String c r
      end
  end.

Fixpoint zeros (n : nat) : string :=
  match n with
  | 0 => ""
  | S n' => String "0" (zeros n')
  end.

(** [Number::toString]: the digits [ds] with the decimal point after the
    first [n] of them. *)
Definition place_point (ds : string) (n : Z) : string :=
  let k := Z.of_nat (String.length ds) in
  if ((k <=? n) && (n <=? 21))%Z then ds +:+ zeros (Z.to_nat (n - k))
  else if ((0 <? n) && (n <=? 21))%Z then
    String.substring 0 (Z.to_nat n) ds +:+ "."
      +:+ String.substring (Z.to_nat n) (Z.to_nat (k - n)) ds
  else if ((-6 <? n) && (n <=? 0))%Z then "0." +:+ zeros (Z.to_nat (- n)) +:+ ds
  else
    match ds with
    | String d rest =>
        String d (if String.eqb rest "" then "" else "." +:+ rest)
          +:+ "e" +:+ (if (n - 1 <? 0)%Z then "-" else "+")
          +:+ digits (Z.abs (n - 1))
    | EmptyString => ds
    end.

(** [String(x)] for the number [x = m / 2 ^ e]. *)
Definition toString (m e : Z) : string :=
  if (m =? 0)%Z then "0"
  else
    let a := Z.abs m in
    let steps := Z.to_nat (Z.max 17 (point a e + e)) in
    let '(s, j) := shortest a e steps 1 in
    let all := digits s in
    (if (m <? 0)%Z then "-" else "")
    +:+ place_point (without_trailing_zeros all) (Z.of_nat (String.length all) + j).

End Number.

(** [String(v)] of a literal value inside a template string. *)
Definition literal_to_string (v : option literal) : string :=
  match v with
  | None => "undefined"
  | Some (LString s) => s
  | Some (LNumber z) => Number.toString z 0
  | Some (LFraction m e) => Number.toString (Z.pos m) (Z.pos e)
  | Some LInfinity => "Infinity"
  | Some (LBigInt z) => digits z
  | Some (LBoolean true) => "true"
  | Some (LBoolean false) => "false"
  | Some LNull => "null"
  | Some (LRegExp p f) => "/" +:+ p +:+ "/" +:+ f
  end.

(** [str.replace(pat, rep)] for a string pattern: the first occurrence. *)
Definition replace_first (pat rep str : string) : string :=
  match String.index 0 pat str with
  | Some i =>
      String.substring 0 i str +:+ rep
        +:+ String.substring (i + String.length pat)
                             (String.length str - (i + String.length pat)) str
  | None => str
  end.

(** [str.replace(/\\/g, '/')] *)
Fixpoint backslashes_to_slashes (str : string) : string :=
  match str with
  | EmptyString => EmptyString
  | String c str' =>
      String (if Ascii.eqb c "\"%char then "/"%char else c) (backslashes_to_slashes str')
  end.

(** [str.substring(1)] *)
Definition substring_from_1 (str : string) : string :=
  String.substring 1 (String.length str - 1) str.

(** The texts the transform inserts. *)
Definition interop_helper_text : string := "
                    function __interopImport(ex) {
                        if (ex.__esModule) {
                            return ex;
                        }

                        if (ex.default !== undefined) {
                            return ex.default;
                        } 

                        return ex;
                    }
                ".

Definition exports_declaration_text : string := "var __exports = {};".

Definition es_default_export_text : string := ";
export default __exports.default;".

Definition es_marker_text : string := ";
var __esModule = true; export { __esModule };".

Definition default_export_text : string := ";
export default __exports;".

Definition tempImportName_of (importIndex : nat) : string :=
  "__require__import__" +:+ decimal importIndex.

Definition interop_call_text (tempImportName : string) : string :=
  "__interopImport(" +:+ tempImportName +:+ ")".

Definition import_text (tempImportName importee : string) : string :=
  "import * as " +:+ tempImportName +:+ " from '" +:+ importee +:+ "';".

(** The import statements in front of the text after the aliases
    [0 .. n-1] were allocated for the modules [importees], listed last
    allocated first. *)
Fixpoint imports_block (importees : list string) : string :=
  match importees with
  | [] => ""
  | importee :: l =>
      import_text (tempImportName_of (length l)) importee +:+ imports_block l
  end.

(** The plugin options: [options.namedExports] maps a file to the names it
    should export. *)
Record Options : Type := mkOptions {
  namedExports : option (gmap string (list string))
}.

(* ===================================================================== *)
(** ** The transform hook (src/unnamed/part_000) *)
(* ===================================================================== *)

Section transform.
(** What the host provides: the world [eval] runs in and the meaning of
    an expression in it, [path.extname], [process.cwd()], and the
    [options] the plugin was created with.  An evaluation can end with a
    value and a new world, throw, or not end; it is taken not to reach the
    variables of [transform] itself, which the evaluated text could name
    (see [names_plugin_variable] below). *)
Context {Host : Type}.
Variable eval_expression : node -> Host -> result (value * Host).
Variable extname : string -> string.
Variable cwd : string.
Variable options : option Options.

(** The [let] variables of [transform] (lines 73-83), and the host world. *)
Record state : Type := mkState {
  importIndex : nat;
  isESModule : bool;
  hasExports : bool;
  hasImports : bool;
  hasESDefaultExport : bool;
  exported : list string;
  s : MagicString.t;
  ancestors : list node;
  host : Host
}.

Definition set_importIndex (v : nat) (st : state) : state :=
  mkState v (isESModule st) (hasExports st) (hasImports st) (hasESDefaultExport st)
          (exported st) (s st) (ancestors st) (host st).
Definition set_isESModule (v : bool) (st : state) : state :=
  mkState (importIndex st) v (hasExports st) (hasImports st) (hasESDefaultExport st)
          (exported st) (s st) (ancestors st) (host st).
Definition set_hasExports (v : bool) (st : state) : state :=
  mkState (importIndex st) (isESModule st) v (hasImports st) (hasESDefaultExport st)
          (exported st) (s st) (ancestors st) (host st).
Definition set_hasImports (v : bool) (st : state) : state :=
  mkState (importIndex st) (isESModule st) (hasExports st) v (hasESDefaultExport st)
          (exported st) (s st) (ancestors st) (host st).
Definition set_hasESDefaultExport (v : bool) (st : state) : state :=
  mkState (importIndex st) (isESModule st) (hasExports st) (hasImports st) v
          (exported st) (s st) (ancestors st) (host st).
Definition set_exported (v : list string) (st : state) : state :=
  mkState (importIndex st) (isESModule st) (hasExports st) (hasImports st)
          (hasESDefaultExport st) v (s st) (ancestors st) (host st).
Definition set_s (v : MagicString.t) (st : state) : state :=
  mkState (importIndex st) (isESModule st) (hasExports st) (hasImports st)
          (hasESDefaultExport st) (exported st) v (ancestors st) (host st).
Definition set_ancestors (v : list node) (st : state) : state :=
  mkState (importIndex st) (isESModule st) (hasExports st) (hasImports st)
          (hasESDefaultExport st) (exported st) (s st) v (host st).
Definition set_host (v : Host) (st : state) : state :=
  mkState (importIndex st) (isESModule st) (hasExports st) (hasImports st)
          (hasESDefaultExport st) (exported st) (s st) (ancestors st) v.

(** The two bookkeeping steps of [enter]: the source-map locations of the
    node, and the push on the ancestor stack. *)
Definition located (nd : node) (st : state) : state :=
  set_s (MagicString.addSourcemapLocation (node_end nd)
           (MagicString.addSourcemapLocation (node_start nd) (s st))) st.

Definition pushed (nd : node) (st : state) : state :=
  set_ancestors (ancestors st ++ [nd]) st.

(** A step that allocates no import alias and inserts nothing before or
    after the text. *)
Definition no_import (st st' : state) : Prop :=
  ancestors st' = ancestors st /\
  importIndex st' = importIndex st /\
  hasImports st' = hasImports st /\
  MagicString.intro (s st') = MagicString.intro (s st) /\
  MagicString.outro (s st') = MagicString.outro (s st).

(** A step that allocates the next alias for [importee] and inserts its
    import statement before the text. *)
Definition one_import (importee : string) (st st' : state) : Prop :=
  ancestors st' = ancestors st /\
  importIndex st' = S (importIndex st) /\
  hasImports st' = true /\
  MagicString.intro (s st')
    = import_text (tempImportName_of (importIndex st)) importee
        +:+ MagicString.intro (s st) /\
  MagicString.outro (s st') = MagicString.outro (s st).

(** What holds of the state throughout the walk: the aliases allocated so
    far are [0 .. importIndex - 1], their import statements are all that
    stands before the text, nothing stands after it, and [hasImports]
    tells whether an alias was allocated. *)
Definition walking (st : state) : Prop :=
  (exists importees,
      length importees = importIndex st /\
      MagicString.intro (s st) = imports_block importees) /\
  hasImports st = (0 <? importIndex st) /\
  MagicString.outro (s st) = "".

(** A step that leaves the export bookkeeping alone. *)
Definition same_exports (st st' : state) : Prop :=
  isESModule st' = isESModule st /\
  hasESDefaultExport st' = hasESDefaultExport st /\
  exported st' = exported st /\
  hasExports st' = hasExports st.

(** [parent.type === 'IfStatement' && parent.test.type === 'BinaryExpression'] *)
Definition qualifying (parent : node) : result bool :=
  if has_type "IfStatement" parent then
    let* test := req_child "test" parent in
    Ok (has_type "BinaryExpression" test)
  else Ok false.

(** The [eval] of the [if] statement whose branches were replaced by
    [branch = 0] and [branch = 1]: the test is evaluated in the host
    world and the marker of the branch taken is returned. *)
Definition eval_branch (parent : node) (h : Host) : result (nat * Host) :=
  let* test := req_child "test" parent in
  let* (v, h') := eval_expression test h in
  Ok (if truthy v then 0 else 1, h').

(** What the callback of [ancestors.some] does at a qualifying [parent]
    (lines 116-148): evaluate, pick [branchToCheck], look for the call in
    it. *)
Definition consult (parent node : node) (h : Host) : result (bool * Host) :=
  let consequent := child "consequent" parent in
  let alternate := child "alternate" parent in
  let* (branch, h') := eval_branch parent h in
  let branchToCheck := if branch =? 0 then consequent else alternate in
  let found := findNodeInAst branchToCheck node in
  Ok (found, h').

(** [let shouldInclude = true; ancestors.some(...)] (lines 105-150, and the
    same code in src/index.js, lines 79-127): the stack is read from its
    first element; the first qualifying entry decides and ends the
    search. *)
Fixpoint shouldInclude (ancestors : list node) (node : node) (h : Host)
  : result (bool * Host) :=
  match ancestors with
  | [] => Ok (true, h)
  | parent :: rest =>
      let* q := qualifying parent in
      if q then consult parent node h
      else shouldInclude rest node h
  end.

(** The argument of a call [require(literal)]: the callee is named
    [require] and the only argument is a [Literal] node. *)
Definition require_literal_argument (nd : node) : option node :=
  match child "callee" nd with
  | Some callee =>
      if name_is "require" callee then
        match children_at "arguments" nd with
        | [arg] => if has_type "Literal" arg then Some arg else None
        | _ => None
        end
      else None
  | None => None
  end.

(** [nd] lies inside the branch [branch] of a conditional. *)
Definition within (branch : option node) (nd : node) : Prop :=
  match branch with
  | Some t => In nd (nodes t)
  | None => False
  end.

(** The rewrite of an included call (lines 152-158). *)
Definition rewrite_require (node arg : node) (st : state) : result state :=
  let importee := literal_to_string (node_value arg) in
  let tempImportName := tempImportName_of (importIndex st) in
  let st := set_importIndex (S (importIndex st)) st in
  let* s1 := MagicString.overwrite (node_start node) (node_end node)
               (interop_call_text tempImportName) (s st) in
  let s2 := MagicString.prepend (import_text tempImportName importee) s1 in
  Ok (set_hasImports true (set_s s2 st)).

(** [if (node.type === 'CallExpression') { ... }] (lines 89-162) *)
Definition enter_CallExpression (node : node) (st : state) : result state :=
  let* callee := req_child "callee" node in
  if name_is "require" callee then
    match children_at "arguments" node with
    | [arg] =>
        if has_type "Literal" arg then
          let* (include, h') := shouldInclude (ancestors st) node (host st) in
          let st := set_host h' st in
          if include then rewrite_require node arg st else Ok st
        else Ok st
    | _ => Ok st
    end
  else Ok st.

(** [if (node.type === 'AssignmentExpression') { ... }] (lines 164-189) *)
Definition enter_AssignmentExpression (node : node) (st : state) : result state :=
  let* left_ := req_child "left" node in
  if has_type "MemberExpression" left_ then
    let* st :=
      match child "object" left_ with
      | Some object =>
          if name_is "module" object then
            match child "property" left_ with
            | Some property =>
                if name_is "exports" property || value_is "exports" property then
                  let st := set_hasExports true st in
                  let* s1 := MagicString.overwrite (node_start left_) (node_end left_)
                               "__exports" (s st) in
                  Ok (set_s s1 st)
                else Ok st
            | None => Ok st
            end
          else Ok st
      | None => Ok st
      end in
    match child "object" left_ with
    | Some object =>
        if name_is "exports" object then
          let st := set_hasExports true st in
          let* s1 := MagicString.overwrite (node_start object) (node_end object)
                       "__exports" (s st) in
          let st := set_s s1 st in
          match child "property" left_ with
          | Some property =>
              match node_name property with
              | Some name =>
                  if negb (String.eqb name "")
                  then Ok (set_exported (exported st ++ [name]) st)
                  else Ok st
              | None => Ok st
              end
          | None => Ok st
          end
        else Ok st
    | None => Ok st
    end
  else Ok st.

(** [if (node.type === 'Identifier' && node.name === 'exports') { ... }]
    (lines 192-197); the root has no parent to read [object] from. *)
Definition enter_exports (nd : node) (parent : option node) (st : state)
  : result state :=
  match parent with
  | None => Err (TypeError "object")
  | Some parent =>
      let rewrite :=
        match child "object" parent with
        | None => true
        | Some object => same_node object nd
        end in
      if rewrite then
        let st := set_hasExports true st in
        let* s1 := MagicString.overwrite (node_start nd) (node_end nd)
                     "__exports" (s st) in
        Ok (set_s s1 st)
      else Ok st
  end.

(** The [enter] callback (lines 85-208). *)
Definition enter (nd : node) (parent : option node) (st : state) : result state :=
  let st := located nd st in
  let* st := if has_type "CallExpression" nd
             then enter_CallExpression nd st else Ok st in
  let* st := if has_type "AssignmentExpression" nd
             then enter_AssignmentExpression nd st else Ok st in
  let* st := if has_type "Identifier" nd && name_is "exports" nd
             then enter_exports nd parent st else Ok st in
  let st := if has_type "Literal" nd && value_is "__esModule" nd
            then set_isESModule true st else st in
  let st := if has_type "ExportDefaultDeclaration" nd
            then set_hasESDefaultExport true st else st in
  Ok (pushed nd st).

(** The [leave] callback (lines 210-212): [ancestors.pop()]. *)
Definition leave (nd : node) (parent : option node) (st : state) : result state :=
  Ok (set_ancestors (removelast (ancestors st)) st).

(** The state [transform] starts the walk with. *)
Definition initial_state (code : string) (h : Host) : state :=
  mkState 0 false false false false [] (MagicString.new code) [] h.

(** [exported.filter((e, i, a) => e !== 'default' && a.indexOf(e) === i)]
    (line 251) *)
Definition exported_names (exported : list string) : list string :=
  filter_indexed
    (fun e i a => negb (String.eqb e "default") && (indexOf e a =? i)%Z) exported.

(** [id.replace(process.cwd(), '').replace(/\\/g, '/').substring(1)]
    (line 265) *)
Definition namedExportFile (id : string) : string :=
  substring_from_1 (backslashes_to_slashes (replace_first cwd "" id)).

(** [options && options.namedExports && options.namedExports[file]] *)
Definition requested_names (id : string) : option (list string) :=
  match options with
  | Some o =>
      match namedExports o with
      | Some table => table !! namedExportFile id
      | None => None
      end
  | None => None
  end.

(** [if (hasImports) { s.prepend(helper) }] (lines 224-238) *)
Definition emit_interop (st : state) : state :=
  if hasImports st
  then set_s (MagicString.prepend interop_helper_text (s st)) st
  else st.

(** [if (hasExports) { ... }] (lines 246-270) *)
Definition emit_exports (ast : node) (id : string) (st : state) : result state :=
  if hasExports st then
    let s0 := MagicString.prepend exports_declaration_text (s st) in
    let* (exported', s1) :=
      (if isESModule st then
         let s1 := if negb (hasESDefaultExport st)
                   then MagicString.append es_default_export_text s0 else s0 in
         let exported' := exported_names (exported st) in
         let* s2 := exportNames ast exported' s1 in
         Ok (exported', MagicString.append es_marker_text s2)
       else
         Ok (exported st,
             if negb (hasESDefaultExport st)
             then MagicString.append default_export_text s0 else s0)) in
    let* s2 :=
      match requested_names id with
      | Some names => exportNames ast names s1
      | None => Ok s1
      end in
    Ok (set_s s2 (set_exported exported' st))
  else Ok st.

(** The statements put after the text, in the order they are appended: the
    default export, for a transpiled ES module the exports of the
    [exports.NAME] candidates and the [__esModule] marker, and last the
    exports of the names the caller asked for.  [st] is the final state,
    whose [exported] are the candidates that were exported. *)
Definition default_export_part (st : state) : string :=
  if hasESDefaultExport st then ""
  else if isESModule st then es_default_export_text
  else default_export_text.

Definition candidates_part (ast : node) (st : state) : string :=
  if isESModule st then names_text ast (exported st) +:+ es_marker_text else "".

Definition requested_part (ast : node) (id : string) : string :=
  match requested_names id with
  | Some names => names_text ast names
  | None => ""
  end.

Definition footer_text (ast : node) (id : string) (st : state) : string :=
  default_export_part st +:+ candidates_part ast st +:+ requested_part ast id.

(** The body of [transform] up to its [return]: the walk and the
    emission sequence, from the tree [ast = this.parse(code)]. *)
Definition transform_state (code id : string) (ast : node) (h : Host) : result state :=
  let* st := walk enter leave ast (initial_state code h) in
  emit_exports ast id (emit_interop st).

(** [transform(code, id)] (lines 68-276); [None] is the [undefined]
    returned for a file that is not [.js]; of the result only [code] is
    modelled. *)
Definition transform (code id : string) (ast : node) (h : Host)
  : result (option string) :=
  if negb (String.eqb (extname id) ".js") then Ok None
  else
    let* st := transform_state code id ast h in
    Ok (Some (MagicString.toString (s st))).

End transform.

Arguments state : clear implicits.

(* ===================================================================== *)
(** ** What [enter] reads off a node *)
(* ===================================================================== *)

(** [node.type === 'Literal' && node.value === '__esModule'] (line 199) *)
Definition marks_es_module (nd : node) : bool :=
  has_type "Literal" nd && value_is "__esModule" nd.

(** The name pushed on [exported] at a node (lines 164-187): the property
    name of an assignment to [exports.NAME]. *)
Definition exported_candidate (nd : node) : list string :=
  if has_type "AssignmentExpression" nd then
    match child "left" nd with
    | Some left_ =>
        if has_type "MemberExpression" left_ then
          match child "object" left_ with
          | Some object =>
              if name_is "exports" object then
                match child "property" left_ with
                | Some property =>
                    match node_name property with
                    | Some name => if negb (String.eqb name "") then [name] else []
                    | None => []
                    end
                | None => []
                end
              else []
          | None => []
          end
        else []
    | None => []
    end
  else [].

(** The assignments that set [hasExports] (lines 171-183): to
    [module.exports], [module['exports']] or a property of [exports]. *)
Definition assigns_exports (nd : node) : bool :=
  has_type "AssignmentExpression" nd &&
  match child "left" nd with
  | Some left_ =>
      has_type "MemberExpression" left_ &&
      match child "object" left_ with
      | Some object =>
          (name_is "module" object &&
           match child "property" left_ with
           | Some property => name_is "exports" property || value_is "exports" property
           | None => false
           end)
          || name_is "exports" object
      | None => false
      end
  | None => false
  end.

(** The identifiers that set [hasExports] (lines 192-196): [exports]
    anywhere but as the property of a member expression. *)
Definition mentions_exports (nd : node) (parent : option node) : bool :=
  has_type "Identifier" nd && name_is "exports" nd &&
  match parent with
  | Some p =>
      match child "object" p with
      | None => true
      | Some object => same_node object nd
      end
  | None => false
  end.

(** The module a node asks for: the argument of a call [require(literal)],
    as it is written into the import statement (line 153). *)
Definition required_module (nd : node) : list string :=
  if has_type "CallExpression" nd then
    match require_literal_argument nd with
    | Some arg => [literal_to_string (node_value arg)]
    | None => []
    end
  else [].

(** A node on which [enter] rewrites nothing and cannot throw: a call has
    its callee and is not [require(literal)]; an assignment has its target,
    which is not [module.exports] or a property of [exports]; an identifier
    [exports] is the property of a member expression. *)
Definition passed_over (nd : node) (parent : option node) : Prop :=
  (has_type "CallExpression" nd = true ->
     child "callee" nd <> None /\ require_literal_argument nd = None) /\
  (has_type "AssignmentExpression" nd = true ->
     child "left" nd <> None /\ assigns_exports nd = false) /\
  (has_type "Identifier" nd && name_is "exports" nd = true ->
     exists p object, parent = Some p /\ child "object" p = Some object /\
                      same_node object nd = false).

(** The calls of [enter] on a tree, each with the parent and with the
    stack of ancestors [enter] finds: the nodes from the root down to the
    parent. *)
Fixpoint entered_under (n : node) (parent : option node) (stack : list node)
  : list (node * option node * list node) :=
  match n with
  | Node a fs =>
      (n, parent, stack)
        :: flat_map (fun kc => entered_under (snd kc) (Some n) (stack ++ [n])) fs
  end.

(** The outcome of the search of the stack (lines 105-150) when the branch
    evaluation of a conditional [p] takes the branch [verdict p]: the first
    conditional with a binary test decides, by whether the call lies in the
    branch it takes. *)
Fixpoint included (verdict : node -> nat) (stack : list node) (nd : node) : bool :=
  match stack with
  | [] => true
  | p :: rest =>
      match qualifying p with
      | Ok true =>
          findNodeInAst
            (if verdict p =? 0 then child "consequent" p else child "alternate" p) nd
      | _ => included verdict rest nd
      end
  end.

(** The module imported at a node: that of a call [require(literal)] which
    is included. *)
Definition imported (verdict : node -> nat) (nd : node) (stack : list node)
  : list string :=
  if included verdict stack nd then required_module nd else [].

(** What the handlers of [enter] replace at a node: the call handler when
    the call is [require(literal)] and gets the alias [importIndex]
    (line 155), the assignment handler (lines 175 and 182), and the
    identifier handler (line 195). *)
Definition call_replacement (importIndex : nat) (nd : node) : list span :=
  if has_type "CallExpression" nd then
    match require_literal_argument nd with
    | Some _ =>
        [(node_start nd, node_end nd,
          interop_call_text (tempImportName_of importIndex))]
    | None => []
    end
  else [].

Definition assignment_replacements (nd : node) : list span :=
  if has_type "AssignmentExpression" nd then
    match child "left" nd with
    | Some left_ =>
        if has_type "MemberExpression" left_ then
          match child "object" left_ with
          | Some object =>
              (if name_is "module" object &&
                  match child "property" left_ with
                  | Some property =>
                      name_is "exports" property || value_is "exports" property
                  | None => false
                  end
               then [(node_start left_, node_end left_, "__exports")]
               else [])
              ++ (if name_is "exports" object
                  then [(node_start object, node_end object, "__exports")]
                  else [])
          | None => []
          end
        else []
    | None => []
    end
  else [].

Definition mention_replacement (nd : node) (parent : option node) : list span :=
  if mentions_exports nd parent
  then [(node_start nd, node_end nd, "__exports")]
  else [].

Definition replacements_at (verdict : node -> nat) (importIndex : nat)
    (nd : node) (parent : option node) (stack : list node) : list span :=
  (if included verdict stack nd then call_replacement importIndex nd else [])
    ++ assignment_replacements nd
    ++ mention_replacement nd parent.

(** The replacements of a walk, the next alias being [importIndex], and
    the modules it imports. *)
Fixpoint replacements (verdict : node -> nat) (importIndex : nat)
    (tr : list (node * option node * list node)) : list span :=
  match tr with
  | [] => []
  | (nd, parent, stack) :: tr' =>
      replacements_at verdict importIndex nd parent stack
        ++ replacements verdict
             (importIndex + length (imported verdict nd stack)) tr'
  end.

Definition imports (verdict : node -> nat)
    (tr : list (node * option node * list node)) : list string :=
  flat_map (fun e => imported verdict (fst (fst e)) (snd e)) tr.

(** A node at which [enter] reads no property of [undefined]: a
    conditional has its test, a call its callee, an assignment its target,
    and the identifier [exports] a parent. *)
Definition readable (nd : node) (parent : option node) : Prop :=
  (has_type "IfStatement" nd = true -> child "test" nd <> None) /\
  (has_type "CallExpression" nd = true -> child "callee" nd <> None) /\
  (has_type "AssignmentExpression" nd = true -> child "left" nd <> None) /\
  (has_type "Identifier" nd && name_is "exports" nd = true -> parent <> None).

(** The text is [code] with replacements made in source order, and with
    the replacements [spans] still to make it becomes [target]. *)
Definition pending (code target : string) (s : MagicString.t) (spans : list span)
  : Prop :=
  MagicString.original s = code /\
  exists pos prev done,
    chain code pos prev done (MagicString.chunks s) /\
    in_source_order (String.length code) prev spans /\
    done +:+ spliced code pos spans = target.

(* ===================================================================== *)
(** ** The interop helper *)
(* ===================================================================== *)

(** The function defined by [interop_helper_text] (part_000, lines
    226-236):
    [if (ex.__esModule) return ex;
     if (ex.default !== undefined) return ex.default;
     return ex;] *)
Definition __interopImport (ex : gmap string value) : value :=
  if truthy (get_prop ex "__esModule") then VObject ex
  else if negb (is_undefined (get_prop ex "default")) then get_prop ex "default"
  else VObject ex.

(** The helper of the older variant (src/index.js, lines 186-194). *)
Module IndexJs.

Definition interop_helper_text : string := "
                    function __interopImport(ex) {
                        if (ex.default) {
                            return ex.default;
                        } else {
                            return ex;
                        }
                    }
                ".

(** [if (ex.default) { return ex.default; } else { return ex; }] *)
Definition __interopImport (ex : gmap string value) : value :=
  if truthy (get_prop ex "default") then get_prop ex "default"
  else VObject ex.



(** The transform hook of the older variant (src/index.js, lines 43-244).
    It shares [findTopLevelDeclaration], [findNodeInAst] and the search of
    the ancestor stack with the current one. *)

Definition default_export_text : string := "export default __exports;".

Definition export_list_text (topLevelNames : list string) : string :=
  "
                            export { " +:+ join ", " topLevelNames +:+ " };
                        ".

Definition export_var_text (otherNames : list string) : string :=
  "
                            " +:+ join " " (map (fun ex => "export var " +:+ ex +:+ " = __exports." +:+ ex +:+ ";") otherNames) +:+ "
                        ".

(** The assignments that set [hasExports] in this variant (lines 147-157). *)
Definition assigns_exports (nd : node) : bool :=
  has_type "AssignmentExpression" nd &&
  match child "left" nd with
  | Some left_ =>
      has_type "MemberExpression" left_ &&
      match child "object" left_ with
      | Some object =>
          (name_is "module" object &&
           match child "property" left_ with
           | Some property => name_is "exports" property
           | None => false
           end)
          || name_is "exports" object
      | None => false
      end
  | None => false
  end.

Section transform.
Context {Host : Type}.
Variable eval_expression : node -> Host -> result (value * Host).
Variable extname : string -> string.
Variable cwd : string.
Variable options : option Options.

(** The [let] variables of [transform] (lines 50-57), and the host world. *)
Record state : Type := mkState {
  importIndex : nat;
  hasExports : bool;
  hasImports : bool;
  s : MagicString.t;
  ancestors : list node;
  host : Host
}.

Definition set_importIndex (v : nat) (st : state) : state :=
  mkState v (hasExports st) (hasImports st) (s st) (ancestors st) (host st).
Definition set_hasExports (v : bool) (st : state) : state :=
  mkState (importIndex st) v (hasImports st) (s st) (ancestors st) (host st).
Definition set_hasImports (v : bool) (st : state) : state :=
  mkState (importIndex st) (hasExports st) v (s st) (ancestors st) (host st).
Definition set_s (v : MagicString.t) (st : state) : state :=
  mkState (importIndex st) (hasExports st) (hasImports st) v (ancestors st) (host st).
Definition set_ancestors (v : list node) (st : state) : state :=
  mkState (importIndex st) (hasExports st) (hasImports st) (s st) v (host st).
Definition set_host (v : Host) (st : state) : state :=
  mkState (importIndex st) (hasExports st) (hasImports st) (s st) (ancestors st) v.

(** What a handler of [enter] leaves alone when it allocates no alias, and
    what it does when it allocates one. *)
Definition frame (st st' : state) : Prop :=
  ancestors st' = ancestors st /\
  importIndex st' = importIndex st /\
  hasImports st' = hasImports st /\
  MagicString.intro (s st') = MagicString.intro (s st) /\
  MagicString.outro (s st') = MagicString.outro (s st).

Definition one_import (importee : string) (st st' : state) : Prop :=
  ancestors st' = ancestors st /\
  importIndex st' = S (importIndex st) /\
  hasImports st' = true /\
  MagicString.intro (s st')
  = import_text (tempImportName_of (importIndex st)) importee
      +:+ MagicString.intro (s st) /\
  MagicString.outro (s st') = MagicString.outro (s st).

(** What holds of the state after the nodes [tr] were entered. *)
Definition walking (tr : list (node * option node)) (st : state) : Prop :=
  (exists importees,
      length importees = importIndex st /\
      MagicString.intro (s st) = imports_block importees) /\
  hasImports st = (0 <? importIndex st) /\
  MagicString.outro (s st) = "" /\
  hasExports st = existsb assigns_exports (map fst tr).


(** The rewrite of an included call (lines 129-135). *)
Definition rewrite_require (node arg : node) (st : state) : result state :=
  let importee := literal_to_string (node_value arg) in
  let tempImportName := tempImportName_of (importIndex st) in
  let st := set_importIndex (S (importIndex st)) st in
  let* s1 := MagicString.overwrite (node_start node) (node_end node)
               (interop_call_text tempImportName) (s st) in
  let s2 := MagicString.prepend (import_text tempImportName importee) s1 in
  Ok (set_hasImports true (set_s s2 st)).

(** [if (node.type === 'CallExpression') { ... }] (lines 63-139) *)
Definition enter_CallExpression (node : node) (st : state) : result state :=
  let* callee := req_child "callee" node in
  if name_is "require" callee then
    match children_at "arguments" node with
    | [arg] =>
        if has_type "Literal" arg then
          let* (include, h') :=
            shouldInclude eval_expression (ancestors st) node (host st) in
          let st := set_host h' st in
          if include then rewrite_require node arg st else Ok st
        else Ok st
    | _ => Ok st
    end
  else Ok st.

(** [if (node.type === 'AssignmentExpression') { ... }] (lines 141-160):
    [module.exports] is replaced from the start of [module] to the end of
    the property, and only the property written as an identifier counts. *)
Definition enter_AssignmentExpression (node : node) (st : state) : result state :=
  let* left_ := req_child "left" node in
  if has_type "MemberExpression" left_ then
    let* st :=
      match child "object" left_ with
      | Some object =>
          if name_is "module" object then
            match child "property" left_ with
            | Some property =>
                if name_is "exports" property then
                  let st := set_hasExports true st in
                  let* s1 := MagicString.overwrite (node_start object) (node_end property)
                               "__exports" (s st) in
                  Ok (set_s s1 st)
                else Ok st
            | None => Ok st
            end
          else Ok st
      | None => Ok st
      end in
    match child "object" left_ with
    | Some object =>
        if name_is "exports" object then
          let st := set_hasExports true st in
          let* s1 := MagicString.overwrite (node_start object) (node_end object)
                       "__exports" (s st) in
          Ok (set_s s1 st)
        else Ok st
    | None => Ok st
    end
  else Ok st.

(** [if (node.type === 'Identifier' && node.name === 'exports') { ... }]
    (lines 163-167): the identifier is replaced, [hasExports] is not set. *)
Definition enter_exports (nd : node) (parent : option node) (st : state)
  : result state :=
  match parent with
  | None => Err (TypeError "object")
  | Some parent =>
      let rewrite :=
        match child "object" parent with
        | None => true
        | Some object => same_node object nd
        end in
      if rewrite then
        let* s1 := MagicString.overwrite (node_start nd) (node_end nd)
                     "__exports" (s st) in
        Ok (set_s s1 st)
      else Ok st
  end.

(** The [enter] callback (lines 59-170). *)
Definition enter (nd : node) (parent : option node) (st : state) : result state :=
  let st := set_s (MagicString.addSourcemapLocation (node_end nd)
                     (MagicString.addSourcemapLocation (node_start nd) (s st))) st in
  let* st := if has_type "CallExpression" nd
             then enter_CallExpression nd st else Ok st in
  let* st := if has_type "AssignmentExpression" nd
             then enter_AssignmentExpression nd st else Ok st in
  let* st := if has_type "Identifier" nd && name_is "exports" nd
             then enter_exports nd parent st else Ok st in
  Ok (set_ancestors (ancestors st ++ [nd]) st).

(** The [leave] callback (lines 172-174). *)
Definition leave (nd : node) (parent : option node) (st : state) : result state :=
  Ok (set_ancestors (removelast (ancestors st)) st).

Definition initial_state (code : string) (h : Host) : state :=
  mkState 0 false false (MagicString.new code) [] h.

(** [if (hasImports) { s.prepend(helper) }] (lines 185-195) *)
Definition emit_interop (st : state) : state :=
  if hasImports st
  then set_s (MagicString.prepend interop_helper_text (s st)) st
  else st.

(** [if (hasExports) { ... }] (lines 204-236): [options.namedExports] is
    read without a test of [options]. *)
Definition emit_exports (ast : node) (id : string) (st : state) : result state :=
  if hasExports st then
    let s0 := MagicString.prepend exports_declaration_text (s st) in
    let s1 := MagicString.append default_export_text s0 in
    let namedExportFile := namedExportFile cwd id in
    match options with
    | None => Err (TypeError "namedExports")
    | Some o =>
        match
          match namedExports o with
          | Some table => table !! namedExportFile
          | None => None
          end
        with
        | Some names =>
            let* topLevelNames := filter_r (findTopLevelDeclaration ast) names in
            let otherNames :=
              List.filter (fun name => (indexOf name topLevelNames =? -1)%Z) names in
            let s2 := if 0 <? length topLevelNames
                      then MagicString.append (export_list_text topLevelNames) s1
                      else s1 in
            let s3 := if 0 <? length otherNames
                      then MagicString.append (export_var_text otherNames) s2
                      else s2 in
            Ok (set_s s3 st)
        | None => Ok (set_s s1 st)
        end
    end
  else Ok st.

Definition transform_state (code id : string) (ast : node) (h : Host) : result state :=
  let* st := walk enter leave ast (initial_state code h) in
  emit_exports ast id (emit_interop st).

(** [transform(code, id)] (lines 45-242) *)
Definition transform (code id : string) (ast : node) (h : Host)
  : result (option string) :=
  if negb (String.eqb (extname id) ".js") then Ok None
  else
    let* st := transform_state code id ast h in
    Ok (Some (MagicString.toString (s st))).

End transform.

Arguments state : clear implicits.

(** What this variant appends for the [names] asked for (lines 219-234). *)
Definition names_text (ast : node) (names : list string) : string :=
  let topLevelNames := List.filter (declared ast) names in
  let otherNames := List.filter (fun name => negb (declared ast name)) names in
  (if 0 <? length topLevelNames then export_list_text topLevelNames else "")
  +:+ (if 0 <? length otherNames then export_var_text otherNames else "").


(** What the assignment handler of this variant replaces (lines 151 and
    157): [module.exports] from the start of [module] to the end of the
    property. *)
Definition assignment_replacements (nd : node) : list span :=
  if has_type "AssignmentExpression" nd then
    match child "left" nd with
    | Some left_ =>
        if has_type "MemberExpression" left_ then
          match child "object" left_ with
          | Some object =>
              match child "property" left_ with
              | Some property =>
                  if name_is "module" object && name_is "exports" property
                  then [(node_start object, node_end property, "__exports")]
                  else []
              | None => []
              end
              ++ (if name_is "exports" object
                  then [(node_start object, node_end object, "__exports")]
                  else [])
          | None => []
          end
        else []
    | None => []
    end
  else [].

Definition replacements_at (verdict : node -> nat) (importIndex : nat)
    (nd : node) (parent : option node) (stack : list node) : list span :=
  (if included verdict stack nd then call_replacement importIndex nd else [])
    ++ assignment_replacements nd
    ++ mention_replacement nd parent.

Fixpoint replacements (verdict : node -> nat) (importIndex : nat)
    (tr : list (node * option node * list node)) : list span :=
  match tr with
  | [] => []
  | (nd, parent, stack) :: tr' =>
      replacements_at verdict importIndex nd parent stack
        ++ replacements verdict
             (importIndex + length (imported verdict nd stack)) tr'
  end.

End IndexJs.

(* ===================================================================== *)
(** ** A fragment of JavaScript evaluation *)
(* ===================================================================== *)

(** What [eval] does with the test of the regenerated [if] statement, for
    the expressions built from literals, global variables, assignments to
    global variables, binary operators and immediately-invoked parameterless
    functions whose bodies are blocks, loops, conditionals and expression
    statements.  The host world is the map of global variables; the code is
    not strict, so assigning to an unbound name creates a global variable.
    Everything else -- among it the comparisons that convert between
    types and the arithmetic operators -- is [Unmodelled]: JavaScript
    gives it a meaning, this fragment does not, and nothing is concluded
    from such an outcome.  Evaluation is bounded by a fuel, and
    [OutOfFuel] at every fuel is a computation that does not end. *)
Module JsEval.

Definition globals : Type := gmap string value.

(** The names bound around the [eval] call inside the plugin: they resolve
    to the plugin's own variables, not to globals. *)
Definition closure_names : list string :=
  [ "branch"; "parent"; "index"; "consequent"; "alternate"; "branchToCheck";
    "found"; "shouldInclude"; "node"; "code"; "id"; "importIndex";
    "isESModule"; "hasExports"; "hasImports"; "hasESDefaultExport";
    "exported"; "s"; "ast"; "ancestors"; "options"; "path"; "estree";
    "MagicString"; "astring"; "findTopLevelDeclaration"; "findNodeInAst";
    "exportNames"; "module"; "exports"; "require"; "__filename"; "__dirname";
    "arguments"; "this" ].

Definition is_closure_name (x : string) : bool :=
  existsb (String.eqb x) closure_names.

(** Integers that a number holds exactly. *)
Definition safe_integer (z : Z) : bool := (Z.abs z <=? 2 ^ 53)%Z.

Definition literal_value (v : option literal) : result value :=
  match v with
  | Some (LString s) => Ok (VStr s)
  | Some (LNumber z) =>
      if safe_integer z then Ok (VNum z) else Err (Unmodelled "number")
  | Some (LBoolean b) => Ok (VBool b)
  | Some LNull => Ok VNull
  | Some (LRegExp _ _) => Err (Unmodelled "regular expression")
  | Some (LFraction _ _) | Some LInfinity | Some (LBigInt _) =>
      Err (Unmodelled "number")
  | None => Err (Unmodelled "literal")
  end.

(** [a === b] on primitives. *)
Definition strict_equal (a b : value) : result bool :=
  match a, b with
  | VObject _, _ | _, VObject _ => Err (Unmodelled "object identity")
  | VUndefined, VUndefined => Ok true
  | VNull, VNull => Ok true
  | VBool x, VBool y => Ok (Bool.eqb x y)
  | VNum x, VNum y => Ok (x =? y)%Z
  | VStr x, VStr y => Ok (String.eqb x y)
  | _, _ => Ok false
  end.

(** [a == b]: as [===] on one type, [null == undefined]; the comparisons
    that convert between numbers, strings and booleans are not modelled. *)
Definition loose_equal (a b : value) : result bool :=
  match a, b with
  | VObject _, _ | _, VObject _ => Err (Unmodelled "object identity")
  | (VUndefined | VNull), (VUndefined | VNull) => Ok true
  | (VUndefined | VNull), _ | _, (VUndefined | VNull) => Ok false
  | VBool x, VBool y => Ok (Bool.eqb x y)
  | VNum x, VNum y => Ok (x =? y)%Z
  | VStr x, VStr y => Ok (String.eqb x y)
  | _, _ => Err (Unmodelled "conversion")
  end.

Definition compare_numbers (f : Z -> Z -> bool) (a b : value) : result bool :=
  match a, b with
  | VNum x, VNum y => Ok (f x y)
  | _, _ => Err (Unmodelled "conversion")
  end.

Definition op_is (op : option string) (x : string) : bool :=
  match op with
  | Some y => String.eqb y x
  | None => false
  end.

Definition truth (r : result bool) : result value :=
  let* b := r in Ok (VBool b).

Definition negated (r : result bool) : result bool :=
  let* b := r in Ok (negb b).

Definition binop (op : option string) (a b : value) : result value :=
  if op_is op "===" then truth (strict_equal a b)
  else if op_is op "!==" then truth (negated (strict_equal a b))
  else if op_is op "==" then truth (loose_equal a b)
  else if op_is op "!=" then truth (negated (loose_equal a b))
  else if op_is op "<" then truth (compare_numbers Z.ltb a b)
  else if op_is op "<=" then truth (compare_numbers Z.leb a b)
  else if op_is op ">" then truth (compare_numbers Z.gtb a b)
  else if op_is op ">=" then truth (compare_numbers Z.geb a b)
  else Err (Unmodelled "operator").

(** How a statement completes. *)
Inductive completion : Type :=
  | Normal
  | Return (v : value).

Fixpoint evaluate (fuel : nat) (e : node) (g : globals) {struct fuel}
  : result (value * globals) :=
  match fuel with
  | 0 => Err OutOfFuel
  | S fuel' =>
      if has_type "Literal" e then
        let* v := literal_value (node_value e) in Ok (v, g)
      else if has_type "Identifier" e then
        match node_name e with
        | Some x =>
            if is_closure_name x then Err (Unmodelled "closure variable")
            else if String.eqb x "undefined" then Ok (VUndefined, g)
            else match g !! x with
                 | Some v => Ok (v, g)
                 | None => Err (ReferenceError x)
                 end
        | None => Err (Unmodelled "identifier")
        end
      else if has_type "BinaryExpression" e then
        match child "left" e, child "right" e with
        | Some l, Some r =>
            let* (a, g1) := evaluate fuel' l g in
            let* (b, g2) := evaluate fuel' r g1 in
            let* v := binop (node_operator e) a b in
            Ok (v, g2)
        | _, _ => Err (Unmodelled "binary expression")
        end
      else if has_type "AssignmentExpression" e then
        match op_is (node_operator e) "=", child "left" e, child "right" e with
        | true, Some l, Some r =>
            match has_type "Identifier" l, node_name l with
            | true, Some x =>
                if is_closure_name x || String.eqb x "undefined"
                then Err (Unmodelled "assignment target")
                else
                  let* (v, g1) := evaluate fuel' r g in
                  Ok (v, <[x := v]> g1)
            | _, _ => Err (Unmodelled "assignment target")
            end
        | _, _, _ => Err (Unmodelled "assignment")
        end
      else if has_type "CallExpression" e then
        match child "callee" e, children_at "arguments" e with
        | Some f, [] =>
            if (has_type "FunctionExpression" f || has_type "ArrowFunctionExpression" f)
               && (length (children_at "params" f) =? 0) then
              match child "body" f with
              | Some b =>
                  if has_type "BlockStatement" b then
                    let* (c, g1) := execute fuel' b g in
                    Ok (match c with Normal => VUndefined | Return v => v end, g1)
                  else if has_type "ArrowFunctionExpression" f then
                    evaluate fuel' b g
                  else Err (Unmodelled "function body")
              | None => Err (Unmodelled "function body")
              end
            else Err (Unmodelled "call")
        | _, _ => Err (Unmodelled "call")
        end
      else Err (Unmodelled "expression")
  end

with execute (fuel : nat) (st : node) (g : globals) {struct fuel}
  : result (completion * globals) :=
  match fuel with
  | 0 => Err OutOfFuel
  | S fuel' =>
      if has_type "EmptyStatement" st then Ok (Normal, g)
      else if has_type "ExpressionStatement" st then
        match child "expression" st with
        | Some e => let* (_, g1) := evaluate fuel' e g in Ok (Normal, g1)
        | None => Err (Unmodelled "statement")
        end
      else if has_type "BlockStatement" st then
        (fix sequence (body : list node) (g : globals) : result (completion * globals) :=
           match body with
           | [] => Ok (Normal, g)
           | b :: body' =>
               let* (c, g1) := execute fuel' b g in
               match c with
               | Normal => sequence body' g1
               | Return v => Ok (Return v, g1)
               end
           end) (children_at "body" st) g
      else if has_type "ReturnStatement" st then
        match child "argument" st with
        | Some e => let* (v, g1) := evaluate fuel' e g in Ok (Return v, g1)
        | None => Ok (Return VUndefined, g)
        end
      else if has_type "IfStatement" st then
        match child "test" st with
        | Some t =>
            let* (v, g1) := evaluate fuel' t g in
            if truthy v then
              match child "consequent" st with
              | Some c => execute fuel' c g1
              | None => Err (Unmodelled "statement")
              end
            else
              match child "alternate" st with
              | Some a => execute fuel' a g1
              | None => Ok (Normal, g1)
              end
        | None => Err (Unmodelled "statement")
        end
      else if has_type "WhileStatement" st then
        match child "test" st, child "body" st with
        | Some t, Some b =>
            let* (v, g1) := evaluate fuel' t g in
            if truthy v then
              let* (c, g2) := execute fuel' b g1 in
              match c with
              | Normal => execute fuel' st g2
              | Return v => Ok (Return v, g2)
              end
            else Ok (Normal, g1)
        | _, _ => Err (Unmodelled "statement")
        end
      else Err (Unmodelled "statement")
  end.

End JsEval.

(** What the comparison of two literals of one type gives: [===], [==],
    [!==] and [!=] on two numbers, two strings, two booleans or [null]
    twice, and [<], [<=], [>], [>=] on two numbers. *)
Definition compare_literals (op : option string) (a b : literal) : option bool :=
  let equality (same : bool) :=
    if JsEval.op_is op "===" || JsEval.op_is op "==" then Some same
    else if JsEval.op_is op "!==" || JsEval.op_is op "!=" then Some (negb same)
    else None in
  match a, b with
  | LNumber x, LNumber y =>
      if JsEval.safe_integer x && JsEval.safe_integer y then
        if JsEval.op_is op "<" then Some (x <? y)%Z
        else if JsEval.op_is op "<=" then Some (x <=? y)%Z
        else if JsEval.op_is op ">" then Some (x >? y)%Z
        else if JsEval.op_is op ">=" then Some (x >=? y)%Z
        else equality (x =? y)%Z
      else None
  | LString x, LString y => equality (String.eqb x y)
  | LBoolean x, LBoolean y => equality (Bool.eqb x y)
  | LNull, LNull => equality true
  | _, _ => None
  end.

(** A test that compares two literals of one type, and whether the
    comparison holds. *)
Definition literal_comparison (t : node) : option bool :=
  if has_type "BinaryExpression" t then
    match child "left" t, child "right" t with
    | Some l, Some r =>
        if has_type "Literal" l && has_type "Literal" r then
          match node_value l, node_value r with
          | Some a, Some b => compare_literals (node_operator t) a b
          | _, _ => None
          end
        else None
    | _, _ => None
    end
  else None.

(** The text given to [eval] is run where [eval] is called, inside the
    plugin: an identifier of the test that bears the name of a variable of
    the plugin, or the name [eval], reaches into the plugin itself.
    [names_plugin_variable] tells whether a test has such an identifier;
    what depends on an evaluation is stated for the tests that have
    none. *)
Definition names_plugin_variable (t : node) : bool :=
  existsb (fun m =>
             has_type "Identifier" m &&
             match node_name m with
             | Some x => JsEval.is_closure_name x || String.eqb x "eval"
             | None => false
             end)
          (nodes t).

(** [path.extname] on POSIX paths. *)
Module Path.

Fixpoint drop_slashes (l : list ascii) : list ascii :=
  match l with
  | c :: l' => if Ascii.eqb c "/" then drop_slashes l' else l
  | [] => []
  end.

Fixpoint until_slash (l : list ascii) : list ascii :=
  match l with
  | c :: l' => if Ascii.eqb c "/" then [] else c :: until_slash l'
  | [] => []
  end.

(** On the reversed base name: the reversed extension without its dot, and
    what precedes the dot. *)
Fixpoint at_last_dot (l : list ascii) : option (list ascii * list ascii) :=
  match l with
  | [] => None
  | c :: l' =>
      if Ascii.eqb c "." then Some ([], l')
      else match at_last_dot l' with
           | Some (e, rest) => Some (c :: e, rest)
           | None => None
           end
  end.

Definition extname (p : string) : string :=
  let base := until_slash (drop_slashes (rev (list_ascii_of_string p))) in
  match at_last_dot base with
  | None => ""
  | Some (e, rest) =>
      match e, rest with
      | _, [] => ""
      | [], ["."%char] => ""
      | _, _ => string_of_list_ascii ("."%char :: rev e)
      end
  end.

End Path.

(* ===================================================================== *)
(** ** Building syntax trees *)
(* ===================================================================== *)

(** The node kinds used by the example units, with the child keys in the
    order the parser writes them.  Every builder takes the identity of the
    node and its [start] and [end] offsets first. *)
Module Tree.

Definition plain (type : string) (r s e : nat) (fields : list (string * node)) : node :=
  Node (Attrs r type s e None None None) fields.

Definition keyed (k : string) (l : list node) : list (string * node) :=
  map (fun c => (k, c)) l.

Definition optional (k : string) (o : option node) : list (string * node) :=
  match o with Some c => [(k, c)] | None => [] end.

Definition Identifier (r s e : nat) (name : string) : node :=
  Node (Attrs r "Identifier" s e (Some name) None None) [].

Definition Literal (r s e : nat) (v : literal) : node :=
  Node (Attrs r "Literal" s e None (Some v) None) [].

Definition Program (r s e : nat) (body : list node) : node :=
  plain "Program" r s e (keyed "body" body).

Definition ExpressionStatement (r s e : nat) (expression : node) : node :=
  plain "ExpressionStatement" r s e [("expression", expression)].

Definition BlockStatement (r s e : nat) (body : list node) : node :=
  plain "BlockStatement" r s e (keyed "body" body).

Definition IfStatement (r s e : nat) (test consequent : node) (alternate : option node)
  : node :=
  plain "IfStatement" r s e
    ([("test", test); ("consequent", consequent)] ++ optional "alternate" alternate).

Definition WhileStatement (r s e : nat) (test body : node) : node :=
  plain "WhileStatement" r s e [("test", test); ("body", body)].

Definition BinaryExpression (r s e : nat) (operator : string) (left_ right_ : node)
  : node :=
  Node (Attrs r "BinaryExpression" s e None None (Some operator))
       [("left", left_); ("right", right_)].

Definition AssignmentExpression (r s e : nat) (operator : string) (left_ right_ : node)
  : node :=
  Node (Attrs r "AssignmentExpression" s e None None (Some operator))
       [("left", left_); ("right", right_)].

Definition MemberExpression (r s e : nat) (object property : node) : node :=
  plain "MemberExpression" r s e [("object", object); ("property", property)].

Definition CallExpression (r s e : nat) (callee : node) (arguments : list node) : node :=
  plain "CallExpression" r s e (("callee", callee) :: keyed "arguments" arguments).

Definition FunctionExpression (r s e : nat) (params : list node) (body : node) : node :=
  plain "FunctionExpression" r s e (keyed "params" params ++ [("body", body)]).

Definition VariableDeclaration (r s e : nat) (declarations : list node) : node :=
  plain "VariableDeclaration" r s e (keyed "declarations" declarations).

Definition VariableDeclarator (r s e : nat) (id : node) (init : option node) : node :=
  plain "VariableDeclarator" r s e (("id", id) :: optional "init" init).

Definition FunctionDeclaration (r s e : nat) (id : node) (params : list node) (body : node)
  : node :=
  plain "FunctionDeclaration" r s e
    (("id", id) :: keyed "params" params ++ [("body", body)]).

Definition ClassDeclaration (r s e : nat) (id body : node) : node :=
  plain "ClassDeclaration" r s e [("id", id); ("body", body)].

Definition ClassBody (r s e : nat) (body : list node) : node :=
  plain "ClassBody" r s e (keyed "body" body).

Definition ObjectExpression (r s e : nat) (properties : list node) : node :=
  plain "ObjectExpression" r s e (keyed "properties" properties).

Definition Property (r s e : nat) (key value : node) : node :=
  plain "Property" r s e [("key", key); ("value", value)].

End Tree.

(* ===================================================================== *)
(** ** Example units *)
(* ===================================================================== *)

Module Examples.
Import Tree.

(** The unit of the test [should include if branch passes - else]. *)
Definition if_else_code : string :=
  "if (1 == 2) { module.exports = require('./dep1.js'); } else { module.exports = require('./dep2.js'); }".

Definition if_else_ast : node :=
  Program 0 0 102 [
    (IfStatement 1 0 102
      (BinaryExpression 2 4 10 "==" (Literal 3 4 5 (LNumber 1)) (Literal 4 9 10 (LNumber 2)))
      (BlockStatement 5 12 54 [
        (ExpressionStatement 6 14 52
          (AssignmentExpression 7 14 51 "="
            (MemberExpression 8 14 28 (Identifier 9 14 20 "module") (Identifier 10 21 28 "exports"))
            (CallExpression 11 31 51 (Identifier 12 31 38 "require") [(Literal 13 39 50 (LString "./dep1.js"))])))]) (Some
      (BlockStatement 14 60 102 [
        (ExpressionStatement 15 62 100
          (AssignmentExpression 16 62 99 "="
            (MemberExpression 17 62 76 (Identifier 18 62 68 "module") (Identifier 19 69 76 "exports"))
            (CallExpression 20 79 99 (Identifier 21 79 86 "require") [(Literal 22 87 98 (LString "./dep2.js"))])))])))].

(** The unit of the test [should include if branch passes]. *)
Definition two_ifs_code : string :=
  "if (1 == 1) { module.exports = require('./dep1.js'); } if (1 == 2) { module.exports = require('./dep2.js'); }".

Definition two_ifs_ast : node :=
  Program 0 0 109 [
    (IfStatement 1 0 54
      (BinaryExpression 2 4 10 "==" (Literal 3 4 5 (LNumber 1)) (Literal 4 9 10 (LNumber 1)))
      (BlockStatement 5 12 54 [
        (ExpressionStatement 6 14 52
          (AssignmentExpression 7 14 51 "="
            (MemberExpression 8 14 28 (Identifier 9 14 20 "module") (Identifier 10 21 28 "exports"))
            (CallExpression 11 31 51 (Identifier 12 31 38 "require") [(Literal 13 39 50 (LString "./dep1.js"))])))]) None);
    (IfStatement 14 55 109
      (BinaryExpression 15 59 65 "==" (Literal 16 59 60 (LNumber 1)) (Literal 17 64 65 (LNumber 2)))
      (BlockStatement 18 67 109 [
        (ExpressionStatement 19 69 107
          (AssignmentExpression 20 69 106 "="
            (MemberExpression 21 69 83 (Identifier 22 69 75 "module") (Identifier 23 76 83 "exports"))
            (CallExpression 24 86 106 (Identifier 25 86 93 "require") [(Literal 26 94 105 (LString "./dep2.js"))])))]) None)].

(** A call guarded by two nested comparisons: the outer one holds, the inner one does not. *)
Definition nested_code : string :=
  "if (1 == 1) { if (1 == 2) { require('./a'); } }".

Definition nested_ast : node :=
  Program 0 0 47 [
    (IfStatement 1 0 47
      (BinaryExpression 2 4 10 "==" (Literal 3 4 5 (LNumber 1)) (Literal 4 9 10 (LNumber 1)))
      (BlockStatement 5 12 47 [
        (IfStatement 6 14 45
          (BinaryExpression 7 18 24 "==" (Literal 8 18 19 (LNumber 1)) (Literal 9 23 24 (LNumber 2)))
          (BlockStatement 10 26 45 [
            (ExpressionStatement 11 28 43
              (CallExpression 12 28 42 (Identifier 13 28 35 "require") [(Literal 14 36 41 (LString "./a"))]))]) None)]) None)].

(** A call whose nearest enclosing conditional tests a plain identifier, inside a comparison that does not hold. *)
Definition unanalyzable_inner_code : string :=
  "if (1 == 2) { if (x) { require('./a'); } }".

Definition unanalyzable_inner_ast : node :=
  Program 0 0 42 [
    (IfStatement 1 0 42
      (BinaryExpression 2 4 10 "==" (Literal 3 4 5 (LNumber 1)) (Literal 4 9 10 (LNumber 2)))
      (BlockStatement 5 12 42 [
        (IfStatement 6 14 40 (Identifier 7 18 19 "x")
          (BlockStatement 8 21 40 [
            (ExpressionStatement 9 23 38
              (CallExpression 10 23 37 (Identifier 11 23 30 "require") [(Literal 12 31 36 (LString "./a"))]))]) None)]) None)].

(** A call under a conditional whose test is a plain identifier. *)
Definition unanalyzable_code : string :=
  "if (x) { require('./a'); }".

Definition unanalyzable_ast : node :=
  Program 0 0 26 [
    (IfStatement 1 0 26 (Identifier 2 4 5 "x")
      (BlockStatement 3 7 26 [
        (ExpressionStatement 4 9 24
          (CallExpression 5 9 23 (Identifier 6 9 16 "require") [(Literal 7 17 22 (LString "./a"))]))]) None)].

(** A call of [require] on a number literal. *)
Definition require_number_code : string :=
  "require(123);".

Definition require_number_ast : node :=
  Program 0 0 13 [
    (ExpressionStatement 1 0 13
      (CallExpression 2 0 12 (Identifier 3 0 7 "require") [(Literal 4 8 11 (LNumber 123))]))].

(** A call of [require] on a variable (test [should not do anything with require calls without literals]). *)
Definition require_variable_code : string :=
  "require(somevar);".

Definition require_variable_ast : node :=
  Program 0 0 17 [
    (ExpressionStatement 1 0 17
      (CallExpression 2 0 16 (Identifier 3 0 7 "require") [(Identifier 4 8 15 "somevar")]))].

(** A call of [require] on the identifier [exports]. *)
Definition require_exports_code : string :=
  "require(exports);".

Definition require_exports_ast : node :=
  Program 0 0 17 [
    (ExpressionStatement 1 0 17
      (CallExpression 2 0 16 (Identifier 3 0 7 "require") [(Identifier 4 8 15 "exports")]))].

(** A call of [require] with two arguments. *)
Definition require_two_code : string :=
  "require('./a', './b');".

Definition require_two_ast : node :=
  Program 0 0 22 [
    (ExpressionStatement 1 0 22
      (CallExpression 2 0 21 (Identifier 3 0 7 "require") [(Literal 4 8 13 (LString "./a")); (Literal 5 15 20 (LString "./b"))]))].

(** A comparison whose left operand calls a function that loops forever. *)
Definition looping_test_code : string :=
  "if ((function () { while (true) {} })() == 1) { require('./a'); }".

Definition looping_test_ast : node :=
  Program 0 0 65 [
    (IfStatement 1 0 65
      (BinaryExpression 2 4 44 "=="
        (CallExpression 3 4 39
          (FunctionExpression 4 5 36 []
            (BlockStatement 5 17 36 [
              (WhileStatement 6 19 34 (Literal 7 26 30 (LBoolean true)) (BlockStatement 8 32 34 []))])) []) (Literal 9 43 44 (LNumber 1)))
      (BlockStatement 10 46 65 [
        (ExpressionStatement 11 48 63
          (CallExpression 12 48 62 (Identifier 13 48 55 "require") [(Literal 14 56 61 (LString "./a"))]))]) None)].

(** A comparison whose left operand assigns to a global variable. *)
Definition leaking_test_code : string :=
  "if ((leak = 1) == 1) { require('./a'); }".

Definition leaking_test_ast : node :=
  Program 0 0 40 [
    (IfStatement 1 0 40
      (BinaryExpression 2 4 19 "=="
        (AssignmentExpression 3 5 13 "=" (Identifier 4 5 9 "leak") (Literal 5 12 13 (LNumber 1))) (Literal 6 18 19 (LNumber 1)))
      (BlockStatement 7 21 40 [
        (ExpressionStatement 8 23 38
          (CallExpression 9 23 37 (Identifier 10 23 30 "require") [(Literal 11 31 36 (LString "./a"))]))]) None)].

(** The unit of the test [Import CJS module]. *)
Definition import_cjs_code : string :=
  "var dep = require('./dep.js'); module.exports = dep;".

Definition import_cjs_ast : node :=
  Program 0 0 52 [
    (VariableDeclaration 1 0 30 [
      (VariableDeclarator 2 4 29 (Identifier 3 4 7 "dep") (Some
        (CallExpression 4 10 29 (Identifier 5 10 17 "require") [(Literal 6 18 28 (LString "./dep.js"))])))]);
    (ExpressionStatement 7 31 52
      (AssignmentExpression 8 31 51 "="
        (MemberExpression 9 31 45 (Identifier 10 31 37 "module") (Identifier 11 38 45 "exports")) (Identifier 12 48 51 "dep")))].

(** A transpiled ES module with a default export and a named export written twice. *)
Definition es_module_code : string :=
  "exports['__esModule'] = true; exports.default = 123; exports.message = 'hi'; exports.message = 'ho';".

Definition es_module_ast : node :=
  Program 0 0 100 [
    (ExpressionStatement 1 0 29
      (AssignmentExpression 2 0 28 "="
        (MemberExpression 3 0 21 (Identifier 4 0 7 "exports") (Literal 5 8 20 (LString "__esModule"))) (Literal 6 24 28 (LBoolean true))));
    (ExpressionStatement 7 30 52
      (AssignmentExpression 8 30 51 "="
        (MemberExpression 9 30 45 (Identifier 10 30 37 "exports") (Identifier 11 38 45 "default")) (Literal 12 48 51 (LNumber 123))));
    (ExpressionStatement 13 53 76
      (AssignmentExpression 14 53 75 "="
        (MemberExpression 15 53 68 (Identifier 16 53 60 "exports") (Identifier 17 61 68 "message")) (Literal 18 71 75 (LString "hi"))));
    (ExpressionStatement 19 77 100
      (AssignmentExpression 20 77 99 "="
        (MemberExpression 21 77 92 (Identifier 22 77 84 "exports") (Identifier 23 85 92 "message")) (Literal 24 95 99 (LString "ho"))))].

(** A unit with a top-level variable, class and function. *)
Definition top_level_code : string :=
  "const message = 'hello world'; class Message {} function greet () {} module.exports = { message: message };".

Definition top_level_ast : node :=
  Program 0 0 107 [
    (VariableDeclaration 1 0 30 [
      (VariableDeclarator 2 6 29 (Identifier 3 6 13 "message") (Some (Literal 4 16 29 (LString "hello world"))))]);
    (ClassDeclaration 5 31 47 (Identifier 6 37 44 "Message") (ClassBody 7 45 47 []));
    (FunctionDeclaration 8 48 68 (Identifier 9 57 62 "greet") [] (BlockStatement 10 66 68 []));
    (ExpressionStatement 11 69 107
      (AssignmentExpression 12 69 106 "="
        (MemberExpression 13 69 83 (Identifier 14 69 75 "module") (Identifier 15 76 83 "exports"))
        (ObjectExpression 16 86 106 [
          (Property 17 88 104 (Identifier 18 88 95 "message") (Identifier 19 97 104 "message"))])))].

(** A unit that exports nothing. *)
Definition no_exports_code : string :=
  "var x = 1;".

Definition no_exports_ast : node :=
  Program 0 0 10 [
    (VariableDeclaration 1 0 10 [
      (VariableDeclarator 2 4 9 (Identifier 3 4 5 "x") (Some (Literal 4 8 9 (LNumber 1))))])].

(** A unit with two imports and a named export. *)
Definition sum_code : string :=
  "var a = require('./a'); var b = require('./b'); exports.sum = a + b;".

Definition sum_ast : node :=
  Program 0 0 68 [
    (VariableDeclaration 1 0 23 [
      (VariableDeclarator 2 4 22 (Identifier 3 4 5 "a") (Some
        (CallExpression 4 8 22 (Identifier 5 8 15 "require") [(Literal 6 16 21 (LString "./a"))])))]);
    (VariableDeclaration 7 24 47 [
      (VariableDeclarator 8 28 46 (Identifier 9 28 29 "b") (Some
        (CallExpression 10 32 46 (Identifier 11 32 39 "require") [(Literal 12 40 45 (LString "./b"))])))]);
    (ExpressionStatement 13 48 68
      (AssignmentExpression 14 48 67 "="
        (MemberExpression 15 48 59 (Identifier 16 48 55 "exports") (Identifier 17 56 59 "sum"))
        (BinaryExpression 18 62 67 "+" (Identifier 19 62 63 "a") (Identifier 20 66 67 "b"))))].


(** A chain of conditionals: none of the two comparisons holds. *)
Definition else_if_code : string :=
  "if (1 == 2) { require('./a'); } else if (1 == 2) { require('./b'); } else { require('./c'); }".

Definition else_if_ast : node :=
  Program 0 0 93 [
    (IfStatement 1 0 93
      (BinaryExpression 2 4 10 "==" (Literal 3 4 5 (LNumber 1)) (Literal 4 9 10 (LNumber 2)))
      (BlockStatement 5 12 31 [
        (ExpressionStatement 6 14 29
          (CallExpression 7 14 28 (Identifier 8 14 21 "require") [(Literal 9 22 27 (LString "./a"))]))]) (Some
      (IfStatement 10 37 93
        (BinaryExpression 11 41 47 "==" (Literal 12 41 42 (LNumber 1)) (Literal 13 46 47 (LNumber 2)))
        (BlockStatement 14 49 68 [
          (ExpressionStatement 15 51 66
            (CallExpression 16 51 65 (Identifier 17 51 58 "require") [(Literal 18 59 64 (LString "./b"))]))]) (Some
        (BlockStatement 19 74 93 [
          (ExpressionStatement 20 76 91
            (CallExpression 21 76 90 (Identifier 22 76 83 "require") [(Literal 23 84 89 (LString "./c"))]))])))))].

(** A call of [require] on a number literal of 22 digits. *)
Definition require_large_number_code : string :=
  "require(1e21);".

Definition require_large_number_ast : node :=
  Program 0 0 14 [
    (ExpressionStatement 1 0 14
      (CallExpression 2 0 13 (Identifier 3 0 7 "require") [(Literal 4 8 12 (LNumber (10 ^ 21)))]))].

(** The node object of a tree with the given identity. *)
Definition at_ref (t : node) (r : nat) : node :=
  default t (find (fun m => node_ref m =? r) (nodes t)).

(** The parts of the unit with the looping test: the conditional, its test
    and the loop inside the function that the test calls. *)
Definition looping_if : node := Eval vm_compute in at_ref looping_test_ast 1.
Definition looping_test : node := Eval vm_compute in at_ref looping_test_ast 2.
Definition looping_while : node := Eval vm_compute in at_ref looping_test_ast 6.

(** The plugin run on a unit, with the evaluation fragment as [eval],
    POSIX paths and the working directory [/project]. *)
Abbreviation run fuel options code id ast g :=
  (transform (JsEval.evaluate fuel) Path.extname "/project" options code id ast g).

Abbreviation run_state fuel options code id ast g :=
  (transform_state (JsEval.evaluate fuel) "/project" options code id ast g).

End Examples.

(* ===================================================================== *)
(** * Properties *)
(* ===================================================================== *)

Lemma bind_Ok_inv {A B} (m : result A) (k : A -> result B) (b : B) :
  bind m k = Ok b -> exists a, m = Ok a /\ k a = Ok b.
Proof. destruct m as [a|e]; simpl; intros H; [eauto | discriminate]. Qed.

(* ===================================================================== *)
(** ** Facts about the walker *)
(* ===================================================================== *)

Lemma nodes_self n : In n (nodes n).
Proof. destruct n; simpl; auto. Qed.

Lemma fields_at_In k c fs : In c (fields_at k fs) -> In (k, c) fs.
Proof.
  induction fs as [|[k' c'] fs IH]; simpl; [tauto|].
  destruct (String.eqb k k') eqn:E.
  - apply String.eqb_eq in E; subst k'. intros [->|H]; auto.
  - auto.
Qed.

Lemma child_In k n c : child k n = Some c -> In (k, c) (node_fields n).
Proof.
  unfold child, children_at. intros H. apply fields_at_In.
  destruct (fields_at k (node_fields n)); simpl in H; [discriminate|].
  injection H as ->. simpl; auto.
Qed.

(** The nodes of a child are nodes of the parent. *)
Lemma nodes_field k c n m : In (k, c) (node_fields n) -> In m (nodes c) -> In m (nodes n).
Proof.
  destruct n as [a fs]; simpl. intros Hc Hm. right.
  apply in_flat_map. exists (k, c); auto.
Qed.

Lemma nodes_child k n c m : child k n = Some c -> In m (nodes c) -> In m (nodes n).
Proof. intros H. apply nodes_field with k. now apply child_In. Qed.

Section walker_facts.
Context {St : Type}.
Variables enter leave : node -> option node -> St -> result St.

Lemma visit_eq a fs parent st :
  visit enter leave (Node a fs) parent st =
  let* st1 := enter (Node a fs) parent st in
  let* st2 := visit_children (fun c => visit enter leave c (Some (Node a fs))) fs st1 in
  leave (Node a fs) parent st2.
Proof. reflexivity. Qed.

(** An invariant indexed by the stack of nodes entered and not yet left:
    if [enter] extends it and [leave] restores it, the walk of a subtree
    keeps it. *)
Variable I : list node -> St -> Prop.
Hypothesis enter_ok : forall path n parent st st',
  I path st -> enter n parent st = Ok st' -> I (path ++ [n]) st'.
Hypothesis leave_ok : forall path n parent st st',
  I (path ++ [n]) st -> leave n parent st = Ok st' -> I path st'.

Lemma visit_children_invariant (f : node -> St -> result St) (J : St -> Prop) fs :
  Forall (fun kc => forall st st', J st -> f (snd kc) st = Ok st' -> J st') fs ->
  forall st st', J st -> visit_children f fs st = Ok st' -> J st'.
Proof.
  induction 1 as [|[k c] fs' Hc _ IHfs]; intros st st' Hst Hv; simpl in Hv.
  - now injection Hv as <-.
  - apply bind_Ok_inv in Hv as (st1 & Hv1 & Hv2).
    apply (IHfs st1); [|assumption]. now apply (Hc st).
Qed.

Lemma visit_invariant n : forall path parent st st',
  I path st -> visit enter leave n parent st = Ok st' -> I path st'.
Proof.
  induction n as [a fs IH] using node_ind'. intros path parent st st' Hst Hv.
  rewrite visit_eq in Hv.
  apply bind_Ok_inv in Hv as (st1 & He & Hv).
  apply bind_Ok_inv in Hv as (st2 & Hc & Hl).
  apply enter_ok with (path := path) in He; [|assumption].
  apply leave_ok with (path := path) in Hl; [assumption|].
  revert Hc. apply visit_children_invariant; [|assumption].
  eapply Forall_impl; [exact IH|]. intros [k c] Hkc s1 s2. apply Hkc.
Qed.
End walker_facts.

(** [findNodeInAst] finds the target exactly when a node of the tree is the
    same object. *)
Lemma find_visit_children target (f : node -> bool -> result bool) fs :
  Forall (fun kc => forall found,
            f (snd kc) found
            = Ok (found || existsb (fun m => same_node m target) (nodes (snd kc)))) fs ->
  forall found,
    visit_children f fs found
    = Ok (found || existsb (fun m => same_node m target)
                           (flat_map (fun kc => nodes (snd kc)) fs)).
Proof.
  induction 1 as [|[k c] fs' Hc _ IHfs]; intros found; simpl.
  - now rewrite orb_false_r.
  - rewrite Hc. cbn [bind]. rewrite IHfs.
    now rewrite existsb_app, orb_assoc.
Qed.

Lemma find_visit target n : forall parent (found : bool),
  visit (fun node _ found => Ok (if same_node node target then true else found))
        no_leave n parent found
  = Ok (found || existsb (fun m => same_node m target) (nodes n)).
Proof.
  induction n as [a fs IH] using node_ind'. intros parent found.
  rewrite visit_eq. cbn [bind nodes existsb].
  rewrite (find_visit_children target _ fs).
  - cbn [bind]. unfold no_leave.
    destruct (same_node (Node a fs) target), found; reflexivity.
  - eapply Forall_impl; [exact IH|]. intros [k c] Hkc found'. apply Hkc.
Qed.

Lemma findNodeInAst_spec t target :
  findNodeInAst (Some t) target = true <->
  exists m, In m (nodes t) /\ node_ref m = node_ref target.
Proof.
  unfold findNodeInAst, walk. rewrite find_visit. cbn [orb].
  rewrite existsb_exists. unfold same_node.
  split; intros (m & Hm & E); exists m; split; auto.
  - now apply Nat.eqb_eq.
  - now apply Nat.eqb_eq.
Qed.

(** In a tree whose node objects are pairwise distinct, the search finds
    the target exactly in the subtrees that contain it. *)
Lemma same_ref_same_node t a b :
  distinct_nodes t -> In a (nodes t) -> In b (nodes t) ->
  node_ref a = node_ref b -> a = b.
Proof.
  unfold distinct_nodes. generalize (nodes t) as l.
  induction l as [|x l IH]; simpl; [tauto|].
  rewrite NoDup_cons, list_elem_of_In.
  intros [Hx Hnd] [->|Ha] [->|Hb] E; auto.
  - exfalso. apply Hx. rewrite E. now apply in_map.
  - exfalso. apply Hx. rewrite <- E. now apply in_map.
Qed.

Lemma findNodeInAst_within root t target :
  distinct_nodes root -> In target (nodes root) ->
  (forall m, In m (nodes t) -> In m (nodes root)) ->
  findNodeInAst (Some t) target = true <-> In target (nodes t).
Proof.
  intros Hd Ht Hsub. rewrite findNodeInAst_spec. split.
  - intros (m & Hm & E).
    assert (m = target) by (eapply same_ref_same_node; eauto). now subst.
  - intros H. exists target; auto.
Qed.

(* ===================================================================== *)
(** ** The [enter] callback on calls *)
(* ===================================================================== *)

Lemma has_type_other t t' nd :
  has_type t nd = true -> t <> t' -> has_type t' nd = false.
Proof.
  unfold has_type. intros H Hne. apply String.eqb_eq in H.
  apply String.eqb_neq. congruence.
Qed.

Section enter_facts.
Context {Host : Type}.
Variable eval_expression : node -> Host -> result (value * Host).


(** On a call only the first handler of [enter] runs. *)
Lemma enter_call nd parent (st : state Host) :
  has_type "CallExpression" nd = true ->
  enter eval_expression nd parent st =
  let* st1 := enter_CallExpression eval_expression nd (located nd st) in Ok (pushed nd st1).
Proof.
  intros H. unfold enter.
  rewrite H.
  rewrite (has_type_other _ "AssignmentExpression" _ H) by discriminate.
  rewrite (has_type_other _ "Identifier" _ H) by discriminate.
  rewrite (has_type_other _ "Literal" _ H) by discriminate.
  rewrite (has_type_other _ "ExportDefaultDeclaration" _ H) by discriminate.
  cbn [andb]. destruct (enter_CallExpression eval_expression nd (located nd st)); reflexivity.
Qed.

(** The handler on a call [require(literal)]. *)
Lemma enter_require nd arg (st : state Host) :
  require_literal_argument nd = Some arg ->
  enter_CallExpression eval_expression nd st =
  let* (include, h') := shouldInclude eval_expression (ancestors st) nd (host st) in
  if include then rewrite_require nd arg (set_host h' st) else Ok (set_host h' st).
Proof.
  unfold require_literal_argument, enter_CallExpression, req_child.
  destruct (child "callee" nd) as [callee|]; [|discriminate]. cbn [bind].
  destruct (name_is "require" callee); [|discriminate].
  destruct (children_at "arguments" nd) as [|a [|a' l]]; try discriminate.
  destruct (has_type "Literal" a); [|discriminate].
  now intros [= ->].
Qed.

(** The handler on any other call whose callee can be read. *)
Lemma enter_other_call nd callee (st : state Host) :
  child "callee" nd = Some callee ->
  require_literal_argument nd = None ->
  enter_CallExpression eval_expression nd st = Ok st.
Proof.
  unfold require_literal_argument, enter_CallExpression, req_child.
  intros ->. cbn [bind].
  destruct (name_is "require" callee); [|reflexivity].
  destruct (children_at "arguments" nd) as [|a [|a' l]]; try reflexivity.
  destruct (has_type "Literal" a); [discriminate|reflexivity].
Qed.

(** The search of the stack stops at its first qualifying entry. *)
Lemma shouldInclude_first pre p post nd h :
  Forall (fun a => qualifying a = Ok false) pre ->
  qualifying p = Ok true ->
  shouldInclude eval_expression (pre ++ p :: post) nd h = consult eval_expression p nd h.
Proof.
  induction 1 as [|a pre Ha _ IH]; intros Hp; simpl.
  - now rewrite Hp.
  - rewrite Ha. cbn [bind]. now apply IH.
Qed.

(** Without a qualifying entry nothing is evaluated and the call is
    included. *)
Lemma shouldInclude_none anc nd h :
  Forall (fun a => qualifying a = Ok false) anc ->
  shouldInclude eval_expression anc nd h = Ok (true, h).
Proof.
  induction 1 as [|a anc Ha _ IH]; simpl; [reflexivity|].
  rewrite Ha. cbn [bind]. exact IH.
Qed.

End enter_facts.

(* ===================================================================== *)
(** ** Conditional requires *)
(* ===================================================================== *)

Ltac in_nodes := simpl; repeat (first [left; reflexivity | right]).
Ltac by_computation := vm_compute; reflexivity.

(** The ancestor stack holds the path from the root: [enter] pushes the
    node at the end, and the walk of a subtree leaves the stack as it found
    it. *)
Section stack.
Context {Host : Type}.
Variable eval_expression : node -> Host -> result (value * Host).

Lemma overwrite_frame start end_ content s s' :
  MagicString.overwrite start end_ content s = Ok s' ->
  MagicString.intro s' = MagicString.intro s /\
  MagicString.outro s' = MagicString.outro s /\
  MagicString.original s' = MagicString.original s.
Proof.
  unfold MagicString.overwrite.
  destruct (_ <? _); [discriminate|]. destruct (_ <=? _); [discriminate|].
  intros H. apply bind_Ok_inv in H as (cs1 & _ & H).
  apply bind_Ok_inv in H as (cs2 & _ & H).
  injection H as <-. auto.
Qed.

Lemma no_import_refl (st : state Host) : no_import st st.
Proof. unfold no_import; auto. Qed.

Lemma no_import_trans (a b c : state Host) :
  no_import a b -> no_import b c -> no_import a c.
Proof. unfold no_import. intuition congruence. Qed.

Ltac frame := first [ apply no_import_refl | unfold no_import; simpl; intuition congruence ].

Lemma rewrite_require_import nd arg (st st' : state Host) :
  rewrite_require nd arg st = Ok st' ->
  one_import (literal_to_string (node_value arg)) st st'.
Proof.
  unfold rewrite_require. intros H.
  apply bind_Ok_inv in H as (s1 & Ho & H). injection H as <-.
  apply overwrite_frame in Ho as (Hi & Ho & _). simpl in Hi, Ho.
  unfold one_import; simpl. rewrite Hi, Ho. auto.
Qed.

Lemma enter_CallExpression_import nd (st st' : state Host) :
  enter_CallExpression eval_expression nd st = Ok st' ->
  no_import st st' \/
  exists arg, require_literal_argument nd = Some arg /\
              one_import (literal_to_string (node_value arg)) st st'.
Proof.
  unfold enter_CallExpression, require_literal_argument, req_child. intros H.
  destruct (child "callee" nd) as [callee|]; [|discriminate]. cbn [bind] in H.
  destruct (name_is "require" callee); [|injection H as <-; left; frame].
  destruct (children_at "arguments" nd) as [|a [|a' l]];
    try (injection H as <-; left; frame).
  destruct (has_type "Literal" a); [|injection H as <-; left; frame].
  apply bind_Ok_inv in H as ([include h'] & _ & H).
  destruct include; [|injection H as <-; left; frame].
  right. exists a. split; [reflexivity|].
  apply rewrite_require_import in H. exact H.
Qed.

Lemma enter_AssignmentExpression_frame nd (st st' : state Host) :
  enter_AssignmentExpression nd st = Ok st' -> no_import st st'.
Proof.
  unfold enter_AssignmentExpression. intros H.
  apply bind_Ok_inv in H as (left_ & _ & H).
  destruct (has_type "MemberExpression" left_); [|injection H as <-; frame].
  apply bind_Ok_inv in H as (st1 & H1 & H).
  apply no_import_trans with st1.
  { destruct (child "object" left_) as [object|]; [|injection H1 as <-; frame].
    destruct (name_is "module" object); [|injection H1 as <-; frame].
    destruct (child "property" left_) as [property|]; [|injection H1 as <-; frame].
    destruct (_ || _); [|injection H1 as <-; frame].
    apply bind_Ok_inv in H1 as (s1 & Ho & H1). injection H1 as <-.
    apply overwrite_frame in Ho as (Hi & Ho & _). simpl in Hi, Ho.
    unfold no_import; simpl; auto. }
  destruct (child "object" left_) as [object|]; [|injection H as <-; frame].
  destruct (name_is "exports" object); [|injection H as <-; frame].
  apply bind_Ok_inv in H as (s1 & Ho & H).
  apply overwrite_frame in Ho as (Hi & Ho & _). simpl in Hi, Ho.
  destruct (child "property" left_) as [property|];
    [destruct (node_name property) as [name|]; [destruct (negb _)|]|];
    injection H as <-; unfold no_import; simpl; auto.
Qed.

Lemma enter_exports_frame nd parent (st st' : state Host) :
  enter_exports nd parent st = Ok st' -> no_import st st'.
Proof.
  unfold enter_exports. intros H.
  destruct parent as [parent|]; [|discriminate].
  destruct (child "object" parent) as [object|];
    [destruct (same_node object nd)|];
    try (injection H as <-; frame);
    apply bind_Ok_inv in H as (s1 & Ho & H); injection H as <-;
    apply overwrite_frame in Ho as (Hi & Ho & _); simpl in Hi, Ho;
    unfold no_import; simpl; auto.
Qed.

(** One [enter] step, up to the push: at most one import. *)
Lemma enter_import nd parent (st st' : state Host) :
  enter eval_expression nd parent st = Ok st' ->
  ancestors st' = ancestors st ++ [nd] /\
  ((importIndex st' = importIndex st /\ hasImports st' = hasImports st /\
    MagicString.intro (s st') = MagicString.intro (s st) /\
    MagicString.outro (s st') = MagicString.outro (s st)) \/
   (has_type "CallExpression" nd = true /\
    exists arg, require_literal_argument nd = Some arg /\
      importIndex st' = S (importIndex st) /\ hasImports st' = true /\
      MagicString.intro (s st')
        = import_text (tempImportName_of (importIndex st))
                      (literal_to_string (node_value arg))
            +:+ MagicString.intro (s st) /\
      MagicString.outro (s st') = MagicString.outro (s st))).
Proof.
  unfold enter. intros H.
  apply bind_Ok_inv in H as (st1 & H1 & H).
  apply bind_Ok_inv in H as (st2 & H2 & H).
  apply bind_Ok_inv in H as (st3 & H3 & H).
  injection H as <-.
  assert (F2 : no_import st1 st2).
  { destruct (has_type "AssignmentExpression" nd).
    - now apply enter_AssignmentExpression_frame in H2.
    - injection H2 as <-. frame. }
  assert (F3 : no_import st2 st3).
  { destruct (_ && _).
    - now apply enter_exports_frame in H3.
    - injection H3 as <-. frame. }
  pose proof (no_import_trans _ _ _ F2 F3) as F. clear F2 F3 H2 H3.
  set (st4 := if has_type "Literal" nd && value_is "__esModule" nd
              then set_isESModule true st3 else st3).
  set (st5 := if has_type "ExportDefaultDeclaration" nd
              then set_hasESDefaultExport true st4 else st4).
  assert (F5 : no_import st3 st5).
  { unfold st5, st4.
    destruct (has_type "Literal" nd && value_is "__esModule" nd),
             (has_type "ExportDefaultDeclaration" nd); frame. }
  pose proof (no_import_trans _ _ _ F F5) as F'. clear F F5.
  destruct F' as (Fa & Fi & Fh & Fin & Fout).
  unfold pushed; simpl.
  destruct (has_type "CallExpression" nd) eqn:Hc.
  - apply enter_CallExpression_import in H1 as [N | (arg & Harg & O)].
    + destruct N as (Na & Ni & Nh & Nin & Nout). simpl in *.
      split; [congruence|]. left. repeat split; congruence.
    + destruct O as (Oa & Oi & Oh & Oin & Oout). simpl in *.
      split; [congruence|]. right. split; [reflexivity|].
      exists arg. repeat split; congruence.
  - injection H1 as <-. simpl in *.
    split; [congruence|]. left. repeat split; congruence.
Qed.

Lemma enter_pushes nd parent (st st' : state Host) :
  enter eval_expression nd parent st = Ok st' ->
  ancestors st' = ancestors st ++ [nd].
Proof. intros H. now apply enter_import in H. Qed.

Lemma visit_restores_stack n parent (st st' : state Host) :
  visit (enter eval_expression) leave n parent st = Ok st' ->
  ancestors st' = ancestors st.
Proof.
  intros H.
  apply (visit_invariant (enter eval_expression) leave
           (fun path st1 => ancestors st1 = ancestors st ++ path))
    with (path := []) in H.
  - now rewrite app_nil_r in H.
  - intros path m p st1 st2 E He. apply enter_pushes in He.
    rewrite He, E. now rewrite app_assoc.
  - intros path m p st1 st2 E Hl. injection Hl as <-. simpl.
    rewrite E, app_assoc. apply removelast_last.
  - now rewrite app_nil_r.
Qed.
End stack.

(** C1 (amended).  The stack of ancestors is kept root first ([enter]
    pushes the node at its end and the walk of a subtree restores it), and
    the decision on a [require(literal)] call is taken from the first
    qualifying [IfStatement] of that stack, that is the outermost one: its
    test alone is evaluated, and whatever lies between it and the call,
    further qualifying conditionals included, is not looked at. *)
Theorem C1_outermost_conditional_decides :
  forall (Host : Type) (eval_expression : node -> Host -> result (value * Host)),
    (forall nd parent (st st' : state Host),
        enter eval_expression nd parent st = Ok st' ->
        ancestors st' = ancestors st ++ [nd]) /\
    (forall n parent (st st' : state Host),
        visit (enter eval_expression) leave n parent st = Ok st' ->
        ancestors st' = ancestors st) /\
    (forall pre p post nd h,
        Forall (fun a => qualifying a = Ok false) pre ->
        qualifying p = Ok true ->
        shouldInclude eval_expression (pre ++ p :: post) nd h
        = consult eval_expression p nd h).
Proof.
  intros Host eval_expression. split; [|split].
  - apply enter_pushes.
  - apply visit_restores_stack.
  - apply shouldInclude_first.
Qed.

(** C1, as stated, fails on a call guarded by two nested comparisons: the
    nearest one, [1 == 2], does not hold and would skip the call, yet the
    call is rewritten and its module imported, because the outer one,
    [1 == 1], is the one consulted. *)
Lemma C1_counterexample :
  let call := Examples.at_ref Examples.nested_ast 12 in
  let inner := Examples.at_ref Examples.nested_ast 6 in
  let outer := Examples.at_ref Examples.nested_ast 1 in
  let stack := map (Examples.at_ref Examples.nested_ast) [0; 1; 5; 6; 10; 11] in
  ancestors_of 12 Examples.nested_ast = Some stack /\
  require_literal_argument call <> None /\
  qualifying inner = Ok true /\ qualifying outer = Ok true /\
  Forall (fun a => qualifying a = Ok false)
         (map (Examples.at_ref Examples.nested_ast) [10; 11]) /\
  consult (JsEval.evaluate 10) inner call ∅ = Ok (false, ∅) /\
  shouldInclude (JsEval.evaluate 10) stack call ∅ = Ok (true, ∅) /\
  Examples.run 10 None Examples.nested_code "/project/main.js" Examples.nested_ast ∅
  = Ok (Some (interop_helper_text
                +:+ "import * as __require__import__0 from './a';"
                +:+ "if (1 == 1) { if (1 == 2) { __interopImport(__require__import__0); } }")).
Proof.
  repeat split; try by_computation.
  - vm_compute. discriminate.
  - repeat constructor.
Qed.

(** Witness of C1: the stack at the call of the nested unit. *)
Lemma C1_outermost_conditional_decides_witness :
  let call := Examples.at_ref Examples.nested_ast 12 in
  let root := Examples.at_ref Examples.nested_ast 0 in
  let outer := Examples.at_ref Examples.nested_ast 1 in
  let inside := map (Examples.at_ref Examples.nested_ast) [5; 6; 10; 11] in
  Forall (fun a => qualifying a = Ok false) [root] /\
  qualifying outer = Ok true /\
  shouldInclude (JsEval.evaluate 10) ([root] ++ outer :: inside) call ∅
  = consult (JsEval.evaluate 10) outer call ∅.
Proof.
  intros call root outer inside.
  assert (H1 : Forall (fun a => qualifying a = Ok false) [root])
    by (repeat constructor).
  assert (H2 : qualifying outer = Ok true) by reflexivity.
  split; [exact H1|]. split; [exact H2|].
  exact (proj2 (proj2 (C1_outermost_conditional_decides
                         JsEval.globals (JsEval.evaluate 10)))
               [root] outer inside call ∅ H1 H2).
Defined.

Lemma findNodeInAst_branch p k nd :
  distinct_nodes p -> In nd (nodes p) ->
  findNodeInAst (child k p) nd = true <-> within (child k p) nd.
Proof.
  intros Hd Hin. destruct (child k p) as [t|] eqn:E; simpl.
  - apply findNodeInAst_within with p; auto.
    intros m. now apply nodes_child with k.
  - split; [discriminate | tauto].
Qed.
(** Two different child properties of a node hold disjoint subtrees. *)
Lemma fields_disjoint (fs : list (string * node)) k1 k2 c1 c2 m1 m2 :
  NoDup (map node_ref (flat_map (fun kc => nodes (snd kc)) fs)) ->
  In (k1, c1) fs -> In (k2, c2) fs -> k1 <> k2 ->
  In m1 (nodes c1) -> In m2 (nodes c2) -> node_ref m1 <> node_ref m2.
Proof.
  induction fs as [|[k c] fs IH]; simpl; [tauto|].
  rewrite map_app. intros Hnd H1 H2 Hk Hm1 Hm2.
  apply NoDup_app in Hnd as (_ & Hdis & Hnd).
  assert (Hrest : forall k' c' m', In (k', c') fs -> In m' (nodes c') ->
            In (node_ref m') (map node_ref (flat_map (fun kc => nodes (snd kc)) fs))).
  { intros k' c' m' Hin Hm'. apply in_map. apply in_flat_map.
    exists (k', c'); auto. }
  destruct H1 as [E1|H1], H2 as [E2|H2].
  - congruence.
  - injection E1 as -> ->. intros E.
    apply (Hdis (node_ref m1)).
    + apply list_elem_of_In. now apply in_map.
    + apply list_elem_of_In. rewrite E. eapply Hrest; eauto.
  - injection E2 as -> ->. intros E.
    apply (Hdis (node_ref m2)).
    + apply list_elem_of_In. now apply in_map.
    + apply list_elem_of_In. rewrite <- E. eapply Hrest; eauto.
  - eapply IH; eauto.
Qed.

Lemma branches_disjoint p k1 k2 nd :
  distinct_nodes p -> k1 <> k2 ->
  within (child k1 p) nd -> within (child k2 p) nd -> False.
Proof.
  unfold distinct_nodes. intros Hd Hk H1 H2.
  destruct (child k1 p) as [c1|] eqn:E1; [|contradiction].
  destruct (child k2 p) as [c2|] eqn:E2; [|contradiction].
  apply child_In in E1, E2. destruct p as [a fs]. simpl in *.
  apply NoDup_cons in Hd as [_ Hd].
  now apply (fields_disjoint fs k1 k2 c1 c2 nd nd Hd E1 E2 Hk H1 H2).
Qed.

(** C3 (amended).  [enter] allocates an import alias only on a call whose
    callee is named [require] and whose only argument is a [Literal] node,
    of any kind of literal; on a call of [require] of any other shape it
    leaves the text, the imports and the flags alone: it records the two
    source-map locations and pushes the node, nothing else. *)
Theorem C3_only_require_literal_is_rewritten :
  forall (Host : Type) (eval_expression : node -> Host -> result (value * Host))
         nd parent (st st' : state Host),
    enter eval_expression nd parent st = Ok st' ->
    (importIndex st' <> importIndex st ->
       has_type "CallExpression" nd = true /\
       exists arg, require_literal_argument nd = Some arg) /\
    (has_type "CallExpression" nd = true ->
     require_literal_argument nd = None ->
       st' = pushed nd (located nd st)).
Proof.
  intros Host ev nd parent st st' H. split.
  - intros Hne. apply enter_import in H as (_ & [(Hi & _) | (Hc & arg & Harg & _)]).
    + congruence.
    + eauto.
  - intros Hc Hnone. rewrite (enter_call ev nd parent st Hc) in H.
    apply bind_Ok_inv in H as (st1 & H1 & H). injection H as <-.
    assert (Hcallee : exists callee, child "callee" nd = Some callee).
    { unfold enter_CallExpression, req_child in H1.
      destruct (child "callee" nd); [eauto | discriminate]. }
    destruct Hcallee as (callee & Hcallee).
    rewrite (enter_other_call ev nd callee _ Hcallee Hnone) in H1.
    now injection H1 as <-.
Qed.

(** Witness of C3: [require(somevar)] is left alone. *)
Lemma C3_only_require_literal_is_rewritten_witness :
  let call := Examples.at_ref Examples.require_variable_ast 2 in
  let st := initial_state Examples.require_variable_code (∅ : JsEval.globals) in
  let st' := pushed call (located call st) in
  enter (JsEval.evaluate 10) call None st = Ok st' /\
  has_type "CallExpression" call = true /\
  require_literal_argument call = None /\
  st' = pushed call (located call st).
Proof.
  intros call st st'.
  assert (H : enter (JsEval.evaluate 10) call None st = Ok st') by reflexivity.
  assert (Hc : has_type "CallExpression" call = true) by reflexivity.
  assert (Hn : require_literal_argument call = None) by reflexivity.
  split; [exact H|]. split; [exact Hc|]. split; [exact Hn|].
  exact (proj2 (C3_only_require_literal_is_rewritten
                  JsEval.globals (JsEval.evaluate 10) call None st st' H) Hc Hn).
Defined.

(** C3, as stated, fails on [require(123)]: the argument is a number
    literal, not a string literal, and the call is rewritten all the same,
    with an import of the module ['123'].  And the text of a call that is
    not rewritten can still change: in [require(exports)] the argument
    becomes [__exports]. *)
Lemma C3_counterexample :
  let call := Examples.at_ref Examples.require_number_ast 2 in
  has_type "CallExpression" call = true /\
  (exists callee, child "callee" call = Some callee /\
                  has_type "Identifier" callee = true /\
                  node_name callee = Some "require") /\
  (exists arg, children_at "arguments" call = [arg] /\
               node_value arg = Some (LNumber 123)) /\
  Examples.run 10 None Examples.require_number_code "/project/main.js"
               Examples.require_number_ast ∅
  = Ok (Some (interop_helper_text
                +:+ "import * as __require__import__0 from '123';"
                +:+ "__interopImport(__require__import__0);")) /\
  require_literal_argument (Examples.at_ref Examples.require_exports_ast 2) = None /\
  Examples.run 10 None Examples.require_exports_code "/project/main.js"
               Examples.require_exports_ast ∅
  = Ok (Some (exports_declaration_text +:+ "require(__exports);"
                +:+ default_export_text)).
Proof.
  repeat split; try by_computation.
  - eexists. repeat split; by_computation.
  - eexists. repeat split; by_computation.
Qed.

Lemma require_literal_argument_inv nd arg :
  require_literal_argument nd = Some arg ->
  exists callee,
    child "callee" nd = Some callee /\ name_is "require" callee = true /\
    children_at "arguments" nd = [arg] /\ has_type "Literal" arg = true.
Proof.
  unfold require_literal_argument.
  destruct (child "callee" nd) as [callee|]; [|discriminate].
  destruct (name_is "require" callee) eqn:Hn; [|discriminate].
  destruct (children_at "arguments" nd) as [|a [|a' l]]; try discriminate.
  destruct (has_type "Literal" a) eqn:Hl; [|discriminate].
  intros [= <-]. exists callee. auto.
Qed.

(** The scenarios of the test-suite: a dependency under a comparison that
    does not hold is not imported, one under a comparison that holds is. *)
Example conditional_else_routes_to_alternate :
  Examples.run 10 None Examples.if_else_code "/project/main.js" Examples.if_else_ast ∅
  = Ok (Some (exports_declaration_text +:+ interop_helper_text
        +:+ "import * as __require__import__0 from './dep2.js';"
        +:+ "if (1 == 2) { __exports = require('./dep1.js'); } "
        +:+ "else { __exports = __interopImport(__require__import__0); }"
        +:+ default_export_text)).
Proof. by_computation. Qed.

Example conditional_true_is_included :
  Examples.run 10 None Examples.two_ifs_code "/project/main.js" Examples.two_ifs_ast ∅
  = Ok (Some (exports_declaration_text +:+ interop_helper_text
        +:+ "import * as __require__import__0 from './dep1.js';"
        +:+ "if (1 == 1) { __exports = __interopImport(__require__import__0); } "
        +:+ "if (1 == 2) { __exports = require('./dep2.js'); }"
        +:+ default_export_text)).
Proof. by_computation. Qed.

(** A call of [require] with two arguments, or on a variable, goes through
    as it is. *)
Example require_with_two_arguments_is_kept :
  Examples.run 10 None Examples.require_two_code "/project/main.js"
               Examples.require_two_ast ∅
  = Ok (Some Examples.require_two_code).
Proof. by_computation. Qed.

Example require_of_a_variable_is_kept :
  Examples.run 10 None Examples.require_variable_code "/project/main.js"
               Examples.require_variable_ast ∅
  = Ok (Some Examples.require_variable_code).
Proof. by_computation. Qed.

(** A file that is not [.js] is not transformed; a unit without exports
    gets no footer, whatever names the caller asked for. *)
Example other_extension_is_skipped :
  Examples.run 10 None Examples.no_exports_code "/project/main.jsx"
               Examples.no_exports_ast ∅
  = Ok None.
Proof. by_computation. Qed.

Example no_exports_no_footer :
  Examples.run 10 (Some (mkOptions (Some {[ "main.js" := ["x"] ]})))
               Examples.no_exports_code "/project/main.js" Examples.no_exports_ast ∅
  = Ok (Some Examples.no_exports_code).
Proof. by_computation. Qed.

(** The module name of a call on a number literal is the number as
    [String] prints it: [123], [1e21], [2 ** 63], [2 ** 70], [0.5] and
    [1e-7]. *)
Example require_of_a_large_number :
  literal_to_string (Some (LNumber 123)) = "123" /\
  literal_to_string (Some (LNumber (10 ^ 21))) = "1e+21" /\
  literal_to_string (Some (LNumber (2 ^ 63))) = "9223372036854776000" /\
  literal_to_string (Some (LNumber (2 ^ 70))) = "1.1805916207174113e+21" /\
  literal_to_string (Some (LFraction 1 1)) = "0.5" /\
  literal_to_string (Some (LFraction 944473296573929 73)) = "1e-7" /\
  Examples.run 10 None Examples.require_large_number_code "/project/main.js"
               Examples.require_large_number_ast ∅
  = Ok (Some (interop_helper_text
        +:+ "import * as __require__import__0 from '1e+21';"
        +:+ "__interopImport(__require__import__0);")).
Proof. repeat split; by_computation. Qed.


(* ===================================================================== *)
(** ** Edits and their rendering *)
(* ===================================================================== *)

Lemma append_assoc (a b c : string) : (a +:+ b) +:+ c = a +:+ (b +:+ c).
Proof.
  induction a as [|x a IH]; [reflexivity|].
  change (String x ((a +:+ b) +:+ c) = String x (a +:+ (b +:+ c))).
  now rewrite IH.
Qed.

Lemma append_empty_r (a : string) : a +:+ "" = a.
Proof.
  induction a as [|x a IH]; [reflexivity|].
  change (String x (a +:+ "") = String x a). now rewrite IH.
Qed.

Lemma concat_all_app l1 l2 : concat_all (l1 ++ l2) = concat_all l1 +:+ concat_all l2.
Proof.
  induction l1 as [|x l1 IH]; [reflexivity|].
  simpl. now rewrite IH, append_assoc.
Qed.

(** Each insertion at the start goes in front of what was inserted before,
    each insertion at the end goes behind, and a replacement touches
    neither. *)
Lemma apply_edits_order es : forall s s',
  apply_edits es s = Ok s' ->
  MagicString.intro s' = concat_all (rev (prepended es)) +:+ MagicString.intro s /\
  MagicString.outro s' = MagicString.outro s +:+ concat_all (appended es).
Proof.
  induction es as [|e es IH]; intros s s' H; simpl in H.
  - injection H as <-. simpl. now rewrite append_empty_r.
  - apply bind_Ok_inv in H as (s1 & He & H). apply IH in H as (Hi & Ho).
    destruct e as [c|c|a b c]; simpl in He.
    + injection He as <-. simpl in *. rewrite Hi, Ho. split; [|reflexivity].
      rewrite concat_all_app. simpl. rewrite append_empty_r.
      now rewrite append_assoc.
    + injection He as <-. simpl in *. rewrite Hi, Ho. split; [reflexivity|].
      now rewrite append_assoc.
    + apply overwrite_frame in He as (Hi' & Ho' & _). simpl.
      now rewrite Hi, Ho, Hi', Ho'.
Qed.

(* ===================================================================== *)
(** ** Named exports *)
(* ===================================================================== *)

Lemma some_r_true {A} (f : A -> result bool) l :
  some_r f l = Ok true -> exists x, In x l /\ f x = Ok true.
Proof.
  induction l as [|x l IH]; simpl; [discriminate|].
  intros H. apply bind_Ok_inv in H as (b & Hx & H). destruct b.
  - exists x; auto.
  - destruct (IH H) as (y & Hy & Hfy). exists y; auto.
Qed.

Lemma some_r_false {A} (f : A -> result bool) l :
  some_r f l = Ok false -> forall x, In x l -> f x = Ok false.
Proof.
  induction l as [|x l IH]; simpl; [tauto|].
  intros H. apply bind_Ok_inv in H as (b & Hx & H). destruct b; [discriminate|].
  intros y [<-|Hy]; auto.
Qed.

Lemma filter_r_Ok {A} (f : A -> result bool) l r :
  filter_r f l = Ok r ->
  r = List.filter (fun x => match f x with Ok b => b | Err _ => false end) l /\
  forall x, In x l -> exists b, f x = Ok b.
Proof.
  revert r. induction l as [|x l IH]; simpl; intros r H.
  - injection H as <-. split; [reflexivity | tauto].
  - apply bind_Ok_inv in H as (b & Hx & H).
    apply bind_Ok_inv in H as (r' & Hr & H). injection H as <-.
    destruct (IH r' Hr) as (-> & Hall). rewrite Hx. split.
    + now destruct b.
    + intros y [<-|Hy]; eauto.
Qed.

Lemma indexOf_absent x l : indexOf x l = (-1)%Z <-> ~ In x l.
Proof.
  induction l as [|y l IH]; simpl; [tauto|].
  destruct (String.eqb y x) eqn:E.
  - apply String.eqb_eq in E. split; [discriminate | intros H; exfalso; auto].
  - apply String.eqb_neq in E.
    assert (Hge : (-1 <= indexOf x l)%Z).
    { clear. induction l as [|z l IHl]; simpl; [lia|].
      destruct (String.eqb z x); [lia|].
      destruct (indexOf x l =? -1)%Z; lia. }
    destruct (indexOf x l =? -1)%Z eqn:E1.
    + apply Z.eqb_eq in E1. split; [|reflexivity].
      intros _ [H|H]; [congruence | now apply IH in E1].
    + apply Z.eqb_neq in E1. split; [lia|].
      intros H. exfalso. apply E1, IH. tauto.
Qed.

(** [exportNames] appends the statements of [names_text] and changes
    nothing else. *)
Lemma exportNames_Ok ast names s s' :
  exportNames ast names s = Ok s' ->
  MagicString.intro s' = MagicString.intro s /\
  MagicString.outro s' = MagicString.outro s +:+ names_text ast names /\
  MagicString.chunks s' = MagicString.chunks s /\
  forall name, In name names -> exists b, findTopLevelDeclaration ast name = Ok b.
Proof.
  unfold exportNames. intros H.
  apply bind_Ok_inv in H as (top & Htop & H). injection H as <-.
  apply filter_r_Ok in Htop as (-> & Hall).
  fold (declared ast).
  assert (Hother : List.filter (fun name => (indexOf name (List.filter (declared ast) names) =? -1)%Z) names
                   = List.filter (fun name => negb (declared ast name)) names).
  { apply filter_ext_in. intros x Hx.
    destruct (declared ast x) eqn:Ed; simpl.
    - apply Z.eqb_neq. rewrite indexOf_absent. intros Hn. apply Hn.
      apply filter_In. auto.
    - apply Z.eqb_eq. rewrite indexOf_absent. intros Hn.
      apply filter_In in Hn as [_ Hn]. congruence. }
  rewrite Hother. unfold names_text.
  destruct (0 <? length (List.filter (declared ast) names));
    destruct (0 <? length (List.filter (fun name => negb (declared ast name)) names));
    simpl; repeat split; auto;
    rewrite ?append_empty_r, ?append_assoc; reflexivity.
Qed.

(* ===================================================================== *)
(** ** The emission sequence *)
(* ===================================================================== *)

Section emission.
Context {Host : Type}.
Variable eval_expression : node -> Host -> result (value * Host).
Variable cwd : string.
Variable options : option Options.

Lemma walking_initial code (h : Host) : walking (initial_state code h).
Proof. repeat split. exists []. split; reflexivity. Qed.

Lemma walking_enter nd parent (st st' : state Host) :
  walking st -> enter eval_expression nd parent st = Ok st' -> walking st'.
Proof.
  intros ((importees & Hlen & Hintro) & Hflag & Houtro) H.
  apply enter_import in H
    as (_ & [(Hi & Hh & Hin & Hout) | (_ & arg & _ & Hi & Hh & Hin & Hout)]).
  - repeat split; [|congruence|congruence].
    exists importees. split; congruence.
  - repeat split; [| rewrite Hh, Hi; reflexivity | congruence].
    exists (literal_to_string (node_value arg) :: importees). split.
    + simpl. congruence.
    + simpl. rewrite Hin, Hlen, Hintro. reflexivity.
Qed.

Lemma walking_leave nd parent (st st' : state Host) :
  walking st -> leave nd parent st = Ok st' -> walking st'.
Proof. intros H Hl. injection Hl as <-. exact H. Qed.

Lemma walk_walking ast code h st :
  walk (enter eval_expression) leave ast (initial_state code h) = Ok st ->
  walking st.
Proof.
  unfold walk. intros H.
  apply (visit_invariant (enter eval_expression) leave (fun _ (st1 : state Host) => walking st1))
    with (path := []) in H; [exact H| | |].
  - intros _ nd parent st1 st2. apply walking_enter.
  - intros _ nd parent st1 st2. apply walking_leave.
  - apply walking_initial.
Qed.

(** The export footer: what [emit_exports] adds before and after. *)
Lemma emit_exports_Ok ast id (st st' : state Host) :
  emit_exports cwd options ast id st = Ok st' ->
  hasExports st = true ->
  MagicString.intro (s st') = exports_declaration_text +:+ MagicString.intro (s st) /\
  MagicString.outro (s st')
    = MagicString.outro (s st) +:+ footer_text cwd options ast id st' /\
  MagicString.chunks (s st') = MagicString.chunks (s st) /\
  importIndex st' = importIndex st /\ hasExports st' = true /\
  isESModule st' = isESModule st /\
  hasESDefaultExport st' = hasESDefaultExport st /\
  exported st' = (if isESModule st then exported_names (exported st) else exported st).
Proof.
  unfold emit_exports. intros H He. rewrite He in H.
  apply bind_Ok_inv in H as ([exported' s1] & H1 & H).
  apply bind_Ok_inv in H as (s2 & H2 & H). injection H as <-.
  unfold footer_text, default_export_part, candidates_part, requested_part.
  simpl.
  assert (Hreq : MagicString.intro s2 = MagicString.intro s1 /\
                 MagicString.outro s2
                 = MagicString.outro s1
                     +:+ match requested_names cwd options id with
                         | Some names => names_text ast names
                         | None => ""
                         end /\
                 MagicString.chunks s2 = MagicString.chunks s1).
  { destruct (requested_names cwd options id) as [names|].
    - apply exportNames_Ok in H2 as (Hi & Ho & Hc & _). auto.
    - injection H2 as <-. now rewrite append_empty_r. }
  destruct Hreq as (Hi2 & Ho2 & Hc2). rewrite Hi2, Ho2, Hc2. clear Hi2 Ho2 Hc2 H2.
  destruct (isESModule st) eqn:Ees; destruct (hasESDefaultExport st) eqn:Ed;
    simpl in H1.
  - apply bind_Ok_inv in H1 as (s3 & H3 & H1). injection H1 as <- <-.
    apply exportNames_Ok in H3 as (Hi3 & Ho3 & Hc3 & _). simpl in *.
    rewrite Hi3, Ho3, Hc3.
    repeat split; rewrite ?Ees, ?append_assoc; auto.
  - apply bind_Ok_inv in H1 as (s3 & H3 & H1). injection H1 as <- <-.
    apply exportNames_Ok in H3 as (Hi3 & Ho3 & Hc3 & _). simpl in *.
    rewrite Hi3, Ho3, Hc3.
    repeat split; rewrite ?Ees, ?append_assoc; auto.
  - injection H1 as <- <-. simpl.
    repeat split; rewrite ?Ees, ?append_assoc, ?append_empty_r; auto.
  - injection H1 as <- <-. simpl.
    repeat split; rewrite ?Ees, ?append_assoc, ?append_empty_r; auto.
Qed.

Lemma emit_exports_none ast id (st : state Host) :
  hasExports st = false -> emit_exports cwd options ast id st = Ok st.
Proof. unfold emit_exports. now intros ->. Qed.

(** The whole unit: the text before and after the chunks. *)
Lemma transform_state_Ok code id ast h st' :
  transform_state eval_expression cwd options code id ast h = Ok st' ->
  exists st,
    walk (enter eval_expression) leave ast (initial_state code h) = Ok st /\
    importIndex st' = importIndex st /\ hasExports st' = hasExports st /\
    isESModule st' = isESModule st /\
    (exists importees,
        length importees = importIndex st' /\
        MagicString.intro (s st')
        = (if hasExports st' then exports_declaration_text else "")
            +:+ (if 0 <? importIndex st' then interop_helper_text else "")
            +:+ imports_block importees) /\
    MagicString.outro (s st')
    = (if hasExports st' then footer_text cwd options ast id st' else "") /\
    exported st'
    = (if hasExports st && isESModule st
       then exported_names (exported st) else exported st).
Proof.
  unfold transform_state. intros H.
  apply bind_Ok_inv in H as (st & Hw & H). exists st. split; [exact Hw|].
  apply walk_walking in Hw as ((importees & Hlen & Hintro) & Hflag & Houtro).
  assert (Hi : importIndex (emit_interop st) = importIndex st /\
               hasExports (emit_interop st) = hasExports st /\
               isESModule (emit_interop st) = isESModule st /\
               exported (emit_interop st) = exported st /\
               MagicString.outro (s (emit_interop st)) = "" /\
               MagicString.intro (s (emit_interop st))
               = (if 0 <? importIndex st then interop_helper_text else "")
                   +:+ imports_block importees).
  { unfold emit_interop. rewrite Hflag.
    destruct (0 <? importIndex st); simpl; repeat split; try congruence;
      rewrite Hintro; reflexivity. }
  destruct Hi as (Hii & Hie & Hies & Hiex & Hio & Hiin).
  destruct (hasExports st) eqn:He.
  - apply emit_exports_Ok in H as (Hin & Hout & _ & Hidx & Hex & Hes & _ & Hexp);
      [|congruence].
    rewrite Hidx, Hii, Hex. split; [reflexivity|]. split; [reflexivity|].
    split; [congruence|]. split; [|split].
    + exists importees. split; [exact Hlen|]. now rewrite Hin, Hiin.
    + now rewrite Hout, Hio.
    + rewrite Hexp, Hies, Hiex. reflexivity.
  - rewrite emit_exports_none in H by congruence. injection H as <-.
    rewrite Hii, Hie. split; [reflexivity|]. split; [reflexivity|].
    split; [exact Hies|]. split; [|split].
    + exists importees. split; [exact Hlen|]. now rewrite Hiin.
    + exact Hio.
    + exact Hiex.
Qed.
End emission.

(* ===================================================================== *)
(** ** Candidate names *)
(* ===================================================================== *)

Lemma indexOf_bounds x l : In x l -> (0 <= indexOf x l < Z.of_nat (length l))%Z.
Proof.
  induction l as [|y l IH]; simpl; [tauto|].
  destruct (String.eqb y x) eqn:E; [lia|].
  apply String.eqb_neq in E. intros [H|H]; [congruence|].
  specialize (IH H). destruct (indexOf x l =? -1)%Z eqn:E1; [apply Z.eqb_eq in E1|]; lia.
Qed.

Lemma indexOf_app_in x pre r : In x pre -> indexOf x (pre ++ r) = indexOf x pre.
Proof.
  induction pre as [|y pre IH]; simpl; [tauto|].
  destruct (String.eqb y x) eqn:E; [reflexivity|].
  apply String.eqb_neq in E. intros [H|H]; [congruence|]. now rewrite IH.
Qed.

Lemma indexOf_app_first x pre r :
  ~ In x pre -> indexOf x (pre ++ x :: r) = Z.of_nat (length pre).
Proof.
  induction pre as [|y pre IH]; simpl.
  - now rewrite String.eqb_refl.
  - intros H. destruct (String.eqb y x) eqn:E.
    + apply String.eqb_eq in E. tauto.
    + rewrite IH by tauto. destruct (_ =? -1)%Z eqn:E1; [apply Z.eqb_eq in E1|]; lia.
Qed.

Lemma existsb_eqb_In x l : existsb (String.eqb x) l = true <-> In x l.
Proof.
  rewrite existsb_exists. split.
  - intros (y & Hy & E). apply String.eqb_eq in E. now subst.
  - intros H. exists x. split; [exact H | apply String.eqb_refl].
Qed.

Lemma unique_in_order_ext seen seen' l :
  (forall x, In x seen <-> In x seen') ->
  unique_in_order seen l = unique_in_order seen' l.
Proof.
  revert seen seen'. induction l as [|x l IH]; intros seen seen' H; simpl; [reflexivity|].
  assert (E : existsb (String.eqb x) seen = existsb (String.eqb x) seen').
  { apply eq_true_iff_eq. rewrite !existsb_eqb_In. apply H. }
  rewrite E. destruct (existsb (String.eqb x) seen'); [now apply IH|].
  f_equal. apply IH. intros y. simpl. now rewrite H.
Qed.

Lemma unique_in_order_In seen l y :
  In y (unique_in_order seen l) <-> In y l /\ ~ In y seen.
Proof.
  revert seen. induction l as [|x l IH]; intros seen; simpl; [tauto|].
  destruct (existsb (String.eqb x) seen) eqn:E.
  - apply existsb_eqb_In in E. rewrite IH. split; [tauto|].
    intros [[<-|H] Hn]; tauto.
  - assert (Hx : ~ In x seen).
    { intros H. apply existsb_eqb_In in H. congruence. }
    simpl. rewrite IH. simpl. split.
    + intros [<-|[H Hn]]; tauto.
    + intros [[<-|H] Hn]; [tauto|].
      destruct (string_dec x y) as [<-|Hne]; [tauto|]. right. tauto.
Qed.

Lemma unique_in_order_NoDup seen l : List.NoDup (unique_in_order seen l).
Proof.
  revert seen. induction l as [|x l IH]; intros seen; simpl; [constructor|].
  destruct (existsb (String.eqb x) seen); [apply IH|].
  constructor; [|apply IH].
  rewrite unique_in_order_In. simpl. tauto.
Qed.

Lemma exported_names_from pre l :
  filter_indexed_from
    (fun e i => negb (String.eqb e "default") && (indexOf e (pre ++ l) =? i)%Z)
    (Z.of_nat (length pre)) l
  = List.filter (fun e => negb (String.eqb e "default")) (unique_in_order pre l).
Proof.
  revert pre. induction l as [|x l IH]; intros pre; [reflexivity|].
  cbn [filter_indexed_from unique_in_order].
  assert (Hnext : forall (r : list string),
            filter_indexed_from
              (fun e i => negb (String.eqb e "default")
                          && (indexOf e (pre ++ x :: l) =? i)%Z)
              (Z.of_nat (length pre) + 1)%Z l
            = List.filter (fun e => negb (String.eqb e "default"))
                          (unique_in_order (pre ++ [x]) l)).
  { intros _. specialize (IH (pre ++ [x])).
    rewrite length_app, <- app_assoc in IH. simpl in IH.
    replace (Z.of_nat (length pre + 1)) with (Z.of_nat (length pre) + 1)%Z in IH by lia.
    exact IH. }
  destruct (existsb (String.eqb x) pre) eqn:E.
  - apply existsb_eqb_In in E.
    assert (Hidx : (indexOf x (pre ++ x :: l) =? Z.of_nat (length pre))%Z = false).
    { apply Z.eqb_neq. rewrite indexOf_app_in by assumption.
      pose proof (indexOf_bounds x pre E). lia. }
    rewrite Hidx, andb_false_r, (Hnext []).
    f_equal. apply unique_in_order_ext. intros y. rewrite in_app_iff. simpl.
    split; [intros [H|[<-|[]]]; assumption | tauto].
  - assert (Hx : ~ In x pre).
    { intros H. apply existsb_eqb_In in H. congruence. }
    assert (Hidx : (indexOf x (pre ++ x :: l) =? Z.of_nat (length pre))%Z = true).
    { apply Z.eqb_eq. now apply indexOf_app_first. }
    rewrite Hidx, andb_true_r, (Hnext []). cbn [List.filter].
    assert (Hext : unique_in_order (pre ++ [x]) l = unique_in_order (x :: pre) l).
    { apply unique_in_order_ext. intros y. rewrite in_app_iff. simpl. tauto. }
    rewrite Hext. reflexivity.
Qed.

(** The candidates exported: those of [exports.NAME] other than [default],
    each once, in the order of their first write. *)
Lemma exported_names_spec l :
  exported_names l
  = List.filter (fun e => negb (String.eqb e "default")) (unique_in_order [] l) /\
  List.NoDup (exported_names l) /\
  (forall x, In x (exported_names l) <-> In x l /\ x <> "default").
Proof.
  assert (E : exported_names l
              = List.filter (fun e => negb (String.eqb e "default")) (unique_in_order [] l)).
  { unfold exported_names, filter_indexed. apply (exported_names_from [] l). }
  split; [exact E|]. rewrite E. split.
  - apply List.NoDup_filter, unique_in_order_NoDup.
  - intros x. rewrite filter_In, unique_in_order_In. simpl.
    rewrite negb_true_iff, String.eqb_neq. tauto.
Qed.

(** [findTopLevelDeclaration] answers [true] exactly when a statement of
    the program body binds the name. *)
Lemma id_name_is_true name d :
  id_name_is name d = Ok true <->
  exists id, child "id" d = Some id /\ name_is name id = true.
Proof.
  unfold id_name_is, req_child. destruct (child "id" d) as [id|]; simpl.
  - split.
    + intros [= H]. eauto.
    + intros (id' & [= <-] & H). now rewrite H.
  - split; [discriminate | intros (id' & H & _); discriminate].
Qed.

Lemma findTopLevelDeclaration_spec ast name b :
  findTopLevelDeclaration ast name = Ok b ->
  (b = true <-> exists d, In d (children_at "body" ast) /\ declares name d).
Proof.
  unfold findTopLevelDeclaration. intros H. destruct b.
  - split; [intros _ | reflexivity].
    apply some_r_true in H as (d & Hd & H). exists d. split; [exact Hd|].
    apply bind_Ok_inv in H as (hit1 & H1 & H). destruct hit1.
    + left. destruct (has_type "VariableDeclaration" d); [|discriminate].
      split; [reflexivity|].
      apply some_r_true in H1 as (dc & Hdc & H1).
      apply id_name_is_true in H1 as (id & Hid & Hn). eauto.
    + right. apply bind_Ok_inv in H as (hit2 & H2 & H). destruct hit2.
      * destruct (has_type "FunctionDeclaration" d); [|discriminate].
        split; [now left|]. now apply id_name_is_true.
      * apply bind_Ok_inv in H as (hit3 & H3 & H). injection H as ->.
        destruct (has_type "ClassDeclaration" d); [|discriminate].
        split; [now right|]. now apply id_name_is_true.
  - split; [discriminate|]. intros (d & Hd & Hdec). exfalso.
    apply some_r_false with (x := d) in H; [|exact Hd].
    apply bind_Ok_inv in H as (hit1 & H1 & H). destruct hit1; [discriminate|].
    apply bind_Ok_inv in H as (hit2 & H2 & H). destruct hit2; [discriminate|].
    apply bind_Ok_inv in H as (hit3 & H3 & H). injection H as ->.
    destruct Hdec as [(Ht & dc & id & Hdc & Hid & Hn) | ([Ht|Ht] & id & Hid & Hn)].
    + rewrite Ht in H1. apply some_r_false with (x := dc) in H1; [|exact Hdc].
      assert (Htrue : id_name_is name dc = Ok true) by (apply id_name_is_true; eauto).
      congruence.
    + rewrite Ht in H2.
      assert (Htrue : id_name_is name d = Ok true) by (apply id_name_is_true; eauto).
      congruence.
    + rewrite Ht in H3.
      assert (Htrue : id_name_is name d = Ok true) by (apply id_name_is_true; eauto).
      congruence.
Qed.

(** On the trees the parser produces the search does not throw. *)
Lemma some_r_total {A} (f : A -> result bool) l :
  (forall x, In x l -> exists b, f x = Ok b) -> exists b, some_r f l = Ok b.
Proof.
  induction l as [|x l IH]; intros H; simpl; [eauto|].
  destruct (H x (or_introl eq_refl)) as (b & ->). simpl.
  destruct b; [eauto|]. apply IH. intros y Hy. apply H. now right.
Qed.

Lemma filter_r_total {A} (f : A -> result bool) l :
  (forall x, In x l -> exists b, f x = Ok b) -> exists r, filter_r f l = Ok r.
Proof.
  induction l as [|x l IH]; intros H; simpl; [eauto|].
  destruct (H x (or_introl eq_refl)) as (b & ->). simpl.
  destruct IH as (r & ->); [intros y Hy; apply H; now right|]. simpl. eauto.
Qed.

Lemma id_name_is_total name d :
  child "id" d <> None -> exists b, id_name_is name d = Ok b.
Proof.
  unfold id_name_is, req_child. destruct (child "id" d); [simpl; eauto | congruence].
Qed.

Lemma findTopLevelDeclaration_total ast name :
  declarations_have_ids ast -> exists b, findTopLevelDeclaration ast name = Ok b.
Proof.
  intros Hwf. unfold findTopLevelDeclaration. apply some_r_total.
  intros d Hd. destruct (Hwf d Hd) as (Hvar & Hfc).
  assert (H1 : exists b, (if has_type "VariableDeclaration" d
                          then some_r (id_name_is name) (children_at "declarations" d)
                          else Ok false) = Ok b).
  { destruct (has_type "VariableDeclaration" d); [|eauto].
    apply some_r_total. intros dc Hdc. apply id_name_is_total. now apply Hvar. }
  destruct H1 as (b1 & ->). simpl. destruct b1; [eauto|].
  assert (H2 : exists b, (if has_type "FunctionDeclaration" d
                          then id_name_is name d else Ok false) = Ok b).
  { destruct (has_type "FunctionDeclaration" d); [|eauto].
    apply id_name_is_total. apply Hfc. now left. }
  destruct H2 as (b2 & ->). simpl. destruct b2; [eauto|].
  assert (H3 : exists b, (if has_type "ClassDeclaration" d
                          then id_name_is name d else Ok false) = Ok b).
  { destruct (has_type "ClassDeclaration" d); [|eauto].
    apply id_name_is_total. apply Hfc. now right. }
  destruct H3 as (b3 & ->). simpl. eauto.
Qed.

Lemma exportNames_total ast names s :
  declarations_have_ids ast -> exists s', exportNames ast names s = Ok s'.
Proof.
  intros Hwf. unfold exportNames.
  destruct (filter_r_total (findTopLevelDeclaration ast) names) as (top & ->).
  - intros name _. now apply findTopLevelDeclaration_total.
  - simpl. eauto.
Qed.

(* ===================================================================== *)
(** ** The interop helper *)
(* ===================================================================== *)

(** C6 (amended).  The helper is inserted once, directly in front of the
    import statements, exactly when an import alias was allocated, and never
    otherwise; the function it defines returns the namespace when its
    [__esModule] property is truthy, otherwise the value of its [default]
    property when that value is not [undefined] (so also [false], [0],
    [null] and the empty string), and otherwise -- a [default] that is
    absent or holds [undefined] -- the namespace. *)
Theorem C6_interop_helper :
  (forall (Host : Type) (eval_expression : node -> Host -> result (value * Host))
          cwd options code id ast h st,
      transform_state eval_expression cwd options code id ast h = Ok st ->
      exists importees,
        length importees = importIndex st /\
        MagicString.intro (s st)
        = (if hasExports st then exports_declaration_text else "")
            +:+ (if 0 <? importIndex st then interop_helper_text else "")
            +:+ imports_block importees) /\
  (forall ex,
      (truthy (get_prop ex "__esModule") = true ->
         __interopImport ex = VObject ex) /\
      (truthy (get_prop ex "__esModule") = false ->
       get_prop ex "default" <> VUndefined ->
         __interopImport ex = get_prop ex "default") /\
      (truthy (get_prop ex "__esModule") = false ->
       get_prop ex "default" = VUndefined ->
         __interopImport ex = VObject ex)).
Proof.
  split.
  - intros Host ev cwd options code id ast h st H.
    apply transform_state_Ok in H as (st0 & _ & _ & _ & _ & Hintro & _).
    exact Hintro.
  - intros ex. unfold __interopImport. repeat split.
    + now intros ->.
    + intros -> Hd. destruct (get_prop ex "default"); try reflexivity. congruence.
    + now intros -> ->.
Qed.

(** Witness of C6: the unit [var dep = require('./dep.js'); ...] and the
    namespace of a module whose default export is [false]. *)
Lemma C6_interop_helper_witness :
  let ex : gmap string value := {[ "default" := VBool false ]} in
  (exists st,
      Examples.run_state 10 None Examples.import_cjs_code "/project/main.js"
                         Examples.import_cjs_ast ∅ = Ok st /\
      exists importees,
        length importees = importIndex st /\
        MagicString.intro (s st)
        = (if hasExports st then exports_declaration_text else "")
            +:+ (if 0 <? importIndex st then interop_helper_text else "")
            +:+ imports_block importees) /\
  truthy (get_prop ex "__esModule") = false /\
  get_prop ex "default" <> VUndefined /\
  __interopImport ex = get_prop ex "default".
Proof.
  intros ex. split; [|split; [|split]].
  - destruct (Examples.run_state 10 None Examples.import_cjs_code "/project/main.js"
                Examples.import_cjs_ast ∅) as [st|e] eqn:E; [|vm_compute in E; discriminate].
    exists st. split; [reflexivity|].
    exact (proj1 C6_interop_helper JsEval.globals (JsEval.evaluate 10)
             "/project" None _ _ _ _ st E).
  - by_computation.
  - vm_compute. discriminate.
  - assert (H1 : truthy (get_prop ex "__esModule") = false) by by_computation.
    assert (H2 : get_prop ex "default" <> VUndefined) by (vm_compute; discriminate).
    exact (proj1 (proj2 (proj2 C6_interop_helper ex)) H1 H2).
Defined.

(** C6, as stated, fails on a namespace whose [default] property is
    present and holds [undefined] (a module that exports [undefined] by
    default): the marker is not set and the property is present, yet the
    helper returns the namespace, not the value of the property. *)
Lemma C6_counterexample :
  let ex : gmap string value := {[ "default" := VUndefined ]} in
  truthy (get_prop ex "__esModule") = false /\
  ex !! "default" = Some VUndefined /\
  __interopImport ex = VObject ex /\
  __interopImport ex <> VUndefined.
Proof.
  intros ex. split; [by_computation|]. split; [by_computation|].
  split; [by_computation|]. vm_compute. discriminate.
Qed.

(** C10 (amended).  The helpers of the two variants return the same value
    exactly on the namespaces whose [__esModule] is falsy and whose
    [default] is truthy or [undefined], on those whose [__esModule] is
    truthy and whose [default] is falsy, and on those whose [__esModule] is
    truthy and whose [default] is the namespace itself.  On a namespace
    without [__esModule] whose [default] is falsy but not [undefined] the
    older helper returns the namespace and the current one the default,
    which is not the namespace; on a namespace with [__esModule] and a
    truthy [default] the older helper returns the default and the current
    one the namespace. *)
Theorem C10_helpers_agree_when :
  forall ex,
    let esModule := get_prop ex "__esModule" in
    let default_ := get_prop ex "default" in
    (IndexJs.__interopImport ex = __interopImport ex <->
     (truthy esModule = false /\
      (truthy default_ = true \/ default_ = VUndefined)) \/
     (truthy esModule = true /\
      (truthy default_ = false \/ default_ = VObject ex))) /\
    (truthy esModule = false /\ truthy default_ = false /\ default_ <> VUndefined ->
     IndexJs.__interopImport ex = VObject ex /\
     __interopImport ex = default_ /\
     default_ <> VObject ex) /\
    (truthy esModule = true /\ truthy default_ = true ->
     IndexJs.__interopImport ex = default_ /\
     __interopImport ex = VObject ex).
Proof.
  intros ex esModule default_.
  unfold IndexJs.__interopImport, __interopImport. fold esModule default_.
  split; [|split].
  - destruct (truthy esModule) eqn:Em; destruct (truthy default_) eqn:Ed.
    + split.
      * intros H. right. split; [reflexivity|]. now right.
      * intros [(H & _) | (_ & [H | H])]; [discriminate | discriminate | exact H].
    + split; [intros _; right; split; [reflexivity | now left] | reflexivity].
    + split; [intros _; left; split; [reflexivity | now left] |].
      intros _. destruct default_; try reflexivity; discriminate.
    + destruct default_ eqn:E; simpl; try discriminate;
        first [ split; [intros _; left; split; [reflexivity | now right] | reflexivity]
              | split; [discriminate
                       | intros [(_ & [H | H]) | (H & _)]; discriminate] ].
  - intros (Em & Ed & Hu). rewrite Em, Ed.
    split; [reflexivity|]. split.
    + destruct default_; try reflexivity. now contradict Hu.
    + intros H. rewrite H in Ed. discriminate.
  - intros (Em & Ed). rewrite Em, Ed. split; reflexivity.
Qed.

(** Witness of C10: a plain module exporting [123]; a module exporting [0],
    on which the helpers differ. *)
Lemma C10_helpers_agree_when_witness :
  let ex : gmap string value := {[ "default" := VNum 123 ]} in
  let ex0 : gmap string value := {[ "default" := VNum 0 ]} in
  IndexJs.__interopImport ex = __interopImport ex /\
  IndexJs.__interopImport ex0 = VObject ex0 /\
  __interopImport ex0 = VNum 0.
Proof.
  intros ex ex0.
  assert (H1 : truthy (get_prop ex "__esModule") = false) by by_computation.
  assert (H2 : truthy (get_prop ex "default") = true) by by_computation.
  assert (H3 : truthy (get_prop ex0 "__esModule") = false /\
               truthy (get_prop ex0 "default") = false /\
               get_prop ex0 "default" <> VUndefined)
    by (split; [by_computation|]; split; [by_computation|]; vm_compute; discriminate).
  split.
  - exact (proj2 (proj1 (C10_helpers_agree_when ex)) (or_introl (conj H1 (or_introl H2)))).
  - destruct (proj1 (proj2 (C10_helpers_agree_when ex0)) H3) as (Ha & Hb & _).
    split; [exact Ha | exact Hb].
Defined.

(** C10, as stated, fails: on a module that exports [false] the older
    helper returns the namespace and the current one [false]; on a
    transpiled ES module with a default export the older helper returns the
    default and the current one the namespace. *)
Lemma C10_counterexample :
  let ex1 : gmap string value := {[ "default" := VBool false ]} in
  let ex2 : gmap string value :=
    {[ "__esModule" := VBool true; "default" := VNum 1 ]} in
  IndexJs.__interopImport ex1 = VObject ex1 /\
  __interopImport ex1 = VBool false /\
  IndexJs.__interopImport ex2 = VNum 1 /\
  __interopImport ex2 = VObject ex2 /\
  ~ (forall ex, IndexJs.__interopImport ex = __interopImport ex).
Proof.
  intros ex1 ex2. split; [by_computation|]. split; [by_computation|].
  split; [by_computation|]. split; [by_computation|].
  intros H. specialize (H ex1). vm_compute in H. discriminate.
Qed.

(* ===================================================================== *)
(** ** The order of the inserted text *)
(* ===================================================================== *)

(** C7.  A sequence of edits renders every insertion at the start in front
    of the earlier ones and every insertion at the end behind the earlier
    ones; and in a unit with exports the declaration of [__exports], the
    last insertion at the start, opens the output, in front of the interop
    helper and of the import statements. *)
Theorem C7_edit_order :
  (forall es s s',
      apply_edits es s = Ok s' ->
      MagicString.toString s'
      = (concat_all (rev (prepended es)) +:+ MagicString.intro s)
          +:+ MagicString.body s'
          +:+ (MagicString.outro s +:+ concat_all (appended es))) /\
  (forall (Host : Type) (eval_expression : node -> Host -> result (value * Host))
          cwd options code id ast h st,
      transform_state eval_expression cwd options code id ast h = Ok st ->
      hasExports st = true ->
      exists importees,
        length importees = importIndex st /\
        MagicString.toString (s st)
        = exports_declaration_text
            +:+ ((if 0 <? importIndex st then interop_helper_text else "")
                   +:+ imports_block importees)
            +:+ MagicString.body (s st) +:+ MagicString.outro (s st)).
Proof.
  split.
  - intros es s0 s' H. apply apply_edits_order in H as (Hi & Ho).
    unfold MagicString.toString. now rewrite Hi, Ho.
  - intros Host ev cwd options code id ast h st H He.
    apply transform_state_Ok in H as (st0 & _ & _ & _ & _ & (importees & Hlen & Hintro) & _).
    exists importees. split; [exact Hlen|].
    unfold MagicString.toString. rewrite Hintro, He.
    now rewrite !append_assoc.
Qed.

(** Witness of C7. *)
Lemma C7_edit_order_witness :
  let es := [Prepend "a"; Append "x"; Overwrite 0 2 "C"; Prepend "b"; Append "y"] in
  (exists s', apply_edits es (MagicString.new "code") = Ok s' /\
              MagicString.toString s' = "baCdexy" /\
              MagicString.toString s'
              = (concat_all (rev (prepended es)) +:+ "")
                  +:+ MagicString.body s' +:+ ("" +:+ concat_all (appended es))) /\
  (exists st,
      Examples.run_state 10 None Examples.import_cjs_code "/project/main.js"
                         Examples.import_cjs_ast ∅ = Ok st /\
      hasExports st = true /\
      exists importees,
        length importees = importIndex st /\
        MagicString.toString (s st)
        = exports_declaration_text
            +:+ ((if 0 <? importIndex st then interop_helper_text else "")
                   +:+ imports_block importees)
            +:+ MagicString.body (s st) +:+ MagicString.outro (s st)).
Proof.
  intros es. split.
  - destruct (apply_edits es (MagicString.new "code")) as [s'|e] eqn:E;
      [|vm_compute in E; discriminate].
    exists s'. split; [reflexivity|]. split.
    + vm_compute in E. injection E as <-. reflexivity.
    + exact (proj1 C7_edit_order es (MagicString.new "code") s' E).
  - destruct (Examples.run_state 10 None Examples.import_cjs_code "/project/main.js"
                Examples.import_cjs_ast ∅) as [st|e] eqn:E; [|vm_compute in E; discriminate].
    assert (He : hasExports st = true)
      by (vm_compute in E; injection E as <-; reflexivity).
    exists st. split; [reflexivity|]. split; [exact He|].
    exact (proj2 C7_edit_order JsEval.globals (JsEval.evaluate 10)
             "/project" None _ _ _ _ st E He).
Defined.

(* ===================================================================== *)
(** ** The export footer *)
(* ===================================================================== *)

(** C8 (amended).  In a unit with exports the text after the unit is, in
    this order: the default export ([__exports.default] for a transpiled ES
    module, [__exports] otherwise), unless the unit has a default export of
    its own; for a transpiled ES module only, the exports of the
    [exports.NAME] candidates followed by the [__esModule] marker set to
    true; and last, for every unit, the exports of the names the caller
    asked for. *)
Theorem C8_footer_order :
  forall (Host : Type) (eval_expression : node -> Host -> result (value * Host))
         cwd options code id ast h st,
    transform_state eval_expression cwd options code id ast h = Ok st ->
    hasExports st = true ->
    MagicString.outro (s st)
    = (if hasESDefaultExport st then ""
       else if isESModule st then es_default_export_text else default_export_text)
        +:+ (if isESModule st
             then names_text ast (exported st) +:+ es_marker_text else "")
        +:+ (match requested_names cwd options id with
             | Some names => names_text ast names
             | None => ""
             end).
Proof.
  intros Host ev cwd options code id ast h st H He.
  apply transform_state_Ok in H as (st0 & _ & _ & _ & _ & _ & Hout & _).
  now rewrite Hout, He.
Qed.

(** Witness of C8: the unit [var dep = require('./dep.js'); ...]. *)
Lemma C8_footer_order_witness :
  exists st,
    Examples.run_state 10 None Examples.import_cjs_code "/project/main.js"
                       Examples.import_cjs_ast ∅ = Ok st /\
    hasExports st = true /\
    MagicString.outro (s st) = default_export_text.
Proof.
  destruct (Examples.run_state 10 None Examples.import_cjs_code "/project/main.js"
              Examples.import_cjs_ast ∅) as [st|e] eqn:E; [|vm_compute in E; discriminate].
  assert (He : hasExports st = true)
    by (vm_compute in E; injection E as <-; reflexivity).
  exists st. split; [reflexivity|]. split; [exact He|].
  rewrite (C8_footer_order JsEval.globals (JsEval.evaluate 10)
             "/project" None _ _ _ _ st E He).
  vm_compute in E. injection E as <-. reflexivity.
Defined.

(** C8, as stated, fails twice.  In a transpiled ES module for which the
    caller asked for the name [extra], the [__esModule] marker is not last:
    the export of [extra] comes after it.  In a unit with exports that is
    not a transpiled ES module, no marker is emitted at all. *)
Lemma C8_counterexample :
  let asked := Some (mkOptions (Some {[ "main.js" := ["extra"] ]})) in
  (exists st,
      Examples.run_state 10 asked Examples.es_module_code "/project/main.js"
                         Examples.es_module_ast ∅ = Ok st /\
      hasExports st = true /\ isESModule st = true /\
      MagicString.outro (s st)
      = es_default_export_text
          +:+ export_var_text ["message"]
          +:+ es_marker_text
          +:+ export_var_text ["extra"]) /\
  (exists st,
      Examples.run_state 10 None Examples.import_cjs_code "/project/main.js"
                         Examples.import_cjs_ast ∅ = Ok st /\
      hasExports st = true /\ isESModule st = false /\
      MagicString.outro (s st) = default_export_text).
Proof.
  intros asked. split.
  - destruct (Examples.run_state 10 asked Examples.es_module_code "/project/main.js"
                Examples.es_module_ast ∅) as [st|e] eqn:E; [|vm_compute in E; discriminate].
    exists st. split; [reflexivity|].
    vm_compute in E. injection E as <-. repeat split.
  - destruct (Examples.run_state 10 None Examples.import_cjs_code "/project/main.js"
                Examples.import_cjs_ast ∅) as [st|e] eqn:E; [|vm_compute in E; discriminate].
    exists st. split; [reflexivity|].
    vm_compute in E. injection E as <-. repeat split.
Qed.

(** C9 (amended).  A unit without exports gets nothing after its text,
    whatever names the caller asked for.  In a unit with exports, the names
    exported are first the [exports.NAME] candidates of a transpiled ES
    module -- without [default], each once, in the order of their first
    write -- and then, after the marker and by a call of their own, the
    names the caller asked for this file; [exportNames] re-exports in one
    [export { ... }] statement those of the names for which a statement of
    the program body is a variable declaration with a declarator of that
    name or a function or class declaration of that name, and declares and
    exports a variable initialised from [__exports.NAME] for each of the
    others; it does so without throwing on every program whose
    declarations have their identifiers. *)
Theorem C9_named_exports :
  (forall (Host : Type) (eval_expression : node -> Host -> result (value * Host))
          cwd options code id ast h st',
      transform_state eval_expression cwd options code id ast h = Ok st' ->
      exists st,
        walk (enter eval_expression) leave ast (initial_state code h) = Ok st /\
        hasExports st' = hasExports st /\
        (hasExports st' = false ->
           exported st' = exported st /\ MagicString.outro (s st') = "") /\
        (hasExports st' = true ->
           exported st'
           = (if isESModule st then exported_names (exported st) else exported st) /\
           MagicString.outro (s st')
           = default_export_part st'
               +:+ (if isESModule st
                    then names_text ast (exported_names (exported st))
                           +:+ es_marker_text
                    else "")
               +:+ (match requested_names cwd options id with
                    | Some names => names_text ast names
                    | None => ""
                    end))) /\
  (forall l,
      exported_names l
      = List.filter (fun e => negb (String.eqb e "default")) (unique_in_order [] l) /\
      List.NoDup (exported_names l) /\
      (forall x, In x (exported_names l) <-> In x l /\ x <> "default")) /\
  (forall ast names s,
      declarations_have_ids ast -> exists s', exportNames ast names s = Ok s') /\
  (forall ast names s s',
      exportNames ast names s = Ok s' ->
      let topLevelNames := List.filter (declared ast) names in
      let otherNames := List.filter (fun name => negb (declared ast name)) names in
      MagicString.intro s' = MagicString.intro s /\
      MagicString.chunks s' = MagicString.chunks s /\
      MagicString.outro s'
      = MagicString.outro s
          +:+ (if 0 <? length topLevelNames then export_list_text topLevelNames else "")
          +:+ (if 0 <? length otherNames then export_var_text otherNames else "") /\
      (forall name, In name names ->
         (In name topLevelNames <->
            exists d, In d (children_at "body" ast) /\ declares name d) /\
         (In name otherNames <->
            ~ exists d, In d (children_at "body" ast) /\ declares name d))).
Proof.
  split; [|split; [|split]].
  - intros Host ev cwd options code id ast h st' H.
    apply transform_state_Ok in H as (st & Hw & _ & Hex & Hes & _ & Hout & Hexp).
    exists st. split; [exact Hw|]. split; [exact Hex|]. split.
    + intros He. rewrite He in Hex, Hout. rewrite <- Hex in Hexp.
      cbn [andb] in Hexp. auto.
    + intros He. rewrite He in Hex, Hout. rewrite <- Hex in Hexp.
      cbn [andb] in Hexp. split; [exact Hexp|].
      rewrite Hout. unfold footer_text, candidates_part, requested_part.
      rewrite Hes, Hexp. now destruct (isESModule st).
  - apply exported_names_spec.
  - intros ast names s0. apply exportNames_total.
  - intros ast names s0 s' H topLevelNames otherNames.
    pose proof (exportNames_Ok ast names s0 s' H) as (Hi & Ho & Hc & Hall).
    split; [exact Hi|]. split; [exact Hc|]. split.
    + rewrite Ho. reflexivity.
    + intros name Hin. destruct (Hall name Hin) as (b & Hb).
      pose proof (findTopLevelDeclaration_spec ast name b Hb) as Hspec.
      unfold topLevelNames, otherNames. rewrite !filter_In.
      unfold declared. rewrite Hb. split.
      * rewrite <- Hspec. tauto.
      * rewrite <- Hspec. rewrite negb_true_iff. destruct b; intuition congruence.
Qed.

(** Witness of C9: a transpiled ES module whose candidates are [default],
    [message] and [message] again and for which the caller asks [extra],
    and a unit with a top-level variable, class and function for which
    four names are asked. *)
Lemma C9_named_exports_witness :
  let names := ["message"; "Message"; "other"; "greet"] in
  let options := Some (mkOptions (Some {[ "main.js" := ["extra"] ]})) in
  (exists st',
      Examples.run_state 10 options Examples.es_module_code "/project/main.js"
                         Examples.es_module_ast ∅ = Ok st' /\
      hasExports st' = true /\
      exported st' = ["message"] /\
      MagicString.outro (s st')
      = es_default_export_text
          +:+ export_var_text ["message"] +:+ es_marker_text
          +:+ export_var_text ["extra"]) /\
  (exists s',
      exportNames Examples.top_level_ast names (MagicString.new Examples.top_level_code)
      = Ok s' /\
      MagicString.outro s'
      = "" +:+ export_list_text ["message"; "Message"; "greet"]
           +:+ export_var_text ["other"]).
Proof.
  intros names options. split.
  - destruct (Examples.run_state 10 options Examples.es_module_code "/project/main.js"
                Examples.es_module_ast ∅) as [st'|e] eqn:E; [|vm_compute in E; discriminate].
    assert (He : hasExports st' = true)
      by (vm_compute in E; injection E as <-; reflexivity).
    assert (Hx : exported st' = ["message"])
      by (vm_compute in E; injection E as <-; reflexivity).
    exists st'. split; [reflexivity|]. split; [exact He|]. split; [exact Hx|].
    destruct (proj1 C9_named_exports JsEval.globals (JsEval.evaluate 10)
                "/project" options _ _ _ _ st' E) as (st & Hw & _ & _ & Hout).
    rewrite (proj2 (Hout He)). vm_compute in Hw. injection Hw as <-.
    vm_compute in E. injection E as <-. reflexivity.
  - destruct (exportNames Examples.top_level_ast names
                (MagicString.new Examples.top_level_code)) as [s'|e] eqn:E;
      [|vm_compute in E; discriminate].
    exists s'. split; [reflexivity|].
    destruct (proj2 (proj2 (proj2 C9_named_exports)) Examples.top_level_ast names
                (MagicString.new Examples.top_level_code) s' E) as (_ & _ & Ho & _).
    rewrite Ho. by_computation.
Defined.

(** C9, as stated, fails twice.  A unit without exports exports none of
    the names the caller asks for: [var x = 1;] with [x] requested comes
    out as it went in.  And the two lists are not merged: a name that is a
    candidate and is also asked for by the caller is exported twice. *)
Lemma C9_counterexample :
  let asks := fun names => Some (mkOptions (Some {[ "main.js" := names ]})) in
  requested_names "/project" (asks ["x"]) "/project/main.js" = Some ["x"] /\
  declared Examples.no_exports_ast "x" = true /\
  Examples.run 10 (asks ["x"]) Examples.no_exports_code "/project/main.js"
               Examples.no_exports_ast ∅
  = Ok (Some Examples.no_exports_code) /\
  Examples.run 10 (asks ["message"]) Examples.es_module_code "/project/main.js"
               Examples.es_module_ast ∅
  = Ok (Some (exports_declaration_text
        +:+ "__exports['__esModule'] = true; __exports.default = 123; "
        +:+ "__exports.message = 'hi'; __exports.message = 'ho';"
        +:+ es_default_export_text
        +:+ export_var_text ["message"] +:+ es_marker_text
        +:+ export_var_text ["message"])).
Proof.
  intros asks. repeat split; by_computation.
Qed.
(* ===================================================================== *)
(** ** Branch evaluation *)
(* ===================================================================== *)

Lemma op_is_true op x : JsEval.op_is op x = true -> op = Some x.
Proof.
  destruct op as [y|]; simpl; [|discriminate]. intros H.
  apply String.eqb_eq in H. now subst.
Qed.

(** The evaluation of a test that compares two literals of one type ends
    at every fuel from 2 on, with the truth value of the comparison and in
    the world it started in. *)
Lemma evaluate_literal_comparison t b fuel (g : JsEval.globals) :
  literal_comparison t = Some b -> 2 <= fuel ->
  JsEval.evaluate fuel t g = Ok (VBool b, g).
Proof.
  unfold literal_comparison. intros H Hf.
  destruct (has_type "BinaryExpression" t) eqn:Ht; [|discriminate].
  destruct (child "left" t) as [l|] eqn:Hl; [|discriminate].
  destruct (child "right" t) as [r|] eqn:Hr; [|discriminate].
  destruct (has_type "Literal" l) eqn:Hll; [|discriminate].
  destruct (has_type "Literal" r) eqn:Hlr; [|discriminate]. cbn [andb] in H.
  destruct (node_value l) as [a|] eqn:Ha; [|discriminate].
  destruct (node_value r) as [c|] eqn:Hc; [|now destruct a].
  destruct fuel as [|[|fuel]]; [lia | lia |].
  cbn [JsEval.evaluate].
  rewrite (has_type_other _ "Literal" _ Ht) by discriminate.
  rewrite (has_type_other _ "Identifier" _ Ht) by discriminate.
  rewrite Ht, Hl, Hr, Hll, Hlr, Ha, Hc.
  unfold compare_literals in H. unfold JsEval.literal_value, JsEval.binop.
  destruct a as [x|x|x| |p q|x x'| |x], c as [y|y|y| |p' q'|y y'| |y];
    try discriminate H;
    try (destruct (JsEval.safe_integer x); [|discriminate H]);
    try (destruct (JsEval.safe_integer y); [|discriminate H]);
    cbn [andb bind] in *;
    repeat match type of H with
           | context [JsEval.op_is ?o ?s] =>
               let E := fresh "E" in
               destruct (JsEval.op_is o s) eqn:E;
               [apply op_is_true in E; rewrite E in *; clear E;
                cbn [JsEval.op_is String.eqb Ascii.eqb Bool.eqb orb] in *
               |cbn [orb] in H]
           end;
    try discriminate H; injection H as <-; reflexivity.
Qed.

(** The transform depends on [eval] only through the branch evaluation of
    the qualifying conditionals of the unit. *)
Section evaluators.
Context {Host : Type}.
Variables ev1 ev2 : node -> Host -> result (value * Host).
Variable ast : node.
Hypothesis same_branches : forall p h,
  In p (nodes ast) -> qualifying p = Ok true ->
  eval_branch ev1 p h = eval_branch ev2 p h.

Lemma shouldInclude_ext anc nd h :
  Forall (fun a => In a (nodes ast)) anc ->
  shouldInclude ev1 anc nd h = shouldInclude ev2 anc nd h.
Proof.
  induction 1 as [|p anc Hp _ IH]; simpl; [reflexivity|].
  destruct (qualifying p) as [[|]|e] eqn:Hq; simpl; auto.
  unfold consult. now rewrite (same_branches p h Hp Hq).
Qed.

Lemma enter_ext nd parent (st : state Host) :
  Forall (fun a => In a (nodes ast)) (ancestors st) ->
  enter ev1 nd parent st = enter ev2 nd parent st.
Proof.
  intros Hanc. unfold enter.
  destruct (has_type "CallExpression" nd); [|reflexivity].
  assert (E : enter_CallExpression ev1 nd (located nd st)
              = enter_CallExpression ev2 nd (located nd st)).
  { unfold enter_CallExpression.
    destruct (req_child "callee" nd) as [callee|e]; simpl; [|reflexivity].
    destruct (name_is "require" callee); [|reflexivity].
    destruct (children_at "arguments" nd) as [|a [|a' l]]; try reflexivity.
    destruct (has_type "Literal" a); [|reflexivity].
    now rewrite (shouldInclude_ext _ nd _ Hanc). }
  now rewrite E.
Qed.

Lemma visit_ext n : forall parent (st : state Host),
  (forall m, In m (nodes n) -> In m (nodes ast)) ->
  Forall (fun a => In a (nodes ast)) (ancestors st) ->
  visit (enter ev1) leave n parent st = visit (enter ev2) leave n parent st.
Proof.
  induction n as [a fs IH] using node_ind'. intros parent st Hsub Hanc.
  rewrite !visit_eq, (enter_ext _ parent st Hanc).
  destruct (enter ev2 (Node a fs) parent st) as [st1|e] eqn:He; simpl; [|reflexivity].
  assert (Hanc1 : Forall (fun a0 => In a0 (nodes ast)) (ancestors st1)).
  { rewrite (enter_pushes ev2 _ _ _ _ He). apply Forall_app. split; [exact Hanc|].
    constructor; [|constructor]. apply Hsub, nodes_self. }
  assert (Hfs : forall k c m, In (k, c) fs -> In m (nodes c) -> In m (nodes ast)).
  { intros k c m Hkc Hm. apply Hsub. eapply nodes_field with (k := k) (c := c); eauto. }
  clear Hsub He Hanc.
  assert (Hc : visit_children (fun c => visit (enter ev1) leave c (Some (Node a fs))) fs st1
               = visit_children (fun c => visit (enter ev2) leave c (Some (Node a fs))) fs st1).
  { generalize (Some (Node a fs)) as self. intros self.
    revert st1 Hanc1.
    induction IH as [|[k c] fs' Hkc _ IHfs]; intros st1 Hanc1; simpl; [reflexivity|].
    simpl in Hkc. rewrite (Hkc self st1);
      [| intros m Hm; apply (Hfs k c m); [now left | exact Hm] | exact Hanc1].
    destruct (visit (enter ev2) leave c self st1) as [st2|e] eqn:Hv; simpl; [|reflexivity].
    apply IHfs.
    - intros k' c' m Hin. apply Hfs with k'. now right.
    - now rewrite (visit_restores_stack ev2 _ _ _ _ Hv). }
  now rewrite Hc.
Qed.

Lemma transform_state_ext cwd options code id h :
  transform_state ev1 cwd options code id ast h
  = transform_state ev2 cwd options code id ast h.
Proof.
  unfold transform_state, walk.
  rewrite visit_ext; [reflexivity | auto | constructor].
Qed.
End evaluators.

(** The loop [while (true) {}] never ends. *)
Lemma while_true_diverges k : forall g,
  JsEval.execute k Examples.looping_while g = Err OutOfFuel.
Proof.
  induction k as [|k IH]; intros g; [reflexivity|].
  destruct k as [|k']; [reflexivity|].
  change (JsEval.execute (S (S k')) Examples.looping_while g)
    with (let* (c, g2) :=
            JsEval.execute (S k') (Examples.at_ref Examples.looping_test_ast 8) g in
          match c with
          | JsEval.Normal => JsEval.execute (S k') Examples.looping_while g2
          | JsEval.Return v => Ok (JsEval.Return v, g2)
          end).
  change (JsEval.execute (S k') (Examples.at_ref Examples.looping_test_ast 8) g)
    with (Ok (JsEval.Normal, g) : result (JsEval.completion * JsEval.globals)).
  simpl bind. apply IH.
Qed.

(** Neither does the test that calls the function around it. *)
Lemma looping_test_diverges fuel g :
  JsEval.evaluate fuel Examples.looping_test g = Err OutOfFuel.
Proof.
  destruct fuel as [|[|[|k]]]; try reflexivity.
  change (JsEval.evaluate (S (S (S k))) Examples.looping_test g)
    with (let* (a, g1) :=
            (let* (c, g1) :=
               JsEval.execute (S k) (Examples.at_ref Examples.looping_test_ast 5) g in
             Ok (match c with JsEval.Normal => VUndefined | JsEval.Return v => v end, g1)) in
          let* (b, g2) :=
            JsEval.evaluate (S (S k)) (Examples.at_ref Examples.looping_test_ast 9) g1 in
          let* v := JsEval.binop (Some "==") a b in Ok (v, g2)).
  destruct k as [|k]; [reflexivity|].
  change (JsEval.execute (S (S k)) (Examples.at_ref Examples.looping_test_ast 5) g)
    with (let* (c, g1) := JsEval.execute (S k) Examples.looping_while g in
          match c with
          | JsEval.Normal => Ok (JsEval.Normal, g1)
          | JsEval.Return v => Ok (JsEval.Return v, g1)
          end).
  now rewrite while_true_diverges.
Qed.


(* ===================================================================== *)
(** ** The walk as a sequence of [enter] calls *)
(* ===================================================================== *)

Lemma entered_nodes n : forall parent, map fst (entered n parent) = nodes n.
Proof.
  induction n as [a fs IH] using node_ind'. intros parent. simpl. f_equal.
  generalize (Some (Node a fs)) as self. intros self.
  induction IH as [|[k c] fs' Hc _ IHfs]; simpl; [reflexivity|].
  rewrite map_app. simpl in Hc. now rewrite Hc, IHfs.
Qed.

Section walker_trace.
Context {St : Type}.
Variables enter leave : node -> option node -> St -> result St.
Variable P : node -> option node -> Prop.
Variable R : list (node * option node) -> St -> Prop.

Section partial.
Hypothesis enter_ok : forall tr n parent st st',
  P n parent -> R tr st -> enter n parent st = Ok st' -> R (tr ++ [(n, parent)]) st'.
Hypothesis leave_ok : forall tr n parent st st',
  P n parent -> R tr st -> leave n parent st = Ok st' -> R tr st'.

Lemma visit_trace n : forall parent tr st st',
  (forall m p, In (m, p) (entered n parent) -> P m p) ->
  R tr st -> visit enter leave n parent st = Ok st' ->
  R (tr ++ entered n parent) st'.
Proof.
  induction n as [a fs IH] using node_ind'. intros parent tr st st' HP Hst Hv.
  rewrite visit_eq in Hv.
  apply bind_Ok_inv in Hv as (st1 & He & Hv).
  apply bind_Ok_inv in Hv as (st2 & Hc & Hl).
  assert (Hself : P (Node a fs) parent) by (apply HP; simpl; auto).
  apply (enter_ok tr) in He; [|assumption..].
  cbn [entered]. 
  assert (Hkids : R ((tr ++ [(Node a fs, parent)])
                       ++ flat_map (fun kc => entered (snd kc) (Some (Node a fs))) fs) st2).
  { assert (Hfs : forall k c m p, In (k, c) fs ->
                                   In (m, p) (entered c (Some (Node a fs))) -> P m p).
    { intros k c m p Hkc Hm. apply HP. simpl. right.
      apply in_flat_map. exists (k, c); auto. }
    clear HP Hl Hself. revert Hc He Hfs.
    generalize (Some (Node a fs)) as self. generalize (tr ++ [(Node a fs, parent)]) as tr1.
    intros tr1 self. revert tr1 st1.
    induction IH as [|[k c] fs' Hkc _ IHfs]; intros tr1 st1 Hc He Hfs; simpl in Hc.
    - injection Hc as <-. simpl. now rewrite app_nil_r.
    - apply bind_Ok_inv in Hc as (st3 & Hv3 & Hc). simpl in Hkc.
      simpl. rewrite app_assoc. apply (IHfs _ st3); [exact Hc| |].
      + apply (Hkc self tr1 st1 st3); [|exact He|exact Hv3].
        intros m p Hm. apply (Hfs k c m p); [now left|exact Hm].
      + intros k' c' m p Hin. apply Hfs with k'. now right. }
  apply (leave_ok _ (Node a fs) parent st2 st') in Hkids; [|assumption..].
  now rewrite <- app_assoc in Hkids.
Qed.
End partial.

Section total.
Hypothesis enter_ok : forall tr n parent st,
  P n parent -> R tr st -> exists st', enter n parent st = Ok st' /\ R (tr ++ [(n, parent)]) st'.
Hypothesis leave_ok : forall tr n parent st,
  P n parent -> R tr st -> exists st', leave n parent st = Ok st' /\ R tr st'.

Lemma visit_trace_total n : forall parent tr st,
  (forall m p, In (m, p) (entered n parent) -> P m p) ->
  R tr st ->
  exists st', visit enter leave n parent st = Ok st' /\ R (tr ++ entered n parent) st'.
Proof.
  induction n as [a fs IH] using node_ind'. intros parent tr st HP Hst.
  rewrite visit_eq.
  assert (Hself : P (Node a fs) parent) by (apply HP; simpl; auto).
  destruct (enter_ok tr _ parent st Hself Hst) as (st1 & -> & He). cbn [bind entered].
  assert (Hkids : exists st2,
            visit_children (fun c => visit enter leave c (Some (Node a fs))) fs st1 = Ok st2 /\
            R ((tr ++ [(Node a fs, parent)])
                 ++ flat_map (fun kc => entered (snd kc) (Some (Node a fs))) fs) st2).
  { assert (Hfs : forall k c m p, In (k, c) fs ->
                                   In (m, p) (entered c (Some (Node a fs))) -> P m p).
    { intros k c m p Hkc Hm. apply HP. simpl. right.
      apply in_flat_map. exists (k, c); auto. }
    clear HP Hself. revert He Hfs.
    generalize (Some (Node a fs)) as self. generalize (tr ++ [(Node a fs, parent)]) as tr1.
    intros tr1 self. revert tr1 st1.
    induction IH as [|[k c] fs' Hkc _ IHfs]; intros tr1 st1 He Hfs; simpl.
    - exists st1. now rewrite app_nil_r.
    - simpl in Hkc.
      destruct (Hkc self tr1 st1) as (st3 & -> & H3); [|exact He|].
      { intros m p Hm. apply (Hfs k c m p); [now left|exact Hm]. }
      cbn [bind]. rewrite app_assoc. apply IHfs; [exact H3|].
      intros k' c' m p Hin. apply Hfs with k'. now right. }
  destruct Hkids as (st2 & -> & H2). cbn [bind].
  destruct (leave_ok _ (Node a fs) parent st2 Hself H2) as (st' & -> & H').
  exists st'. split; [reflexivity|]. now rewrite <- app_assoc in H'.
Qed.
End total.
End walker_trace.

(* ===================================================================== *)
(** ** The export bookkeeping *)
(* ===================================================================== *)

(** What one [enter] step does to the export bookkeeping. *)
Section bookkeeping.
Context {Host : Type}.
Variable eval_expression : node -> Host -> result (value * Host).

Lemma enter_CallExpression_exports nd (st st' : state Host) :
  enter_CallExpression eval_expression nd st = Ok st' -> same_exports st st'.
Proof.
  unfold enter_CallExpression, same_exports. intros H.
  apply bind_Ok_inv in H as (callee & _ & H).
  destruct (name_is "require" callee); [|injection H as <-; auto].
  destruct (children_at "arguments" nd) as [|a [|a' l]]; try (injection H as <-; auto).
  destruct (has_type "Literal" a); [|injection H as <-; auto].
  apply bind_Ok_inv in H as ([include h'] & _ & H).
  destruct include; [|injection H as <-; auto].
  unfold rewrite_require in H.
  apply bind_Ok_inv in H as (s1 & _ & H). injection H as <-. auto.
Qed.

Lemma enter_AssignmentExpression_exports nd (st st' : state Host) :
  has_type "AssignmentExpression" nd = true ->
  enter_AssignmentExpression nd st = Ok st' ->
  isESModule st' = isESModule st /\
  hasESDefaultExport st' = hasESDefaultExport st /\
  exported st' = exported st ++ exported_candidate nd /\
  hasExports st' = hasExports st || assigns_exports nd.
Proof.
  unfold enter_AssignmentExpression, exported_candidate, assigns_exports, req_child.
  intros -> H. cbn [andb].
  destruct (child "left" nd) as [left_|]; [|discriminate]. cbn [bind] in H.
  destruct (has_type "MemberExpression" left_);
    [|injection H as <-; now rewrite app_nil_r, orb_false_r].
  cbn [andb].
  destruct (child "object" left_) as [object|];
    [|cbn [bind] in H; injection H as <-; now rewrite app_nil_r, orb_false_r].
  apply bind_Ok_inv in H as (st1 & H1 & H).
  assert (E1 : isESModule st1 = isESModule st /\
               hasESDefaultExport st1 = hasESDefaultExport st /\
               exported st1 = exported st /\
               hasExports st1
               = hasExports st
                 || (name_is "module" object &&
                     match child "property" left_ with
                     | Some property =>
                         name_is "exports" property || value_is "exports" property
                     | None => false
                     end)).
  { destruct (name_is "module" object); cbn [andb];
      [|injection H1 as <-; now rewrite orb_false_r].
    destruct (child "property" left_) as [property|];
      [|injection H1 as <-; now rewrite orb_false_r].
    destruct (_ || _); [|injection H1 as <-; now rewrite orb_false_r].
    apply bind_Ok_inv in H1 as (s1 & _ & H1). injection H1 as <-. simpl.
    now rewrite orb_true_r. }
  destruct E1 as (Ea & Eb & Ec & Ed). clear H1.
  destruct (name_is "exports" object).
  - apply bind_Ok_inv in H as (s1 & _ & H).
    rewrite !orb_true_r.
    destruct (child "property" left_) as [property|];
      [destruct (node_name property) as [name|];
       [destruct (negb (String.eqb name ""))|]|];
      injection H as <-; simpl; rewrite ?app_nil_r; repeat split; congruence.
  - injection H as <-. rewrite app_nil_r, orb_false_r. auto.
Qed.

Lemma enter_exports_exports nd parent (st st' : state Host) :
  has_type "Identifier" nd && name_is "exports" nd = true ->
  enter_exports nd parent st = Ok st' ->
  isESModule st' = isESModule st /\
  hasESDefaultExport st' = hasESDefaultExport st /\
  exported st' = exported st /\
  hasExports st' = hasExports st || mentions_exports nd parent.
Proof.
  unfold enter_exports, mentions_exports. intros -> H. cbn [andb].
  destruct parent as [p|]; [|discriminate].
  destruct (child "object" p) as [object|]; [destruct (same_node object nd)|];
    try (injection H as <-; now rewrite orb_false_r);
    apply bind_Ok_inv in H as (s1 & _ & H); injection H as <-; simpl;
    now rewrite orb_true_r.
Qed.

Lemma enter_bookkeeping nd parent (st st' : state Host) :
  enter eval_expression nd parent st = Ok st' ->
  isESModule st' = isESModule st || marks_es_module nd /\
  hasESDefaultExport st'
  = hasESDefaultExport st || has_type "ExportDefaultDeclaration" nd /\
  exported st' = exported st ++ exported_candidate nd /\
  hasExports st' = hasExports st || (assigns_exports nd || mentions_exports nd parent).
Proof.
  unfold enter. intros H.
  apply bind_Ok_inv in H as (st1 & H1 & H).
  apply bind_Ok_inv in H as (st2 & H2 & H).
  apply bind_Ok_inv in H as (st3 & H3 & H).
  injection H as <-.
  assert (E1 : same_exports st st1).
  { destruct (has_type "CallExpression" nd).
    - apply enter_CallExpression_exports in H1. exact H1.
    - injection H1 as <-. unfold same_exports. auto. }
  destruct E1 as (A1 & B1 & C1 & D1).
  assert (E2 : isESModule st2 = isESModule st1 /\
               hasESDefaultExport st2 = hasESDefaultExport st1 /\
               exported st2 = exported st1 ++ exported_candidate nd /\
               hasExports st2 = hasExports st1 || assigns_exports nd).
  { destruct (has_type "AssignmentExpression" nd) eqn:Ha.
    - now apply enter_AssignmentExpression_exports.
    - injection H2 as <-. unfold exported_candidate, assigns_exports. rewrite Ha.
      now rewrite app_nil_r, orb_false_r. }
  destruct E2 as (A2 & B2 & C2 & D2).
  assert (E3 : isESModule st3 = isESModule st2 /\
               hasESDefaultExport st3 = hasESDefaultExport st2 /\
               exported st3 = exported st2 /\
               hasExports st3 = hasExports st2 || mentions_exports nd parent).
  { destruct (has_type "Identifier" nd && name_is "exports" nd) eqn:Hi.
    - now apply enter_exports_exports.
    - injection H3 as <-. unfold mentions_exports. rewrite Hi.
      now rewrite orb_false_r. }
  destruct E3 as (A3 & B3 & C3 & D3).
  unfold marks_es_module.
  destruct (has_type "Literal" nd && value_is "__esModule" nd),
           (has_type "ExportDefaultDeclaration" nd); simpl;
    rewrite ?orb_true_r, ?orb_false_r, ?A3, ?A2, ?A1, ?B3, ?B2, ?B1, ?C3, ?C2, ?C1,
            ?D3, ?D2, ?D1, ?orb_assoc; auto.
Qed.

(** Over a walk the bookkeeping is the accumulation of the steps, in the
    order the nodes are entered. *)
Lemma visit_bookkeeping n parent (st st' : state Host) :
  visit (enter eval_expression) leave n parent st = Ok st' ->
  isESModule st' = isESModule st || existsb marks_es_module (nodes n) /\
  hasESDefaultExport st'
  = hasESDefaultExport st || existsb (has_type "ExportDefaultDeclaration") (nodes n) /\
  exported st' = exported st ++ flat_map exported_candidate (nodes n) /\
  hasExports st'
  = hasExports st
    || existsb (fun np => assigns_exports (fst np) || mentions_exports (fst np) (snd np))
               (entered n parent).
Proof.
  intros H.
  apply (visit_trace (enter eval_expression) leave (fun _ _ => True)
           (fun tr st1 =>
              isESModule st1 = isESModule st || existsb marks_es_module (map fst tr) /\
              hasESDefaultExport st1
              = hasESDefaultExport st
                || existsb (has_type "ExportDefaultDeclaration") (map fst tr) /\
              exported st1 = exported st ++ flat_map exported_candidate (map fst tr) /\
              hasExports st1
              = hasExports st
                || existsb (fun np => assigns_exports (fst np)
                                      || mentions_exports (fst np) (snd np)) tr))
    with (tr := []) in H.
  - simpl in H. now rewrite entered_nodes in H.
  - intros tr m p st1 st2 _ (A & B & C & D) He.
    apply enter_bookkeeping in He as (A' & B' & C' & D').
    rewrite map_app, !existsb_app, flat_map_app. simpl.
    rewrite A', B', C', D', A, B, C, D.
    rewrite !orb_false_r, app_nil_r, <- !orb_assoc, <- app_assoc. auto.
  - intros tr m p st1 st2 _ HR Hl. injection Hl as <-. exact HR.
  - auto.
  - simpl. now rewrite !orb_false_r, app_nil_r.
Qed.
End bookkeeping.

(* ===================================================================== *)
(** ** Whole units *)
(* ===================================================================== *)

Section units.
Context {Host : Type}.
Variable eval_expression : node -> Host -> result (value * Host).
Variable cwd : string.
Variable options : option Options.

(** The emission sequence leaves the chunks, the host world and the flags
    read from the tree as the walk left them, and puts the declaration of
    [__exports] and the helper in front of what the walk inserted. *)
Lemma emission_frame code id ast h (st' : state Host) :
  transform_state eval_expression cwd options code id ast h = Ok st' ->
  exists st,
    walk (enter eval_expression) leave ast (initial_state code h) = Ok st /\
    isESModule st' = isESModule st /\
    hasESDefaultExport st' = hasESDefaultExport st /\
    hasExports st' = hasExports st /\
    importIndex st' = importIndex st /\
    host st' = host st /\
    MagicString.chunks (s st') = MagicString.chunks (s st) /\
    MagicString.intro (s st')
    = (if hasExports st then exports_declaration_text else "")
        +:+ (if hasImports st then interop_helper_text else "")
        +:+ MagicString.intro (s st).
Proof.
  unfold transform_state. intros H.
  apply bind_Ok_inv in H as (st & Hw & H). exists st. split; [exact Hw|].
  assert (Hi : isESModule (emit_interop st) = isESModule st /\
               hasESDefaultExport (emit_interop st) = hasESDefaultExport st /\
               hasExports (emit_interop st) = hasExports st /\
               importIndex (emit_interop st) = importIndex st /\
               host (emit_interop st) = host st /\
               MagicString.chunks (s (emit_interop st)) = MagicString.chunks (s st) /\
               MagicString.intro (s (emit_interop st))
               = (if hasImports st then interop_helper_text else "")
                   +:+ MagicString.intro (s st)).
  { unfold emit_interop. destruct (hasImports st); simpl; repeat split; reflexivity. }
  destruct Hi as (A & B & C & I & D & E & F).
  destruct (hasExports st) eqn:He.
  - assert (Hhost : host st' = host (emit_interop st)).
    { unfold emit_exports in H. rewrite C in H.
      apply bind_Ok_inv in H as ([exported' s1] & _ & H).
      apply bind_Ok_inv in H as (s2 & _ & H). now injection H as <-. }
    apply emit_exports_Ok in H as (Hin & _ & Hc & Hidx & Hex & Hes & Hd & _);
      [|congruence].
    split; [congruence|]. split; [congruence|]. split; [congruence|].
    split; [congruence|]. split; [congruence|]. split; [congruence|].
    now rewrite Hin, F.
  - rewrite emit_exports_none in H by congruence. injection H as <-.
    split; [exact A|]. split; [exact B|]. split; [congruence|].
    split; [exact I|]. split; [exact D|]. split; [exact E|]. exact F.
Qed.

Lemma enter_other_assignment nd left_ (st : state Host) :
  has_type "AssignmentExpression" nd = true ->
  child "left" nd = Some left_ -> assigns_exports nd = false ->
  enter_AssignmentExpression nd st = Ok st.
Proof.
  unfold enter_AssignmentExpression, assigns_exports, req_child.
  intros -> ->. cbn [andb bind].
  destruct (has_type "MemberExpression" left_); [|reflexivity]. cbn [andb].
  destruct (child "object" left_) as [object|]; [|reflexivity].
  destruct (name_is "exports" object); [now rewrite orb_true_r|].
  rewrite orb_false_r.
  destruct (name_is "module" object); [|reflexivity]. cbn [andb].
  destruct (child "property" left_) as [property|]; [|reflexivity].
  now intros ->.
Qed.

Lemma enter_passed_over nd parent (st : state Host) :
  passed_over nd parent ->
  exists st',
    enter eval_expression nd parent st = Ok st' /\
    MagicString.chunks (s st') = MagicString.chunks (s st) /\
    MagicString.intro (s st') = MagicString.intro (s st) /\
    MagicString.outro (s st') = MagicString.outro (s st) /\
    hasExports st' = hasExports st /\ hasImports st' = hasImports st /\
    host st' = host st.
Proof.
  intros (Hcall & Hassign & Hident). unfold enter.
  assert (E1 : (if has_type "CallExpression" nd
                then enter_CallExpression eval_expression nd (located nd st)
                else Ok (located nd st)) = Ok (located nd st)).
  { destruct (has_type "CallExpression" nd); [|reflexivity].
    destruct Hcall as (Hcallee & Hrla); [reflexivity|].
    destruct (child "callee" nd) as [callee|] eqn:Ec; [|congruence].
    now apply enter_other_call with callee. }
  rewrite E1. cbn [bind].
  assert (E2 : (if has_type "AssignmentExpression" nd
                then enter_AssignmentExpression nd (located nd st)
                else Ok (located nd st)) = Ok (located nd st)).
  { destruct (has_type "AssignmentExpression" nd) eqn:Ha; [|reflexivity].
    destruct Hassign as (Hleft & Hno); [reflexivity|].
    destruct (child "left" nd) as [left_|] eqn:El; [|congruence].
    now apply enter_other_assignment with left_. }
  rewrite E2. cbn [bind].
  assert (E3 : (if has_type "Identifier" nd && name_is "exports" nd
                then enter_exports nd parent (located nd st)
                else Ok (located nd st)) = Ok (located nd st)).
  { destruct (has_type "Identifier" nd && name_is "exports" nd); [|reflexivity].
    destruct Hident as (p & object & -> & Ho & Hs); [reflexivity|].
    unfold enter_exports. now rewrite Ho, Hs. }
  rewrite E3. cbn [bind].
  eexists. split; [reflexivity|].
  destruct (has_type "Literal" nd && value_is "__esModule" nd),
           (has_type "ExportDefaultDeclaration" nd); simpl; repeat split; reflexivity.
Qed.

Lemma body_new code : MagicString.body (MagicString.new code) = code.
Proof. unfold MagicString.body. simpl. apply append_empty_r. Qed.

(** A unit in which nothing is to be rewritten is walked to the end and
    comes out as it went in. *)
Lemma walk_passed_over code ast h :
  (forall m p, In (m, p) (entered ast None) -> passed_over m p) ->
  exists st,
    walk (enter eval_expression) leave ast (initial_state code h) = Ok st /\
    MagicString.chunks (s st) = MagicString.chunks (MagicString.new code) /\
    MagicString.intro (s st) = "" /\ MagicString.outro (s st) = "" /\
    hasExports st = false /\ hasImports st = false /\ host st = h.
Proof.
  intros HP. unfold walk.
  set (R := fun (_ : list (node * option node)) (st : state Host) =>
              MagicString.chunks (s st) = MagicString.chunks (MagicString.new code) /\
              MagicString.intro (s st) = "" /\ MagicString.outro (s st) = "" /\
              hasExports st = false /\ hasImports st = false /\ host st = h).
  assert (Henter : forall tr m p (st : state Host),
             passed_over m p -> R tr st ->
             exists st', enter eval_expression m p st = Ok st' /\ R (tr ++ [(m, p)]) st').
  { intros tr m p st Hm (A & B & C & D & E & F).
    destruct (enter_passed_over m p st Hm) as (st' & He & A' & B' & C' & D' & E' & F').
    exists st'. split; [exact He|]. unfold R. repeat split; congruence. }
  assert (Hleave : forall tr m p (st : state Host),
             passed_over m p -> R tr st ->
             exists st', leave m p st = Ok st' /\ R tr st').
  { intros tr m p st _ HR. eexists. split; [reflexivity|]. exact HR. }
  assert (H0 : R [] (initial_state code h)) by (unfold R; simpl; repeat split; reflexivity).
  destruct (visit_trace_total (enter eval_expression) leave passed_over R
              Henter Hleave ast None [] (initial_state code h) HP H0) as (st & Hv & HR).
  exists st. split; [exact Hv | exact HR].
Qed.

End units.

(** X1. A [.js] unit in which the walker meets no call of [require] on a
    single literal, no assignment to [module.exports] or to a member of
    [exports] and no free mention of [exports] comes out of [transform] as
    the very text that went in: nothing is overwritten, prepended or
    appended, no alias is numbered and the host environment is left as it
    was. *)
Theorem unit_without_commonjs_is_unchanged :
  forall (Host : Type) (eval_expression : node -> Host -> result (value * Host))
         extname cwd options code id ast h,
    extname id = ".js" ->
    (forall m p, In (m, p) (entered ast None) -> passed_over m p) ->
    transform eval_expression extname cwd options code id ast h = Ok (Some code) /\
    exists st,
      transform_state eval_expression cwd options code id ast h = Ok st /\
      host st = h /\ importIndex st = 0 /\ hasExports st = false.
Proof.
  intros Host ev extname cwd options code id ast h Hext HP.
  destruct (walk_passed_over ev code ast h HP) as (st & Hw & Hc & Hi & Ho & He & Hm & Hh).
  assert (Hidx : importIndex st = 0).
  { pose proof (walk_walking ev ast code h st Hw) as (_ & Hflag & _).
    rewrite Hm in Hflag. destruct (importIndex st); [reflexivity|discriminate]. }
  assert (Hts : transform_state ev cwd options code id ast h = Ok st).
  { unfold transform_state. rewrite Hw. cbn [bind].
    unfold emit_interop. rewrite Hm. now apply emit_exports_none. }
  split.
  - unfold transform. rewrite Hext. cbn [String.eqb negb]. 
    replace (String.eqb ".js" ".js") with true by reflexivity. cbn [negb].
    rewrite Hts. cbn [bind]. do 2 f_equal.
    unfold MagicString.toString, MagicString.body. rewrite Hi, Ho, Hc. simpl.
    now rewrite !append_empty_r.
  - exists st. auto.
Qed.

Section unconditional.
Context {Host : Type}.
Variable eval_expression : node -> Host -> result (value * Host).

Lemma enter_AssignmentExpression_host nd (st st' : state Host) :
  enter_AssignmentExpression nd st = Ok st' -> host st' = host st.
Proof.
  unfold enter_AssignmentExpression. intros H.
  apply bind_Ok_inv in H as (left_ & _ & H).
  destruct (has_type "MemberExpression" left_); [|now injection H as <-].
  apply bind_Ok_inv in H as (st1 & H1 & H).
  assert (E1 : host st1 = host st).
  { destruct (child "object" left_) as [object|]; [|now injection H1 as <-].
    destruct (name_is "module" object); [|now injection H1 as <-].
    destruct (child "property" left_) as [property|]; [|now injection H1 as <-].
    destruct (_ || _); [|now injection H1 as <-].
    apply bind_Ok_inv in H1 as (s1 & _ & H1). now injection H1 as <-. }
  rewrite <- E1.
  destruct (child "object" left_) as [object|]; [|now injection H as <-].
  destruct (name_is "exports" object); [|now injection H as <-].
  apply bind_Ok_inv in H as (s1 & _ & H).
  destruct (child "property" left_) as [property|];
    [destruct (node_name property) as [name|]; [destruct (negb _)|]|];
    now injection H as <-.
Qed.

Lemma enter_exports_host nd parent (st st' : state Host) :
  enter_exports nd parent st = Ok st' -> host st' = host st.
Proof.
  unfold enter_exports. intros H.
  destruct parent as [p|]; [|discriminate].
  destruct (child "object" p) as [object|]; [destruct (same_node object nd)|];
    try (now injection H as <-);
    apply bind_Ok_inv in H as (s1 & _ & H); now injection H as <-.
Qed.

(** With no qualifying conditional on the stack a call [require(literal)]
    is imported and nothing is evaluated. *)
Lemma enter_CallExpression_unconditional nd (st st' : state Host) :
  Forall (fun a => qualifying a = Ok false) (ancestors st) ->
  enter_CallExpression eval_expression nd st = Ok st' ->
  host st' = host st /\
  match require_literal_argument nd with
  | Some arg => one_import (literal_to_string (node_value arg)) st st'
  | None => no_import st st'
  end.
Proof.
  intros Hanc H.
  destruct (require_literal_argument nd) as [arg|] eqn:Harg.
  - rewrite (enter_require eval_expression nd arg st Harg) in H.
    rewrite (shouldInclude_none eval_expression _ nd _ Hanc) in H. cbn [bind] in H.
    replace (set_host (host st) st) with st in H by (now destruct st).
    split; [|now apply rewrite_require_import with nd].
    unfold rewrite_require in H. apply bind_Ok_inv in H as (s1 & _ & H).
    now injection H as <-.
  - unfold enter_CallExpression, require_literal_argument in *.
    apply bind_Ok_inv in H as (callee & Hc & H).
    unfold req_child in Hc. destruct (child "callee" nd) as [c|]; [|discriminate].
    injection Hc as ->.
    destruct (name_is "require" callee);
      [|injection H as <-; split; [reflexivity | apply no_import_refl]].
    destruct (children_at "arguments" nd) as [|a [|a' l]];
      try (injection H as <-; split; [reflexivity | apply no_import_refl]).
    destruct (has_type "Literal" a); [discriminate|].
    injection H as <-; split; [reflexivity | apply no_import_refl].
Qed.

Lemma enter_unconditional nd parent (st st' : state Host) :
  Forall (fun a => qualifying a = Ok false) (ancestors st) ->
  enter eval_expression nd parent st = Ok st' ->
  host st' = host st /\
  ancestors st' = ancestors st ++ [nd] /\
  importIndex st' = importIndex st + length (required_module nd) /\
  MagicString.intro (s st')
  = match required_module nd with
    | importee :: _ => import_text (tempImportName_of (importIndex st)) importee
    | [] => ""
    end +:+ MagicString.intro (s st).
Proof.
  intros Hanc H. pose proof H as Hpush. apply enter_pushes in Hpush.
  unfold enter in H.
  apply bind_Ok_inv in H as (st1 & H1 & H).
  apply bind_Ok_inv in H as (st2 & H2 & H).
  apply bind_Ok_inv in H as (st3 & H3 & H).
  injection H as <-.
  assert (F2 : no_import st1 st2 /\ host st2 = host st1).
  { destruct (has_type "AssignmentExpression" nd).
    - split; [now apply enter_AssignmentExpression_frame in H2
             | now apply enter_AssignmentExpression_host in H2].
    - injection H2 as <-. split; [apply no_import_refl | reflexivity]. }
  assert (F3 : no_import st2 st3 /\ host st3 = host st2).
  { destruct (_ && _).
    - split; [now apply enter_exports_frame in H3 | now apply enter_exports_host in H3].
    - injection H3 as <-. split; [apply no_import_refl | reflexivity]. }
  destruct F2 as ((_ & I2 & _ & N2 & _) & G2), F3 as ((_ & I3 & _ & N3 & _) & G3).
  assert (F1 : host st1 = host st /\
               importIndex st1 = importIndex st + length (required_module nd) /\
               MagicString.intro (s st1)
               = match required_module nd with
                 | importee :: _ =>
                     import_text (tempImportName_of (importIndex st)) importee
                 | [] => ""
                 end +:+ MagicString.intro (s st)).
  { unfold required_module.
    destruct (has_type "CallExpression" nd).
    - apply enter_CallExpression_unconditional in H1 as (G1 & F1); [|exact Hanc].
      destruct (require_literal_argument nd) as [arg|].
      + destruct F1 as (_ & I1 & _ & N1 & _). simpl in *.
        split; [exact G1|]. split; [lia | exact N1].
      + destruct F1 as (_ & I1 & _ & N1 & _). simpl in *.
        split; [exact G1|]. split; [lia | exact N1].
    - injection H1 as <-. simpl. split; [reflexivity|]. split; [lia | reflexivity]. }
  destruct F1 as (G1 & I1 & N1).
  split; [|split; [exact Hpush|]].
  - destruct (has_type "Literal" nd && value_is "__esModule" nd),
             (has_type "ExportDefaultDeclaration" nd); simpl; congruence.
  - destruct (has_type "Literal" nd && value_is "__esModule" nd),
             (has_type "ExportDefaultDeclaration" nd); simpl;
      (split; [congruence|]); rewrite N3, N2; exact N1.
Qed.

Lemma imports_block_snoc importee l :
  imports_block (importee :: l)
  = import_text (tempImportName_of (length l)) importee +:+ imports_block l.
Proof. reflexivity. Qed.

Lemma removelast_Forall {A} (Q : A -> Prop) l : Forall Q l -> Forall Q (removelast l).
Proof.
  induction 1 as [|x l Hx Hl IH]; simpl; [constructor|].
  destruct l; [constructor|]. constructor; [exact Hx | exact IH].
Qed.

Lemma visit_unconditional n parent (st st' : state Host) :
  (forall m, In m (nodes n) -> qualifying m = Ok false) ->
  Forall (fun a => qualifying a = Ok false) (ancestors st) ->
  visit (enter eval_expression) leave n parent st = Ok st' ->
  forall importees,
    length importees = importIndex st ->
    MagicString.intro (s st) = imports_block importees ->
    host st' = host st /\
    importIndex st' = length (rev (flat_map required_module (nodes n)) ++ importees) /\
    MagicString.intro (s st')
    = imports_block (rev (flat_map required_module (nodes n)) ++ importees).
Proof.
  intros HP Hanc Hv importees Hlen Hintro.
  set (mods := fun tr : list (node * option node) =>
                 rev (flat_map required_module (map fst tr)) ++ importees).
  set (R := fun (tr : list (node * option node)) (st1 : state Host) =>
              Forall (fun a => qualifying a = Ok false) (ancestors st1) /\
              host st1 = host st /\
              importIndex st1 = length (mods tr) /\
              MagicString.intro (s st1) = imports_block (mods tr)).
  assert (H : R ([] ++ entered n parent) st').
  { apply (visit_trace (enter eval_expression) leave
             (fun m _ => qualifying m = Ok false) R) with (st := st).
    - intros tr m p st1 st2 Hm (A & B & C & D) He.
      apply enter_unconditional in He as (B' & A' & C' & D'); [|exact A].
      assert (Hcase : required_module m = [] \/ exists x, required_module m = [x]).
      { unfold required_module. destruct (has_type "CallExpression" m);
          [destruct (require_literal_argument m)|]; eauto. }
      unfold R, mods in *. rewrite map_app, flat_map_app, rev_app_distr.
      cbn [map fst flat_map]. rewrite app_nil_r.
      split; [|split; [congruence|]].
      + rewrite A'. apply Forall_app. split; [exact A|]. now constructor.
      + rewrite C', D', C, D.
        destruct Hcase as [E | (x & E)]; rewrite E; cbn [rev app length imports_block].
        * split; [lia | reflexivity].
        * split; [lia | reflexivity].
    - intros tr m p st1 st2 _ (A & B & C & D) Hl. injection Hl as <-.
      unfold R. simpl. split; [now apply removelast_Forall | auto].
    - intros m p Hin. apply HP. rewrite <- (entered_nodes n parent).
      change m with (fst (m, p)). now apply in_map.
    - unfold R, mods. simpl. auto.
    - exact Hv. }
  destruct H as (_ & B & C & D). unfold mods in C, D. simpl in C, D.
  rewrite entered_nodes in C, D. auto.
Qed.
End unconditional.

(** X2. In a unit without an [if] statement whose test is a binary
    expression, every [require] call on a single literal is imported,
    whatever the evaluator would say: the number of aliases is the number
    of such calls, and the text put before the unit is the [__exports]
    declaration (if the unit has exports), the interop helper (if there is
    at least one import) and then one import statement per call, the last
    call of the walk first.  The host environment is never touched. *)
Theorem unconditional_requires_are_imported_in_order :
  forall (Host : Type) (eval_expression : node -> Host -> result (value * Host))
         cwd options code id ast h st,
    (forall m, In m (nodes ast) -> qualifying m = Ok false) ->
    transform_state eval_expression cwd options code id ast h = Ok st ->
    let modules := flat_map required_module (nodes ast) in
    importIndex st = length modules /\
    MagicString.intro (s st)
    = (if hasExports st then exports_declaration_text else "")
        +:+ (if 0 <? length modules then interop_helper_text else "")
        +:+ imports_block (rev modules) /\
    host st = h.
Proof.
  intros Host ev cwd options code id ast h st Hnq H modules.
  apply emission_frame in H as (st0 & Hw & _ & _ & Hex & Hidx & Hhost & _ & Hintro).
  pose proof (walk_walking ev ast code h st0 Hw) as (_ & Hflag & _).
  unfold walk in Hw.
  apply (visit_unconditional ev ast None _ _ Hnq) with (importees := []) in Hw
    as (Hh & Hi & Hin); try reflexivity; [|constructor].
  rewrite app_nil_r in Hi, Hin. fold modules in Hi, Hin.
  rewrite length_rev in Hi.
  split; [congruence|]. split; [|simpl in Hh; congruence].
  now rewrite Hintro, Hex, Hflag, Hi, Hin.
Qed.

(* ===================================================================== *)
(** ** Aliases and the key of the named exports *)
(* ===================================================================== *)

(* ---------- aliases ---------- *)

Lemma to_uint_not_nil n : Nat.to_uint n <> Decimal.Nil.
Proof.
  rewrite <- (Unsigned.of_to n) at 1. rewrite Unsigned.to_of. apply unorm_nonnil.
Qed.

Lemma decimal_inj i j : decimal i = decimal j -> i = j.
Proof.
  unfold decimal. intros H. apply Unsigned.to_uint_inj.
  pose proof (NilZero.usu _ (to_uint_not_nil i)) as Hi.
  pose proof (NilZero.usu _ (to_uint_not_nil j)) as Hj.
  rewrite H in Hi. congruence.
Qed.

Lemma tempImportName_of_inj i j : tempImportName_of i = tempImportName_of j -> i = j.
Proof.
  unfold tempImportName_of. intros H. apply decimal_inj.
  simpl in H. now injection H.
Qed.

(** X3. The alias [__require__import__N] determines its index: two
    aliases are the same text only for the same index, so the aliases
    numbered 0 .. n-1 of one unit are pairwise distinct. *)
Theorem import_aliases_are_distinct :
  (forall i j, tempImportName_of i = tempImportName_of j <-> i = j) /\
  (forall n, List.NoDup (map tempImportName_of (seq 0 n))).
Proof.
  split.
  - intros i j. split; [apply tempImportName_of_inj | now intros ->].
  - intros n. generalize (seq_NoDup n 0).
    induction 1 as [|i l Hi _ IH]; simpl; constructor; [|exact IH].
    intros Hin. apply in_map_iff in Hin as (j & E & Hj).
    apply tempImportName_of_inj in E. now subst j.
Qed.

(* ---------- the key of the named exports ---------- *)

Lemma prefix_append a b : String.prefix a (a +:+ b) = true.
Proof.
  induction a as [|c a IH]; [now destruct b|].
  change (String c a +:+ b) with (String c (a +:+ b)). simpl.
  destruct (ascii_dec c c); [exact IH | congruence].
Qed.

Lemma index_prefix a b : String.index 0 a (a +:+ b) = Some 0.
Proof.
  destruct (a +:+ b) as [|c r] eqn:E.
  - destruct a; [reflexivity | discriminate].
  - assert (Hp : String.prefix a (String c r) = true)
      by (rewrite <- E; apply prefix_append).
    cbn [String.index]. now rewrite Hp.
Qed.

Lemma substring_0_0 str : String.substring 0 0 str = "".
Proof. now destruct str. Qed.

Lemma substring_all str : String.substring 0 (String.length str) str = str.
Proof. induction str as [|c r IH]; simpl; [reflexivity | now rewrite IH]. Qed.

Lemma length_append a b : String.length (a +:+ b) = String.length a + String.length b.
Proof.
  induction a as [|c a IH]; [reflexivity|].
  change (String c a +:+ b) with (String c (a +:+ b)). simpl. now rewrite IH.
Qed.

Lemma substring_drop a b :
  String.substring (String.length a) (String.length b) (a +:+ b) = b.
Proof.
  induction a as [|c a IH]; [apply substring_all|].
  change (String c a +:+ b) with (String c (a +:+ b)). simpl. exact IH.
Qed.

Lemma replace_first_prefix a b : replace_first a "" (a +:+ b) = b.
Proof.
  unfold replace_first. rewrite index_prefix, substring_0_0.
  rewrite length_append. simpl.
  replace (String.length a + String.length b - String.length a)
    with (String.length b) by lia.
  apply substring_drop.
Qed.

Lemma substring_from_1_cons c r : substring_from_1 (String c r) = r.
Proof.
  unfold substring_from_1. simpl. rewrite Nat.sub_0_r. apply substring_all.
Qed.

Lemma backslashes_to_slashes_id str :
  String.index 0 "\" str = None -> backslashes_to_slashes str = str.
Proof.
  induction str as [|c r IH]; [reflexivity|].
  cbn [String.index String.prefix backslashes_to_slashes].
  destruct (ascii_dec "\" c) as [<-|Hne].
  - destruct r; discriminate.
  - destruct (String.index 0 "\" r); [discriminate|]. intros _.
    rewrite IH by reflexivity.
    destruct (Ascii.eqb c "\") eqn:E; [|reflexivity].
    apply Ascii.eqb_eq in E. congruence.
Qed.

(** X4. The key under which [options.namedExports] is looked up is the
    unit's id with the first occurrence of the working directory removed,
    backslashes turned into slashes and the first character dropped.  For
    an id made of the working directory, one separator and a path, the key
    is that path (with slashes); an id that does not contain the working
    directory only loses its first character; and a table entry stored
    under a slash-separated path is found for the unit at that path below
    the working directory. *)
Theorem named_exports_key_is_relative_to_cwd :
  (forall cwd sep rest,
      namedExportFile cwd (cwd +:+ String sep rest) = backslashes_to_slashes rest) /\
  (forall cwd file,
      String.index 0 "\" file = None ->
      namedExportFile cwd (cwd +:+ "/" +:+ file) = file /\
      namedExportFile cwd (cwd +:+ "\" +:+ file) = file) /\
  (forall cwd id,
      String.index 0 cwd id = None ->
      namedExportFile cwd id = substring_from_1 (backslashes_to_slashes id)) /\
  (forall cwd table file names,
      String.index 0 "\" file = None ->
      table !! file = Some names ->
      requested_names cwd (Some (mkOptions (Some table))) (cwd +:+ "/" +:+ file)
      = Some names).
Proof.
  assert (H1 : forall cwd sep rest,
             namedExportFile cwd (cwd +:+ String sep rest) = backslashes_to_slashes rest).
  { intros cwd sep rest. unfold namedExportFile.
    rewrite replace_first_prefix. cbn [backslashes_to_slashes].
    apply substring_from_1_cons. }
  assert (H2 : forall cwd file,
             String.index 0 "\" file = None ->
             namedExportFile cwd (cwd +:+ "/" +:+ file) = file /\
             namedExportFile cwd (cwd +:+ "\" +:+ file) = file).
  { intros cwd file Hf.
    change ("/" +:+ file) with (String "/" file).
    change ("\" +:+ file) with (String "\" file).
    rewrite !H1. now rewrite backslashes_to_slashes_id. }
  split; [exact H1|]. split; [exact H2|]. split.
  - intros cwd id Hi. unfold namedExportFile, replace_first. now rewrite Hi.
  - intros cwd table file names Hf Hl. unfold requested_names. simpl.
    destruct (H2 cwd file Hf) as (-> & _). exact Hl.
Qed.

Lemma exported_candidate_assigns nd :
  exported_candidate nd <> [] -> assigns_exports nd = true.
Proof.
  unfold exported_candidate, assigns_exports.
  destruct (has_type "AssignmentExpression" nd); [|congruence]. cbn [andb].
  destruct (child "left" nd) as [left_|]; [|congruence].
  destruct (has_type "MemberExpression" left_); [|congruence]. cbn [andb].
  destruct (child "object" left_) as [object|]; [|congruence].
  destruct (name_is "exports" object); [|congruence].
  intros _. apply orb_true_r.
Qed.

Lemma entered_In n parent m : In m (nodes n) -> exists p, In (m, p) (entered n parent).
Proof.
  rewrite <- (entered_nodes n parent). intros H.
  apply in_map_iff in H as ([m' p] & E & H). simpl in E. subst m'. eauto.
Qed.

(** X5. After the walk, [isESModule] is set exactly when some node of
    the unit is a [Literal] with the value ['__esModule'], and
    [hasESDefaultExport] exactly when some node is an
    [ExportDefaultDeclaration]. *)
Theorem es_module_is_recognised_by_its_marker_literal :
  forall (Host : Type) (eval_expression : node -> Host -> result (value * Host))
         cwd options code id ast h st,
    transform_state eval_expression cwd options code id ast h = Ok st ->
    isESModule st = existsb marks_es_module (nodes ast) /\
    hasESDefaultExport st
    = existsb (has_type "ExportDefaultDeclaration") (nodes ast).
Proof.
  intros Host ev cwd options code id ast h st H.
  apply emission_frame in H as (st0 & Hw & Hes & Hd & _).
  apply visit_bookkeeping in Hw as (A & B & _). simpl in A, B.
  split; congruence.
Qed.

(** X6. After the walk, [hasExports] is set exactly when the walker
    entered an assignment whose left side is a member of [module] (with the
    property [exports]) or of [exports], or an identifier [exports] that is
    not the property side of a member expression. *)
Theorem exports_are_detected_by_assignment_or_mention :
  forall (Host : Type) (eval_expression : node -> Host -> result (value * Host))
         cwd options code id ast h st,
    transform_state eval_expression cwd options code id ast h = Ok st ->
    hasExports st
    = existsb (fun np => assigns_exports (fst np) || mentions_exports (fst np) (snd np))
              (entered ast None).
Proof.
  intros Host ev cwd options code id ast h st H.
  apply emission_frame in H as (st0 & Hw & _ & _ & Hex & _).
  apply visit_bookkeeping in Hw as (_ & _ & _ & D). simpl in D. congruence.
Qed.

(** X7. The list [exported] holds the property names of the assignments
    to [exports.NAME], in the order of the walk; for a unit recognised as
    an ES module the emission step then drops [default] and repeated names.
    A unit with at least one such assignment has exports. *)
Theorem exported_candidates_follow_the_assignments :
  forall (Host : Type) (eval_expression : node -> Host -> result (value * Host))
         cwd options code id ast h st,
    transform_state eval_expression cwd options code id ast h = Ok st ->
    let candidates := flat_map exported_candidate (nodes ast) in
    exported st = (if isESModule st then exported_names candidates else candidates) /\
    (candidates <> [] -> hasExports st = true).
Proof.
  intros Host ev cwd options code id ast h st H candidates.
  pose proof (emission_frame ev cwd options code id ast h st H)
    as (st0 & Hw & Hes & _ & Hex & _).
  apply transform_state_Ok in H as (st1 & Hw1 & _ & _ & _ & _ & _ & Hexp).
  assert (st1 = st0) by congruence. subst st1.
  apply visit_bookkeeping in Hw as (_ & _ & C & D). simpl in C, D.
  fold candidates in C.
  assert (Hne : candidates <> [] -> hasExports st0 = true).
  { intros Hc. rewrite D. apply existsb_exists.
    destruct candidates as [|x l] eqn:E; [congruence|].
    assert (Hx : In x (flat_map exported_candidate (nodes ast)))
      by (fold candidates; rewrite E; now left).
    apply in_flat_map in Hx as (m & Hm & Hx).
    destruct (entered_In ast None m Hm) as (p & Hp).
    exists (m, p). split; [exact Hp|]. simpl.
    rewrite exported_candidate_assigns; [reflexivity|].
    intros E'. rewrite E' in Hx. contradiction. }
  split; [|rewrite Hex; exact Hne].
  rewrite Hexp, C, Hes.
  destruct (hasExports st0) eqn:He; [reflexivity|]. simpl.
  destruct candidates as [|x l]; [now destruct (isESModule st0)|].
  discriminate Hne. congruence.
Qed.

(* ===================================================================== *)
(** ** The older variant *)
(* ===================================================================== *)

(** The names that are not among those found at top level are those for
    which the search answers [false]. *)
Lemma filter_not_top_level ast names :
  List.filter (fun name => (indexOf name (List.filter (declared ast) names) =? -1)%Z) names
  = List.filter (fun name => negb (declared ast name)) names.
Proof.
  apply filter_ext_in. intros x Hx.
  destruct (declared ast x) eqn:Ed; simpl.
  - apply Z.eqb_neq. rewrite indexOf_absent. intros Hn. apply Hn.
    apply filter_In. auto.
  - apply Z.eqb_eq. rewrite indexOf_absent. intros Hn.
    apply filter_In in Hn as [_ Hn]. congruence.
Qed.

Section older_variant.
Context {Host : Type}.
Variable eval_expression : node -> Host -> result (value * Host).

Lemma older_frame_refl (st : IndexJs.state Host) : IndexJs.frame st st.
Proof. unfold IndexJs.frame. repeat split. Qed.

Lemma older_frame_trans (a b c : IndexJs.state Host) :
  IndexJs.frame a b -> IndexJs.frame b c -> IndexJs.frame a c.
Proof. unfold IndexJs.frame. intuition congruence. Qed.

Lemma older_enter_CallExpression nd (st st' : IndexJs.state Host) :
  IndexJs.enter_CallExpression eval_expression nd st = Ok st' ->
  IndexJs.hasExports st' = IndexJs.hasExports st /\
  (IndexJs.frame st st' \/
   exists arg, require_literal_argument nd = Some arg /\
               IndexJs.one_import (literal_to_string (node_value arg)) st st').
Proof.
  unfold IndexJs.enter_CallExpression, require_literal_argument, req_child. intros H.
  destruct (child "callee" nd) as [callee|]; [|discriminate]. cbn [bind] in H.
  destruct (name_is "require" callee);
    [|injection H as <-; split; [reflexivity | left; apply older_frame_refl]].
  destruct (children_at "arguments" nd) as [|a [|a' l]];
    try (injection H as <-; split; [reflexivity | left; apply older_frame_refl]).
  destruct (has_type "Literal" a);
    [|injection H as <-; split; [reflexivity | left; apply older_frame_refl]].
  apply bind_Ok_inv in H as ([include h'] & _ & H).
  destruct include;
    [|injection H as <-; split; [reflexivity | left; unfold IndexJs.frame; simpl; auto]].
  unfold IndexJs.rewrite_require in H.
  apply bind_Ok_inv in H as (s1 & Ho & H). injection H as <-.
  apply overwrite_frame in Ho as (Hi & Ho & _). simpl in *.
  split; [reflexivity|]. right. exists a. split; [reflexivity|].
  unfold IndexJs.one_import. simpl. rewrite Hi, Ho. repeat split.
Qed.

Lemma older_enter_AssignmentExpression nd (st st' : IndexJs.state Host) :
  has_type "AssignmentExpression" nd = true ->
  IndexJs.enter_AssignmentExpression nd st = Ok st' ->
  IndexJs.hasExports st' = IndexJs.hasExports st || IndexJs.assigns_exports nd /\
  IndexJs.host st' = IndexJs.host st /\
  IndexJs.frame st st'.
Proof.
  unfold IndexJs.enter_AssignmentExpression, IndexJs.assigns_exports, req_child.
  intros -> H. cbn [andb].
  destruct (child "left" nd) as [left_|]; [|discriminate]. cbn [bind] in H.
  destruct (has_type "MemberExpression" left_);
    [|injection H as <-; rewrite orb_false_r; auto using older_frame_refl].
  cbn [andb].
  destruct (child "object" left_) as [object|];
    [|cbn [bind] in H; injection H as <-; rewrite orb_false_r;
      auto using older_frame_refl].
  apply bind_Ok_inv in H as (st1 & H1 & H).
  assert (E1 : IndexJs.hasExports st1
               = IndexJs.hasExports st
                 || (name_is "module" object &&
                     match child "property" left_ with
                     | Some property => name_is "exports" property
                     | None => false
                     end) /\
               IndexJs.host st1 = IndexJs.host st /\
               IndexJs.frame st st1).
  { destruct (name_is "module" object); cbn [andb];
      [|injection H1 as <-; rewrite orb_false_r; auto using older_frame_refl].
    destruct (child "property" left_) as [property|];
      [|injection H1 as <-; rewrite orb_false_r; auto using older_frame_refl].
    destruct (name_is "exports" property);
      [|injection H1 as <-; rewrite orb_false_r; auto using older_frame_refl].
    apply bind_Ok_inv in H1 as (s1 & Ho & H1). injection H1 as <-.
    apply overwrite_frame in Ho as (Hi & Ho & _). simpl in *.
    rewrite orb_true_r. unfold IndexJs.frame. simpl. auto 10. }
  destruct E1 as (Ea & Eb & Ec).
  destruct (name_is "exports" object).
  - apply bind_Ok_inv in H as (s1 & Ho & H). injection H as <-.
    apply overwrite_frame in Ho as (Hi & Ho & _). simpl in *.
    rewrite !orb_true_r. split; [reflexivity|]. split; [exact Eb|].
    apply older_frame_trans with st1; [exact Ec|].
    unfold IndexJs.frame. simpl. auto.
  - injection H as <-. rewrite orb_false_r. auto.
Qed.

Lemma older_enter_exports nd parent (st st' : IndexJs.state Host) :
  IndexJs.enter_exports nd parent st = Ok st' ->
  IndexJs.hasExports st' = IndexJs.hasExports st /\
  IndexJs.host st' = IndexJs.host st /\
  IndexJs.frame st st'.
Proof.
  unfold IndexJs.enter_exports. intros H.
  destruct parent as [p|]; [|discriminate].
  destruct (child "object" p) as [object|]; [destruct (same_node object nd)|];
    try (injection H as <-; auto using older_frame_refl);
    apply bind_Ok_inv in H as (s1 & Ho & H); injection H as <-;
    apply overwrite_frame in Ho as (Hi & Ho & _); simpl in *;
    unfold IndexJs.frame; simpl; auto 10.
Qed.

(** One step of the older [enter]: the push, the flag of the exports, and
    at most one import. *)
Lemma older_enter nd parent (st st' : IndexJs.state Host) :
  IndexJs.enter eval_expression nd parent st = Ok st' ->
  IndexJs.ancestors st' = IndexJs.ancestors st ++ [nd] /\
  IndexJs.hasExports st' = IndexJs.hasExports st || IndexJs.assigns_exports nd /\
  MagicString.outro (IndexJs.s st') = MagicString.outro (IndexJs.s st) /\
  ((IndexJs.importIndex st' = IndexJs.importIndex st /\
    IndexJs.hasImports st' = IndexJs.hasImports st /\
    MagicString.intro (IndexJs.s st') = MagicString.intro (IndexJs.s st)) \/
   (exists arg,
      require_literal_argument nd = Some arg /\
      IndexJs.importIndex st' = S (IndexJs.importIndex st) /\
      IndexJs.hasImports st' = true /\
      MagicString.intro (IndexJs.s st')
      = import_text (tempImportName_of (IndexJs.importIndex st))
                    (literal_to_string (node_value arg))
          +:+ MagicString.intro (IndexJs.s st))).
Proof.
  unfold IndexJs.enter. intros H.
  apply bind_Ok_inv in H as (st1 & H1 & H).
  apply bind_Ok_inv in H as (st2 & H2 & H).
  apply bind_Ok_inv in H as (st3 & H3 & H).
  injection H as <-.
  assert (F2 : IndexJs.hasExports st2
               = IndexJs.hasExports st1 || IndexJs.assigns_exports nd /\
               IndexJs.frame st1 st2).
  { destruct (has_type "AssignmentExpression" nd) eqn:Ha.
    - apply older_enter_AssignmentExpression in H2 as (A & _ & B); auto.
    - injection H2 as <-. unfold IndexJs.assigns_exports. rewrite Ha.
      rewrite orb_false_r. auto using older_frame_refl. }
  assert (F3 : IndexJs.hasExports st3 = IndexJs.hasExports st2 /\ IndexJs.frame st2 st3).
  { destruct (_ && _).
    - apply older_enter_exports in H3 as (A & _ & B); auto.
    - injection H3 as <-. auto using older_frame_refl. }
  destruct F2 as (E2 & F2), F3 as (E3 & F3).
  pose proof (older_frame_trans _ _ _ F2 F3) as (Fa & Fi & Fh & Fin & Fout).
  simpl.
  destruct (has_type "CallExpression" nd).
  - apply older_enter_CallExpression in H1 as (E1 & [N | (arg & Harg & O)]).
    + destruct N as (Na & Ni & Nh & Nin & Nout). simpl in *.
      split; [congruence|]. split; [congruence|]. split; [congruence|].
      left. repeat split; congruence.
    + destruct O as (Oa & Oi & Oh & Oin & Oout). simpl in *.
      split; [congruence|]. split; [congruence|]. split; [congruence|].
      right. exists arg. repeat split; congruence.
  - injection H1 as <-. simpl in *.
    split; [congruence|]. split; [congruence|]. split; [congruence|].
    left. repeat split; congruence.
Qed.

Lemma older_walk ast code h st :
  walk (IndexJs.enter eval_expression) IndexJs.leave ast (IndexJs.initial_state code h)
  = Ok st ->
  IndexJs.walking (entered ast None) st.
Proof.
  unfold walk. intros H.
  apply (visit_trace (IndexJs.enter eval_expression) IndexJs.leave
           (fun _ _ => True) IndexJs.walking) with (tr := []) in H; auto.
  - intros tr m p st1 st2 _ ((importees & Hlen & Hintro) & Hflag & Hout & Hex) He.
    apply older_enter in He
      as (_ & He & Ho & [(Hi & Hh & Hin) | (arg & _ & Hi & Hh & Hin)]).
    + split; [|split; [congruence|split; [congruence|]]].
      * exists importees. split; congruence.
      * rewrite map_app, existsb_app. simpl. now rewrite He, Hex, orb_false_r.
    + split; [|split; [|split; [congruence|]]].
      * exists (literal_to_string (node_value arg) :: importees). split.
        -- simpl. congruence.
        -- simpl. rewrite Hin, Hlen, Hintro. reflexivity.
      * now rewrite Hh, Hi.
      * rewrite map_app, existsb_app. simpl. now rewrite He, Hex, orb_false_r.
  - intros tr m p st1 st2 _ HR Hl. injection Hl as <-. exact HR.
  - repeat split. exists []. split; reflexivity.
Qed.

End older_variant.

(** X8. The older variant (src/index.js) reads [options.namedExports]
    without checking [options]: called without options, it throws a
    [TypeError] on every unit that assigns to [module.exports] or to a
    member of [exports], and returns the rewritten text of every other unit
    whose walk succeeds. *)
Theorem older_variant_throws_without_options :
  forall (Host : Type) (eval_expression : node -> Host -> result (value * Host))
         extname cwd code id ast h st,
    extname id = ".js" ->
    walk (IndexJs.enter eval_expression) IndexJs.leave ast
         (IndexJs.initial_state code h) = Ok st ->
    (existsb IndexJs.assigns_exports (nodes ast) = true ->
       IndexJs.transform eval_expression extname cwd None code id ast h
       = Err (TypeError "namedExports")) /\
    (existsb IndexJs.assigns_exports (nodes ast) = false ->
       IndexJs.transform eval_expression extname cwd None code id ast h
       = Ok (Some (MagicString.toString (IndexJs.s (IndexJs.emit_interop st))))).
Proof.
  intros Host ev extname cwd code id ast h st Hext Hw.
  pose proof (older_walk ev ast code h st Hw) as (_ & _ & _ & Hex).
  rewrite entered_nodes in Hex.
  assert (Hex' : IndexJs.hasExports (IndexJs.emit_interop st)
                 = existsb IndexJs.assigns_exports (nodes ast)).
  { unfold IndexJs.emit_interop. now destruct (IndexJs.hasImports st). }
  unfold IndexJs.transform, IndexJs.transform_state. rewrite Hext.
  replace (negb (String.eqb ".js" ".js")) with false by reflexivity.
  rewrite Hw. cbn [bind]. unfold IndexJs.emit_exports. rewrite Hex'.
  split; intros ->; reflexivity.
Qed.

(** X9. The older variant sets [hasExports] exactly on the units that
    assign to [module.exports] or to a member of [exports] (a bare mention
    of [exports] does not count).  What it puts before the unit is the
    [__exports] declaration (with exports), the interop helper (with at
    least one import) and one import statement per alias; what it puts
    after the unit is, with exports, [export default __exports;] followed
    by the named exports requested for the unit, and nothing otherwise. *)
Theorem older_variant_output_structure :
  forall (Host : Type) (eval_expression : node -> Host -> result (value * Host))
         cwd options code id ast h st,
    IndexJs.transform_state eval_expression cwd options code id ast h = Ok st ->
    IndexJs.hasExports st = existsb IndexJs.assigns_exports (nodes ast) /\
    (exists importees,
        length importees = IndexJs.importIndex st /\
        MagicString.intro (IndexJs.s st)
        = (if IndexJs.hasExports st then exports_declaration_text else "")
            +:+ (if 0 <? IndexJs.importIndex st then IndexJs.interop_helper_text else "")
            +:+ imports_block importees) /\
    MagicString.outro (IndexJs.s st)
    = (if IndexJs.hasExports st
       then IndexJs.default_export_text
              +:+ match requested_names cwd options id with
                  | Some names => IndexJs.names_text ast names
                  | None => ""
                  end
       else "").
Proof.
  intros Host ev cwd options code id ast h st H.
  unfold IndexJs.transform_state in H.
  apply bind_Ok_inv in H as (st0 & Hw & H).
  apply older_walk in Hw as ((importees & Hlen & Hintro) & Hflag & Hout & Hex).
  rewrite entered_nodes in Hex.
  assert (Hi : IndexJs.hasExports (IndexJs.emit_interop st0) = IndexJs.hasExports st0 /\
               IndexJs.importIndex (IndexJs.emit_interop st0) = IndexJs.importIndex st0 /\
               MagicString.outro (IndexJs.s (IndexJs.emit_interop st0)) = "" /\
               MagicString.intro (IndexJs.s (IndexJs.emit_interop st0))
               = (if 0 <? IndexJs.importIndex st0
                  then IndexJs.interop_helper_text else "")
                   +:+ imports_block importees).
  { unfold IndexJs.emit_interop. rewrite Hflag.
    destruct (0 <? IndexJs.importIndex st0); simpl; repeat split; try congruence;
      rewrite Hintro; reflexivity. }
  destruct Hi as (Hie & Hii & Hio & Hiin).
  unfold IndexJs.emit_exports in H. rewrite Hie in H.
  destruct (IndexJs.hasExports st0) eqn:He.
  - destruct options as [o|]; [|discriminate].
    unfold requested_names.
    destruct (match namedExports o with
              | Some table => table !! namedExportFile cwd id
              | None => None
              end) as [names|] eqn:En.
    + apply bind_Ok_inv in H as (top & Htop & H). injection H as <-.
      apply filter_r_Ok in Htop as (-> & _). fold (declared ast).
      rewrite filter_not_top_level. unfold IndexJs.names_text.
      cbn [IndexJs.s IndexJs.set_s IndexJs.hasExports IndexJs.importIndex].
      rewrite Hie, Hii.
      split; [congruence|]. split.
      * exists importees. split; [exact Hlen|].
        destruct (0 <? length (List.filter (declared ast) names));
          destruct (0 <? length (List.filter _ names));
          cbn [MagicString.intro MagicString.append MagicString.prepend];
          now rewrite Hiin.
      * destruct (0 <? length (List.filter (declared ast) names));
          destruct (0 <? length (List.filter _ names));
          cbn [MagicString.outro MagicString.append MagicString.prepend];
          rewrite Hio; rewrite ?append_assoc, ?append_empty_r; reflexivity.
    + injection H as <-.
      cbn [IndexJs.s IndexJs.set_s IndexJs.hasExports IndexJs.importIndex
           MagicString.intro MagicString.outro MagicString.append MagicString.prepend].
      rewrite Hie, Hii.
      split; [congruence|]. split.
      * exists importees. split; [exact Hlen|]. now rewrite Hiin.
      * rewrite Hio. reflexivity.
  - injection H as <-. rewrite Hie, Hii.
    split; [congruence|]. split; [|exact Hio].
    exists importees. split; [exact Hlen|]. now rewrite Hiin.
Qed.

Section older_inert.
Context {Host : Type}.
Variable eval_expression : node -> Host -> result (value * Host).

Lemma older_enter_other_call nd callee (st : IndexJs.state Host) :
  child "callee" nd = Some callee ->
  require_literal_argument nd = None ->
  IndexJs.enter_CallExpression eval_expression nd st = Ok st.
Proof.
  unfold require_literal_argument, IndexJs.enter_CallExpression, req_child.
  intros ->. cbn [bind].
  destruct (name_is "require" callee); [|reflexivity].
  destruct (children_at "arguments" nd) as [|a [|a' l]]; try reflexivity.
  destruct (has_type "Literal" a); [discriminate|reflexivity].
Qed.

Lemma older_enter_other_assignment nd left_ (st : IndexJs.state Host) :
  has_type "AssignmentExpression" nd = true ->
  child "left" nd = Some left_ -> assigns_exports nd = false ->
  IndexJs.enter_AssignmentExpression nd st = Ok st.
Proof.
  unfold IndexJs.enter_AssignmentExpression, assigns_exports, req_child.
  intros -> ->. cbn [andb bind].
  destruct (has_type "MemberExpression" left_); [|reflexivity]. cbn [andb].
  destruct (child "object" left_) as [object|]; [|reflexivity].
  destruct (name_is "exports" object); [now rewrite orb_true_r|].
  rewrite orb_false_r.
  destruct (name_is "module" object); [|reflexivity]. cbn [andb].
  destruct (child "property" left_) as [property|]; [|reflexivity].
  intros H. apply orb_false_iff in H as (-> & _). reflexivity.
Qed.

Lemma older_enter_passed_over nd parent (st : IndexJs.state Host) :
  passed_over nd parent ->
  exists st',
    IndexJs.enter eval_expression nd parent st = Ok st' /\
    MagicString.chunks (IndexJs.s st') = MagicString.chunks (IndexJs.s st) /\
    MagicString.intro (IndexJs.s st') = MagicString.intro (IndexJs.s st) /\
    MagicString.outro (IndexJs.s st') = MagicString.outro (IndexJs.s st) /\
    IndexJs.hasExports st' = IndexJs.hasExports st /\
    IndexJs.hasImports st' = IndexJs.hasImports st /\
    IndexJs.host st' = IndexJs.host st.
Proof.
  intros (Hcall & Hassign & Hident). unfold IndexJs.enter.
  set (st1 := IndexJs.set_s _ st).
  assert (E1 : (if has_type "CallExpression" nd
                then IndexJs.enter_CallExpression eval_expression nd st1
                else Ok st1) = Ok st1).
  { destruct (has_type "CallExpression" nd); [|reflexivity].
    destruct Hcall as (Hcallee & Hrla); [reflexivity|].
    destruct (child "callee" nd) as [callee|] eqn:Ec; [|congruence].
    now apply older_enter_other_call with callee. }
  rewrite E1. cbn [bind].
  assert (E2 : (if has_type "AssignmentExpression" nd
                then IndexJs.enter_AssignmentExpression nd st1
                else Ok st1) = Ok st1).
  { destruct (has_type "AssignmentExpression" nd) eqn:Ha; [|reflexivity].
    destruct Hassign as (Hleft & Hno); [reflexivity|].
    destruct (child "left" nd) as [left_|] eqn:El; [|congruence].
    now apply older_enter_other_assignment with left_. }
  rewrite E2. cbn [bind].
  assert (E3 : (if has_type "Identifier" nd && name_is "exports" nd
                then IndexJs.enter_exports nd parent st1
                else Ok st1) = Ok st1).
  { destruct (has_type "Identifier" nd && name_is "exports" nd); [|reflexivity].
    destruct Hident as (p & object & -> & Ho & Hs); [reflexivity|].
    unfold IndexJs.enter_exports. now rewrite Ho, Hs. }
  rewrite E3. cbn [bind].
  eexists. split; [reflexivity|]. simpl. repeat split; reflexivity.
Qed.
End older_inert.

(** X10. The older variant, too, returns a [.js] unit without any
    CommonJS construct as the text that went in, with or without
    options. *)
Theorem older_variant_leaves_unit_without_commonjs_unchanged :
  forall (Host : Type) (eval_expression : node -> Host -> result (value * Host))
         extname cwd options code id ast h,
    extname id = ".js" ->
    (forall m p, In (m, p) (entered ast None) -> passed_over m p) ->
    IndexJs.transform eval_expression extname cwd options code id ast h
    = Ok (Some code).
Proof.
  intros Host ev extname cwd options code id ast h Hext HP.
  set (R := fun (_ : list (node * option node)) (st : IndexJs.state Host) =>
              MagicString.chunks (IndexJs.s st)
              = MagicString.chunks (MagicString.new code) /\
              MagicString.intro (IndexJs.s st) = "" /\
              MagicString.outro (IndexJs.s st) = "" /\
              IndexJs.hasExports st = false /\ IndexJs.hasImports st = false /\
              IndexJs.host st = h).
  assert (Henter : forall tr m p (st : IndexJs.state Host),
             passed_over m p -> R tr st ->
             exists st', IndexJs.enter ev m p st = Ok st' /\ R (tr ++ [(m, p)]) st').
  { intros tr m p st Hm (A & B & C & D & E & F).
    destruct (older_enter_passed_over ev m p st Hm)
      as (st' & He & A' & B' & C' & D' & E' & F').
    exists st'. split; [exact He|]. unfold R. repeat split; congruence. }
  assert (Hleave : forall tr m p (st : IndexJs.state Host),
             passed_over m p -> R tr st ->
             exists st', IndexJs.leave m p st = Ok st' /\ R tr st').
  { intros tr m p st _ HR. eexists. split; [reflexivity|]. exact HR. }
  assert (H0 : R [] (IndexJs.initial_state code h))
    by (unfold R; simpl; repeat split; reflexivity).
  destruct (visit_trace_total (IndexJs.enter ev) IndexJs.leave passed_over R
              Henter Hleave ast None [] (IndexJs.initial_state code h) HP H0)
    as (st & Hv & (Hc & Hi & Ho & He & Hm & Hh)).
  unfold IndexJs.transform, IndexJs.transform_state, walk. rewrite Hext, Hv.
  replace (negb (String.eqb ".js" ".js")) with false by reflexivity. cbn [bind].
  unfold IndexJs.emit_interop. rewrite Hm.
  unfold IndexJs.emit_exports. rewrite He. cbn [bind]. do 2 f_equal.
  unfold MagicString.toString, MagicString.body. rewrite Hi, Ho, Hc. simpl.
  now rewrite !append_empty_r.
Qed.

(* ===================================================================== *)
(** ** The search of a branch *)
(* ===================================================================== *)

(** X13. [findNodeInAst ast target] is true exactly when [ast] is
    present and the walk from it enters the node object [target] itself
    (the same reference: the source compares with [===]), at any depth. *)
Theorem findNodeInAst_finds_the_node_object :
  forall ast target,
    findNodeInAst ast target = true <->
    exists t m, ast = Some t /\ In m (nodes t) /\ node_ref m = node_ref target.
Proof.
  intros [t|] target.
  - rewrite findNodeInAst_spec. split.
    + intros (m & Hm & E). exists t, m. auto.
    + intros (t' & m & [= <-] & Hm & E). exists m. auto.
  - simpl. split; [discriminate | intros (t & m & H & _); discriminate].
Qed.

(* ===================================================================== *)
(** ** Replacements in source order *)
(* ===================================================================== *)

Section chunk_chain.
Import MagicString.

Lemma rendered_app l1 l2 : rendered (l1 ++ l2) = rendered l1 +:+ rendered l2.
Proof.
  induction l1 as [|x l1 IH]; [reflexivity|].
  simpl. now rewrite IH, append_assoc.
Qed.

Lemma split_skip text i pre l :
  Forall (fun ch => c_end ch <= i \/ i <= c_start ch) pre ->
  split text i (pre ++ l) = let* l' := split text i l in Ok (pre ++ l').
Proof.
  induction 1 as [|ch pre Hch _ IH]; simpl.
  - now destruct (split text i l).
  - assert (E : (c_start ch <? i) && (i <? c_end ch) = false).
    { apply andb_false_iff. destruct Hch as [H|H];
        [right; apply Nat.ltb_ge | left; apply Nat.ltb_ge]; lia. }
    rewrite E, IH. now destruct (split text i l).
Qed.

Lemma split_outside text i cs :
  Forall (fun ch => c_end ch <= i \/ i <= c_start ch) cs -> split text i cs = Ok cs.
Proof.
  intros H. rewrite <- (app_nil_r cs) at 1. rewrite split_skip by exact H.
  simpl. now rewrite app_nil_r.
Qed.

Lemma split_unedited code pos i :
  pos < i -> i < String.length code ->
  split code i [unedited code pos]
  = Ok [mkChunk pos i (slice code pos i) false; unedited code i].
Proof.
  intros H1 H2. unfold unedited. simpl.
  apply Nat.ltb_lt in H1, H2. now rewrite H1, H2.
Qed.

Lemma edit_range_app a b c l1 l2 :
  edit_range a b c (l1 ++ l2) = edit_range a b c l1 ++ edit_range a b c l2.
Proof. unfold edit_range. apply map_app. Qed.

Lemma edit_range_outside a b c l :
  Forall (fun ch => c_start ch < a \/ b < c_end ch) l -> edit_range a b c l = l.
Proof.
  unfold edit_range. induction 1 as [|ch l Hch _ IH]; simpl; [reflexivity|].
  rewrite IH.
  assert (E : (a <=? c_start ch) && (c_end ch <=? b) = false).
  { apply andb_false_iff. destruct Hch as [H|H];
      [left | right]; apply Nat.leb_gt; lia. }
  now rewrite E.
Qed.

Lemma slice_empty code a : slice code a a = "".
Proof.
  unfold slice. rewrite Nat.sub_diag.
  generalize a. induction code as [|x code IH]; intros [|n]; simpl; auto.
Qed.

(** A replacement to the right of those made so far. *)
Lemma overwrite_fresh code pos prev done s a b c :
  original s = code -> chain code pos prev done (chunks s) ->
  pos <= a -> a < b -> b <= String.length code ->
  exists s',
    overwrite a b c s = Ok s' /\
    original s' = code /\ intro s' = intro s /\ outro s' = outro s /\
    sourcemapLocations s' = sourcemapLocations s /\
    chain code b (Some (a, b, c)) (done +:+ slice code pos a +:+ c) (chunks s').
Proof.
  intros Ho (pre & rest & Hcs & Hpre & Hrest & Hdone & Hprev) Hpa Hab Hb.
  destruct Hrest as [(-> & _) | (-> & ->)]; [|lia].
  set (gap := if pos <? a then [mkChunk pos a (slice code pos a) false] else []).
  assert (Hs1 : split code a (chunks s) = Ok (pre ++ gap ++ [unedited code a])).
  { rewrite Hcs, split_skip.
    - unfold gap. destruct (Nat.ltb_spec pos a) as [Hlt|Hge].
      + rewrite split_unedited by lia. reflexivity.
      + assert (pos = a) by lia. subst pos.
        rewrite split_outside; [reflexivity|].
        constructor; [|constructor]. right. simpl. lia.
    - eapply Forall_impl; [exact Hpre|]. simpl. intros ch (_ & H). left. lia. }
  set (tail := if b <? String.length code then [unedited code b] else []).
  assert (Hs2 : split code b (pre ++ gap ++ [unedited code a])
                = Ok (pre ++ gap
                        ++ mkChunk a b (slice code a b) false :: tail)).
  { rewrite split_skip.
    2:{ eapply Forall_impl; [exact Hpre|]. simpl. intros ch (_ & H). left. lia. }
    rewrite split_skip.
    2:{ unfold gap. destruct (pos <? a); constructor; [|constructor].
        left. simpl. lia. }
    unfold tail. destruct (Nat.ltb_spec b (String.length code)) as [Hlt|Hge].
    - rewrite split_unedited by lia. reflexivity.
    - assert (b = String.length code) by lia. subst b.
      rewrite split_outside; [reflexivity|].
      constructor; [|constructor]. left. simpl. lia. }
  assert (He : edit_range a b c (pre ++ gap ++ mkChunk a b (slice code a b) false :: tail)
               = pre ++ gap ++ mkChunk a b c true :: tail).
  { rewrite !edit_range_app. f_equal; [|f_equal].
    - apply edit_range_outside. eapply Forall_impl; [exact Hpre|].
      simpl. intros ch (H1 & H2). left. lia.
    - apply edit_range_outside. unfold gap.
      destruct (Nat.ltb_spec pos a); constructor; [|constructor].
      left. simpl. lia.
    - change (mkChunk a b (slice code a b) false :: tail)
        with ([mkChunk a b (slice code a b) false] ++ tail).
      rewrite edit_range_app. 
      change (mkChunk a b c true :: tail) with ([mkChunk a b c true] ++ tail).
      f_equal.
      + unfold edit_range. simpl. rewrite !Nat.leb_refl, Nat.eqb_refl. reflexivity.
      + apply edit_range_outside. unfold tail.
        destruct (Nat.ltb_spec b (String.length code)); constructor; [|constructor].
        right. simpl. lia. }
  eexists. split.
  - unfold overwrite. rewrite Ho.
    assert (E1 : (String.length code <? b) = false) by (apply Nat.ltb_ge; lia).
    assert (E2 : (b <=? a) = false) by (apply Nat.leb_gt; lia).
    rewrite E1, E2, Hs1. cbn [bind]. rewrite Hs2. cbn [bind]. reflexivity.
  - cbn [original intro outro sourcemapLocations chunks].
    split; [reflexivity|]. split; [reflexivity|]. split; [reflexivity|].
    split; [reflexivity|].
    rewrite He.
    exists (pre ++ gap ++ [mkChunk a b c true]), tail.
    split; [now rewrite <- !app_assoc|]. split; [|split; [|split]].
    + apply Forall_app. split.
      * eapply Forall_impl; [exact Hpre|]. simpl. intros ch (H1 & H2). lia.
      * apply Forall_app. split.
        -- unfold gap. destruct (Nat.ltb_spec pos a); constructor; [|constructor].
           simpl. lia.
        -- constructor; [|constructor]. simpl. lia.
    + unfold tail. destruct (Nat.ltb_spec b (String.length code)).
      * left. auto.
      * right. split; [reflexivity | lia].
    + rewrite !rendered_app, Hdone. f_equal.
      unfold gap. destruct (Nat.ltb_spec pos a) as [Hlt|Hge]; simpl.
      * now rewrite !append_empty_r.
      * assert (pos = a) by lia. subst pos. now rewrite slice_empty, append_empty_r.
    + split; [reflexivity|]. exists (pre ++ gap). split; [now rewrite app_assoc|].
      apply Forall_app. split.
      * eapply Forall_impl; [exact Hpre|]. simpl. intros ch (H1 & H2). lia.
      * unfold gap. destruct (Nat.ltb_spec pos a); constructor; [|constructor].
        simpl. lia.
Qed.

(** The replacement just made, made again. *)
Lemma overwrite_again code pos done s a b c :
  original s = code -> chain code pos (Some (a, b, c)) done (chunks s) ->
  a < b -> b <= String.length code ->
  exists s',
    overwrite a b c s = Ok s' /\
    original s' = code /\ intro s' = intro s /\ outro s' = outro s /\
    sourcemapLocations s' = sourcemapLocations s /\
    chunks s' = chunks s.
Proof.
  intros Ho (pre & rest & Hcs & Hpre & Hrest & Hdone & (<- & pre0 & -> & Hpre0)) Hab Hb.
  assert (Hin : Forall (fun ch => c_start ch < c_end ch /\ c_end ch <= a) pre0).
  { apply Forall_app in Hpre as (Hp & _).
    apply Forall_forall. intros ch Hch.
    rewrite Forall_forall in Hp, Hpre0.
    specialize (Hp ch Hch). specialize (Hpre0 ch Hch). lia. }
  assert (Hrest' : Forall (fun ch => c_start ch = b /\ b < c_end ch) rest).
  { destruct Hrest as [(-> & [Hn|Hlt]) | (-> & _)];
      [discriminate | | constructor].
    constructor; [|constructor]. simpl. lia. }
  assert (Hsplit : forall i, i = a \/ i = b ->
            split code i (chunks s) = Ok (chunks s)).
  { intros i Hi. apply split_outside. rewrite Hcs.
    apply Forall_app. split; [apply Forall_app; split|].
    - eapply Forall_impl; [exact Hin|]. simpl. intros ch H. left. lia.
    - constructor; [|constructor]. simpl. lia.
    - eapply Forall_impl; [exact Hrest'|]. simpl. intros ch H. right. lia. }
  eexists. split.
  - unfold overwrite. rewrite Ho.
    assert (E1 : (String.length code <? b) = false) by (apply Nat.ltb_ge; lia).
    assert (E2 : (b <=? a) = false) by (apply Nat.leb_gt; lia).
    rewrite E1, E2, (Hsplit a) by auto. cbn [bind].
    rewrite (Hsplit b) by auto. cbn [bind]. reflexivity.
  - cbn [original intro outro sourcemapLocations chunks].
    split; [reflexivity|]. split; [reflexivity|]. split; [reflexivity|].
    split; [reflexivity|].
    rewrite Hcs, !edit_range_app. f_equal; [f_equal|].
    + apply edit_range_outside. eapply Forall_impl; [exact Hin|].
      simpl. intros ch H. left. lia.
    + unfold edit_range. simpl. now rewrite !Nat.leb_refl, Nat.eqb_refl.
    + apply edit_range_outside. eapply Forall_impl; [exact Hrest'|].
      simpl. intros ch H. right. lia.
Qed.

Lemma chain_new code : chain code 0 None "" (chunks (MagicString.new code)).
Proof.
  exists [], [unedited code 0]. simpl. split; [|split; [constructor|]].
  - unfold unedited, slice. rewrite Nat.sub_0_r. now rewrite substring_all.
  - split; [left; auto | split; reflexivity].
Qed.

Lemma chain_body code pos prev done s :
  chain code pos prev done (chunks s) ->
  MagicString.body s = done +:+ slice code pos (String.length code).
Proof.
  intros (pre & rest & Hcs & _ & Hrest & Hdone & _).
  unfold MagicString.body. fold (rendered (chunks s)).
  rewrite Hcs, rendered_app, Hdone. f_equal.
  destruct Hrest as [(-> & _) | (-> & ->)].
  - simpl. apply append_empty_r.
  - now rewrite slice_empty.
Qed.
End chunk_chain.

Lemma entered_under_nodes n : forall parent stack,
  map (fun e => fst (fst e)) (entered_under n parent stack) = nodes n.
Proof.
  induction n as [a fs IH] using node_ind'. intros parent stack. simpl. f_equal.
  generalize (Some (Node a fs)) as self. generalize (stack ++ [Node a fs]) as stk.
  intros stk self.
  induction IH as [|[k c] fs' Hc _ IHfs]; simpl; [reflexivity|].
  rewrite map_app. simpl in Hc. now rewrite Hc, IHfs.
Qed.

Lemma entered_under_entered n : forall parent stack,
  map fst (entered_under n parent stack) = entered n parent.
Proof.
  induction n as [a fs IH] using node_ind'. intros parent stack. simpl. f_equal.
  generalize (Some (Node a fs)) as self. generalize (stack ++ [Node a fs]) as stk.
  intros stk self.
  induction IH as [|[k c] fs' Hc _ IHfs]; simpl; [reflexivity|].
  rewrite map_app. simpl in Hc. now rewrite Hc, IHfs.
Qed.

Section walker_zipper.
Context {St : Type}.
Variables enter leave : node -> option node -> St -> result St.
Variable R : list node -> list (node * option node * list node) -> St -> Prop.
Hypothesis enter_ok : forall path n parent rest st,
  R path ((n, parent, path) :: rest) st ->
  exists st', enter n parent st = Ok st' /\ R (path ++ [n]) rest st'.
Hypothesis leave_ok : forall path n parent rest st,
  R (path ++ [n]) rest st -> exists st', leave n parent st = Ok st' /\ R path rest st'.

(** A property of the nodes entered and not yet left and of the calls of
    [enter] still to come: if [enter] succeeds on the next node and
    [leave] on the last one, each leaving the property of what remains,
    the walk of a subtree succeeds and leaves the property of what follows
    the subtree. *)
Lemma visit_remaining n : forall parent path rest st,
  R path (entered_under n parent path ++ rest) st ->
  exists st', visit enter leave n parent st = Ok st' /\ R path rest st'.
Proof.
  induction n as [a fs IH] using node_ind'. intros parent path rest st HR.
  rewrite visit_eq. cbn [entered_under app] in HR.
  destruct (enter_ok _ _ _ _ _ HR) as (st1 & -> & H1). cbn [bind].
  assert (Hkids : exists st2,
            visit_children (fun c => visit enter leave c (Some (Node a fs))) fs st1
            = Ok st2 /\ R (path ++ [Node a fs]) rest st2).
  { clear HR. revert H1. generalize (Some (Node a fs)) as self.
    generalize (path ++ [Node a fs]) as stk. intros stk self.
    revert st1.
    induction IH as [|[k c] fs' Hkc _ IHfs]; intros st1 H1; simpl.
    - exists st1. auto.
    - simpl in Hkc, H1. rewrite <- app_assoc in H1.
      destruct (Hkc self stk _ st1 H1) as (st3 & -> & H3). cbn [bind].
      now apply IHfs. }
  destruct Hkids as (st2 & -> & H2). cbn [bind].
  now apply (leave_ok path (Node a fs) parent).
Qed.
End walker_zipper.

Lemma pending_overwrite code target s a b c spans :
  pending code target s ((a, b, c) :: spans) ->
  exists s',
    MagicString.overwrite a b c s = Ok s' /\
    pending code target s' spans /\
    MagicString.intro s' = MagicString.intro s /\
    MagicString.outro s' = MagicString.outro s.
Proof.
  intros (Ho & pos & prev & done & Hchain & (Hab & Hb & Hord & Hrest) & Htarget).
  destruct Hord as [-> | Hfresh].
  - destruct (overwrite_again code pos done s a b c Ho Hchain Hab Hb)
      as (s' & Hov & Ho' & Hi & Hou & _ & Hc).
    exists s'. split; [exact Hov|]. split; [|auto].
    split; [exact Ho'|]. exists pos, (Some (a, b, c)), done.
    rewrite Hc. split; [exact Hchain|]. split; [exact Hrest|].
    rewrite <- Htarget. cbn [spliced].
    assert (Hbp : b = pos).
    { destruct Hchain as (pre & rest & _ & _ & _ & _ & (Hbp & _)). exact Hbp. }
    rewrite Hbp. now rewrite Nat.leb_refl.
  - assert (Hpa : pos <= a).
    { destruct Hchain as (pre & rest & _ & _ & _ & _ & Hprev).
      destruct prev as [[[a0 b0] c0]|]; [destruct Hprev as (Hbp & _); lia | lia]. }
    destruct (overwrite_fresh code pos prev done s a b c Ho Hchain Hpa Hab Hb)
      as (s' & Hov & Ho' & Hi & Hou & _ & Hc).
    exists s'. split; [exact Hov|]. split; [|auto].
    split; [exact Ho'|].
    exists b, (Some (a, b, c)), (done +:+ MagicString.slice code pos a +:+ c).
    split; [exact Hc|]. split; [exact Hrest|].
    rewrite <- Htarget. cbn [spliced].
    assert (E : (b <=? pos) = false) by (apply Nat.leb_gt; lia).
    rewrite E. now rewrite !append_assoc.
Qed.

Lemma pending_ext code target s s' spans :
  MagicString.original s' = MagicString.original s ->
  MagicString.chunks s' = MagicString.chunks s ->
  pending code target s spans -> pending code target s' spans.
Proof. unfold pending. intros -> ->. auto. Qed.

Lemma readable_qualifying nd parent : readable nd parent -> exists b, qualifying nd = Ok b.
Proof.
  intros (Htest & _). unfold qualifying, req_child.
  destruct (has_type "IfStatement" nd); [|eauto].
  destruct (child "test" nd); [simpl; eauto | now destruct Htest].
Qed.

Section pure_conditions.
Context {Host : Type}.
Variable eval_expression : node -> Host -> result (value * Host).
Variable verdict : node -> nat.
Variable ast : node.
Hypothesis pure : forall p h,
  In p (nodes ast) -> qualifying p = Ok true ->
  eval_branch eval_expression p h = Ok (verdict p, h).
Variables code target : string.

Lemma shouldInclude_pure stack nd h :
  Forall (fun a => In a (nodes ast) /\ exists b, qualifying a = Ok b) stack ->
  shouldInclude eval_expression stack nd h = Ok (included verdict stack nd, h).
Proof.
  induction 1 as [|p stack (Hin & b & Hq) _ IH]; simpl; [reflexivity|].
  rewrite Hq. cbn [bind]. destruct b; [|exact IH].
  unfold consult. now rewrite (pure p h Hin Hq).
Qed.

Lemma call_pending nd later importees (st : state Host) :
  has_type "CallExpression" nd = true ->
  child "callee" nd <> None ->
  Forall (fun a => In a (nodes ast) /\ exists b, qualifying a = Ok b) (ancestors st) ->
  pending code target (s st)
    ((if included verdict (ancestors st) nd
      then call_replacement (importIndex st) nd else []) ++ later) ->
  length importees = importIndex st ->
  MagicString.intro (s st) = imports_block (rev importees) ->
  exists st',
    enter_CallExpression eval_expression nd st = Ok st' /\
    pending code target (s st') later /\
    importIndex st' = importIndex st + length (imported verdict nd (ancestors st)) /\
    MagicString.intro (s st')
    = imports_block (rev (importees ++ imported verdict nd (ancestors st))) /\
    ancestors st' = ancestors st /\ host st' = host st.
Proof.
  intros Hc Hcallee Hanc Hp Hlen Hintro.
  unfold imported, call_replacement, required_module in *. rewrite Hc in *.
  destruct (require_literal_argument nd) as [arg|] eqn:Harg.
  - rewrite (enter_require eval_expression nd arg st Harg).
    rewrite (shouldInclude_pure _ nd _ Hanc). cbn [bind].
    replace (set_host (host st) st) with st by (now destruct st).
    destruct (included verdict (ancestors st) nd).
    + unfold rewrite_require. cbn [app] in Hp.
      apply pending_overwrite in Hp as (s1 & Hov & Hp1 & Hi1 & _).
      cbn [s set_importIndex]. rewrite Hov. cbn [bind].
      eexists. split; [reflexivity|]. simpl.
      split; [|split; [lia | split; [|auto]]].
      * eapply pending_ext; [| |exact Hp1]; reflexivity.
      * rewrite rev_app_distr. simpl. rewrite length_rev, Hlen, Hi1, Hintro.
        reflexivity.
    + exists st. rewrite app_nil_r. simpl in Hp.
      split; [reflexivity|]. split; [exact Hp|]. split; [simpl; lia | auto].
  - destruct (child "callee" nd) as [callee|] eqn:Ec; [|congruence].
    rewrite (enter_other_call eval_expression nd callee st Ec Harg).
    exists st.
    assert (E : (if included verdict (ancestors st) nd then @nil string else [])
                = []) by (now destruct (included verdict (ancestors st) nd)).
    rewrite E, app_nil_r.
    assert (Hp' : pending code target (s st) later)
      by (destruct (included verdict (ancestors st) nd); exact Hp).
    split; [reflexivity|]. split; [exact Hp'|]. split; [simpl; lia | auto].
Qed.

Lemma assignment_pending nd later (st : state Host) :
  has_type "AssignmentExpression" nd = true ->
  child "left" nd <> None ->
  pending code target (s st) (assignment_replacements nd ++ later) ->
  exists st',
    enter_AssignmentExpression nd st = Ok st' /\
    pending code target (s st') later /\
    importIndex st' = importIndex st /\
    MagicString.intro (s st') = MagicString.intro (s st) /\
    ancestors st' = ancestors st /\ host st' = host st.
Proof.
  intros Ha Hleft Hp.
  unfold assignment_replacements in Hp. rewrite Ha in Hp.
  unfold enter_AssignmentExpression, req_child.
  destruct (child "left" nd) as [left_|]; [|congruence]. cbn [bind].
  destruct (has_type "MemberExpression" left_); [|exists st; auto 10].
  destruct (child "object" left_) as [object|]; [|exists st; cbn [bind]; auto 10].
  rewrite <- app_assoc in Hp. cbv beta iota zeta.
  assert (H1 : exists st1,
            (if name_is "module" object
             then match child "property" left_ with
                  | Some property =>
                      if name_is "exports" property || value_is "exports" property
                      then
                        let* s1 := MagicString.overwrite (node_start left_)
                                     (node_end left_) "__exports"
                                     (s (set_hasExports true st)) in
                        Ok (set_s s1 (set_hasExports true st))
                      else Ok st
                  | None => Ok st
                  end
             else Ok st) = Ok st1 /\
            pending code target (s st1)
              ((if name_is "exports" object
                then [(node_start object, node_end object, "__exports")]
                else []) ++ later) /\
            importIndex st1 = importIndex st /\
            MagicString.intro (s st1) = MagicString.intro (s st) /\
            ancestors st1 = ancestors st /\ host st1 = host st).
  { destruct (name_is "module" object); cbn [andb] in Hp; [|exists st; auto 10].
    destruct (child "property" left_) as [property|]; [|exists st; auto 10].
    destruct (name_is "exports" property || value_is "exports" property);
      [|exists st; auto 10].
    cbn [app] in Hp. apply pending_overwrite in Hp as (s1 & Hov & Hp1 & Hi1 & _).
    cbn [s set_hasExports]. rewrite Hov. cbn [bind].
    eexists. split; [reflexivity|]. simpl. auto 10. }
  destruct H1 as (st1 & -> & Hp1 & Hi1 & Hn1 & Ha1 & Hh1). cbn [bind].
  destruct (name_is "exports" object); [|exists st1; auto 10].
  cbn [app] in Hp1. apply pending_overwrite in Hp1 as (s2 & Hov & Hp2 & Hi2 & _).
  cbn [s set_hasExports]. rewrite Hov. cbn [bind].
  destruct (child "property" left_) as [property|];
    [destruct (node_name property) as [name|];
     [destruct (negb (String.eqb name ""))|]|];
    (eexists; split; [reflexivity|]; simpl;
     split; [exact Hp2|]; split; [exact Hi1|]; split; [congruence|]; auto).
Qed.

Lemma mention_pending nd parent later (st : state Host) :
  has_type "Identifier" nd && name_is "exports" nd = true ->
  parent <> None ->
  pending code target (s st) (mention_replacement nd parent ++ later) ->
  exists st',
    enter_exports nd parent st = Ok st' /\
    pending code target (s st') later /\
    importIndex st' = importIndex st /\
    MagicString.intro (s st') = MagicString.intro (s st) /\
    ancestors st' = ancestors st /\ host st' = host st.
Proof.
  intros Hi Hparent Hp.
  unfold mention_replacement, mentions_exports in Hp. rewrite Hi in Hp.
  cbn [andb] in Hp. unfold enter_exports.
  destruct parent as [p|]; [|congruence].
  destruct (match child "object" p with
            | Some object => same_node object nd
            | None => true
            end); [|exists st; auto 10].
  cbn [app] in Hp. apply pending_overwrite in Hp as (s1 & Hov & Hp1 & Hi1 & _).
  cbn [s set_hasExports]. rewrite Hov. cbn [bind].
  eexists. split; [reflexivity|]. simpl. auto 10.
Qed.

Lemma enter_pending nd parent later importees (st : state Host) :
  readable nd parent ->
  Forall (fun a => In a (nodes ast) /\ exists b, qualifying a = Ok b) (ancestors st) ->
  pending code target (s st)
    (replacements_at verdict (importIndex st) nd parent (ancestors st) ++ later) ->
  length importees = importIndex st ->
  MagicString.intro (s st) = imports_block (rev importees) ->
  exists st',
    enter eval_expression nd parent st = Ok st' /\
    pending code target (s st') later /\
    importIndex st' = importIndex st + length (imported verdict nd (ancestors st)) /\
    MagicString.intro (s st')
    = imports_block (rev (importees ++ imported verdict nd (ancestors st))) /\
    ancestors st' = ancestors st ++ [nd] /\
    host st' = host st.
Proof.
  intros (_ & Hcallee & Hleft & Hparent) Hanc Hp Hlen Hintro.
  unfold replacements_at in Hp. rewrite <- !app_assoc in Hp.
  unfold enter.
  assert (Hp0 : pending code target (s (located nd st))
                  ((if included verdict (ancestors (located nd st)) nd
                    then call_replacement (importIndex (located nd st)) nd else [])
                     ++ assignment_replacements nd
                     ++ mention_replacement nd parent ++ later)).
  { eapply pending_ext; [| |exact Hp]; reflexivity. }
  assert (H1 : exists st1,
            (if has_type "CallExpression" nd
             then enter_CallExpression eval_expression nd (located nd st)
             else Ok (located nd st)) = Ok st1 /\
            pending code target (s st1)
              (assignment_replacements nd ++ mention_replacement nd parent ++ later) /\
            importIndex st1
            = importIndex st + length (imported verdict nd (ancestors st)) /\
            MagicString.intro (s st1)
            = imports_block (rev (importees ++ imported verdict nd (ancestors st))) /\
            ancestors st1 = ancestors st /\ host st1 = host st).
  { destruct (has_type "CallExpression" nd) eqn:Hc.
    - destruct (call_pending nd _ importees (located nd st) Hc (Hcallee eq_refl)
                  Hanc Hp0 Hlen Hintro)
        as (st1 & He & Hp1 & Hi1 & Hn1 & Ha1 & Hh1).
      exists st1. auto 10.
    - exists (located nd st).
      unfold imported, call_replacement, required_module in *. rewrite Hc in *.
      assert (E : (if included verdict (ancestors st) nd then @nil string else [])
                  = []) by (now destruct (included verdict (ancestors st) nd)).
      rewrite E, app_nil_r.
      assert (Hp' : pending code target (s (located nd st))
                      (assignment_replacements nd
                         ++ mention_replacement nd parent ++ later)).
      { simpl in Hp0. destruct (included verdict (ancestors st) nd); exact Hp0. }
      simpl. split; [reflexivity|]. split; [exact Hp'|].
      split; [lia | auto]. }
  destruct H1 as (st1 & -> & Hp1 & Hi1 & Hn1 & Ha1 & Hh1). cbn [bind].
  assert (H2 : exists st2,
            (if has_type "AssignmentExpression" nd
             then enter_AssignmentExpression nd st1
             else Ok st1) = Ok st2 /\
            pending code target (s st2) (mention_replacement nd parent ++ later) /\
            importIndex st2 = importIndex st1 /\
            MagicString.intro (s st2) = MagicString.intro (s st1) /\
            ancestors st2 = ancestors st1 /\ host st2 = host st1).
  { destruct (has_type "AssignmentExpression" nd) eqn:Ha.
    - apply assignment_pending; auto.
    - exists st1. unfold assignment_replacements in Hp1. rewrite Ha in Hp1. auto 10. }
  destruct H2 as (st2 & -> & Hp2 & Hi2 & Hn2 & Ha2 & Hh2). cbn [bind].
  assert (H3 : exists st3,
            (if has_type "Identifier" nd && name_is "exports" nd
             then enter_exports nd parent st2
             else Ok st2) = Ok st3 /\
            pending code target (s st3) later /\
            importIndex st3 = importIndex st2 /\
            MagicString.intro (s st3) = MagicString.intro (s st2) /\
            ancestors st3 = ancestors st2 /\ host st3 = host st2).
  { destruct (has_type "Identifier" nd && name_is "exports" nd) eqn:Hi.
    - apply mention_pending; auto.
    - exists st2. unfold mention_replacement, mentions_exports in Hp2.
      rewrite Hi in Hp2. auto 10. }
  destruct H3 as (st3 & -> & Hp3 & Hi3 & Hn3 & Ha3 & Hh3). cbn [bind].
  eexists. split; [reflexivity|].
  destruct (has_type "Literal" nd && value_is "__esModule" nd),
           (has_type "ExportDefaultDeclaration" nd); simpl;
    (split; [exact Hp3|]); (split; [congruence|]); (split; [congruence|]);
    split; congruence.
Qed.

(** The walk of a unit whose conditions are pure and whose replacements
    come in source order. *)
Lemma walk_pure h :
  (forall m p stack, In (m, p, stack) (entered_under ast None []) -> readable m p) ->
  in_source_order (String.length code) None
    (replacements verdict 0 (entered_under ast None [])) ->
  target = spliced code 0 (replacements verdict 0 (entered_under ast None [])) ->
  exists st,
    walk (enter eval_expression) leave ast (initial_state code h) = Ok st /\
    MagicString.body (s st) = target /\
    importIndex st = length (imports verdict (entered_under ast None [])) /\
    MagicString.intro (s st)
    = imports_block (rev (imports verdict (entered_under ast None []))) /\
    host st = h.
Proof.
  intros Hwf Hord Htarget.
  set (full := entered_under ast None []) in *.
  set (R := fun (path : list node) (rest : list (node * option node * list node))
                (st : state Host) =>
              ancestors st = path /\
              Forall (fun a => In a (nodes ast) /\ exists b, qualifying a = Ok b) path /\
              (forall e, In e rest -> In e full) /\
              pending code target (s st) (replacements verdict (importIndex st) rest) /\
              (exists importees,
                  length importees = importIndex st /\
                  MagicString.intro (s st) = imports_block (rev importees) /\
                  importees ++ imports verdict rest = imports verdict full) /\
              host st = h).
  assert (Hfull : forall m p stack, In (m, p, stack) full ->
                    In m (nodes ast) /\ exists b, qualifying m = Ok b).
  { intros m p stack Hin. split.
    - rewrite <- (entered_under_nodes ast None []).
      apply in_map_iff. exists (m, p, stack). split; [reflexivity | exact Hin].
    - apply readable_qualifying with p. now apply (Hwf m p stack). }
  assert (Henter : forall path n parent rest (st : state Host),
             R path ((n, parent, path) :: rest) st ->
             exists st', enter eval_expression n parent st = Ok st'
                         /\ R (path ++ [n]) rest st').
  { intros path n parent rest st
           (Ha & Hanc & Hsub & Hp & (importees & Hlen & Hin & Hall) & Hh).
    subst path. cbn [replacements] in Hp.
    assert (Hn : In (n, parent, ancestors st) full) by (apply Hsub; now left).
    destruct (enter_pending n parent _ importees st (Hwf _ _ _ Hn) Hanc Hp Hlen Hin)
      as (st' & He & Hp' & Hi' & Hn' & Ha' & Hh').
    exists st'. split; [exact He|]. unfold R.
    split; [exact Ha'|]. split; [|split; [|split; [|split]]].
    - apply Forall_app. split; [exact Hanc|].
      constructor; [now apply (Hfull n parent (ancestors st)) | constructor].
    - intros e Hin'. apply Hsub. now right.
    - rewrite Hi'. exact Hp'.
    - exists (importees ++ imported verdict n (ancestors st)).
      split; [rewrite length_app, Hi'; lia|]. split; [exact Hn'|].
      rewrite <- Hall, <- app_assoc. reflexivity.
    - congruence. }
  assert (Hleave : forall path n parent rest (st : state Host),
             R (path ++ [n]) rest st ->
             exists st', leave n parent st = Ok st' /\ R path rest st').
  { intros path n parent rest st (Ha & Hanc & Hsub & Hp & Himp & Hh).
    eexists. split; [reflexivity|]. unfold R. simpl.
    split; [rewrite Ha; apply removelast_last|].
    split; [now apply Forall_app in Hanc|]. auto. }
  assert (H0 : R [] (full ++ []) (initial_state code h)).
  { rewrite app_nil_r. unfold R. simpl.
    split; [reflexivity|]. split; [constructor|]. split; [auto|].
    split; [|split; [|reflexivity]].
    - split; [reflexivity|]. exists 0, None, "".
      split; [apply chain_new|]. split; [exact Hord|]. now rewrite Htarget.
    - exists []. auto. }
  destruct (visit_remaining (enter eval_expression) leave R Henter Hleave
              ast None [] [] (initial_state code h) H0)
    as (st & Hv & (_ & _ & _ & Hp & (importees & Hlen & Hin & Hall) & Hh)).
  exists st. split; [exact Hv|].
  unfold imports in Hall at 1. simpl in Hall. rewrite app_nil_r in Hall. subst importees.
  split; [|auto].
  destruct Hp as (_ & pos & prev & done & Hchain & _ & Ht). cbn [replacements spliced] in Ht.
  rewrite <- Ht. now apply chain_body with prev.
Qed.
End pure_conditions.

(** On the trees the parser produces the emission sequence does not
    throw. *)
Lemma emit_exports_total {Host : Type} cwd options ast id (st : state Host) :
  declarations_have_ids ast ->
  exists st', emit_exports cwd options ast id st = Ok st'.
Proof.
  intros Hwf. unfold emit_exports.
  destruct (hasExports st); [|eauto]. cbv zeta.
  assert (Hreq : forall exported' s1,
            exists st',
              (let* s2 := match requested_names cwd options id with
                          | Some names => exportNames ast names s1
                          | None => Ok s1
                          end in
               Ok (set_s s2 (set_exported exported' st))) = Ok st').
  { intros exported' s1. destruct (requested_names cwd options id) as [names|].
    - destruct (exportNames_total ast names s1 Hwf) as (s2 & ->). cbn [bind]. eauto.
    - cbn [bind]. eauto. }
  destruct (isESModule st).
  - match goal with
    | |- context [exportNames ast ?names ?s1] =>
        destruct (exportNames_total ast names s1 Hwf) as (s2 & ->)
    end.
    cbn [bind]. apply Hreq.
  - cbn [bind]. apply Hreq.
Qed.

(** X11. The whole transform of a [.js] unit whose qualifying [if]
    statements evaluate without error and without changing the host
    environment and name no variable of the plugin in their tests, whose
    nodes carry the fields the handlers read, and whose
    replaced ranges lie in source order without overlap: [transform]
    returns, and the text is the [__exports] declaration (with exports),
    the interop helper (with at least one import), the import statements
    of the included [require] calls (last first), then the unit's own text
    in which each included [require] call, each assigned [module] /
    [exports] object and each free mention of [exports] is replaced in
    place and every other character is kept, then the footer.  The number
    of aliases is the number of included calls. *)
Theorem unit_with_pure_conditions_is_rewritten_in_place :
  forall (Host : Type) (eval_expression : node -> Host -> result (value * Host))
         (verdict : node -> nat) extname cwd options code id ast h,
    extname id = ".js" ->
    (forall p h', In p (nodes ast) -> qualifying p = Ok true ->
                  eval_branch eval_expression p h' = Ok (verdict p, h')) ->
    (forall p t, In p (nodes ast) -> qualifying p = Ok true ->
                 child "test" p = Some t -> names_plugin_variable t = false) ->
    (forall m p stack, In (m, p, stack) (entered_under ast None []) -> readable m p) ->
    declarations_have_ids ast ->
    in_source_order (String.length code) None
      (replacements verdict 0 (entered_under ast None [])) ->
    let modules := imports verdict (entered_under ast None []) in
    let text := spliced code 0 (replacements verdict 0 (entered_under ast None [])) in
    exists st,
      transform_state eval_expression cwd options code id ast h = Ok st /\
      host st = h /\ importIndex st = length modules /\
      transform eval_expression extname cwd options code id ast h
      = Ok (Some ((if hasExports st then exports_declaration_text else "")
                    +:+ (if 0 <? length modules then interop_helper_text else "")
                    +:+ imports_block (rev modules)
                    +:+ text
                    +:+ (if hasExports st
                         then footer_text cwd options ast id st else ""))).
Proof.
  intros Host ev verdict extname cwd options code id ast h Hext Hpure _ Hs Hids Hord
         modules text.
  destruct (walk_pure ev verdict ast Hpure code text h Hs Hord eq_refl)
    as (st0 & Hw & Hbody & Hi & Hin & Hh).
  fold modules in Hi, Hin.
  destruct (emit_exports_total cwd options ast id (emit_interop st0) Hids) as (st & He).
  assert (Hts : transform_state ev cwd options code id ast h = Ok st).
  { unfold transform_state. rewrite Hw. exact He. }
  exists st. split; [exact Hts|].
  pose proof (emission_frame ev cwd options code id ast h st Hts)
    as (st1 & Hw1 & _ & _ & Hex & Hidx & Hhost & Hchunks & Hintro).
  assert (st1 = st0) by congruence. subst st1.
  split; [congruence|]. split; [congruence|].
  pose proof (transform_state_Ok ev cwd options code id ast h st Hts)
    as (st1 & Hw2 & _ & _ & _ & _ & Hout & _).
  pose proof (walk_walking ev ast code h st0 Hw) as (_ & Hflag & _).
  unfold transform. rewrite Hext.
  replace (negb (String.eqb ".js" ".js")) with false by reflexivity.
  rewrite Hts. cbn [bind]. do 2 f_equal.
  unfold MagicString.toString.
  assert (Hb : MagicString.body (s st) = text).
  { unfold MagicString.body in *. now rewrite Hchunks. }
  rewrite Hb, Hintro, Hout, Hflag, Hin, Hi, Hex.
  now rewrite !append_assoc.
Qed.

(** ** The older variant on units with pure conditions *)

Section older_pure_conditions.
Context {Host : Type}.
Variable eval_expression : node -> Host -> result (value * Host).
Variable verdict : node -> nat.
Variable ast : node.
Hypothesis pure : forall p h,
  In p (nodes ast) -> qualifying p = Ok true ->
  eval_branch eval_expression p h = Ok (verdict p, h).
Variables code target : string.

Lemma older_call_pending nd later importees (st : IndexJs.state Host) :
  has_type "CallExpression" nd = true ->
  child "callee" nd <> None ->
  Forall (fun a => In a (nodes ast) /\ exists b, qualifying a = Ok b)
         (IndexJs.ancestors st) ->
  pending code target (IndexJs.s st)
    ((if included verdict (IndexJs.ancestors st) nd
      then call_replacement (IndexJs.importIndex st) nd else []) ++ later) ->
  length importees = IndexJs.importIndex st ->
  MagicString.intro (IndexJs.s st) = imports_block (rev importees) ->
  exists st',
    IndexJs.enter_CallExpression eval_expression nd st = Ok st' /\
    pending code target (IndexJs.s st') later /\
    IndexJs.importIndex st'
    = IndexJs.importIndex st + length (imported verdict nd (IndexJs.ancestors st)) /\
    MagicString.intro (IndexJs.s st')
    = imports_block (rev (importees ++ imported verdict nd (IndexJs.ancestors st))) /\
    IndexJs.ancestors st' = IndexJs.ancestors st /\ IndexJs.host st' = IndexJs.host st.
Proof.
  intros Hc Hcallee Hanc Hp Hlen Hintro.
  unfold imported, call_replacement, required_module in *. rewrite Hc in *.
  unfold IndexJs.enter_CallExpression, req_child.
  destruct (child "callee" nd) as [callee|] eqn:Ec; [|congruence]. cbn [bind].
  unfold require_literal_argument in *. rewrite Ec in *.
  assert (Hnone : forall (b : bool), (if b then @nil string else []) = [])
    by (now intros []).
  assert (Hskip : pending code target (IndexJs.s st)
                    ((if included verdict (IndexJs.ancestors st) nd
                      then @nil span else []) ++ later) ->
                  exists st',
                    Ok st = Ok st' /\
                    pending code target (IndexJs.s st') later /\
                    IndexJs.importIndex st' = IndexJs.importIndex st + length (@nil string) /\
                    MagicString.intro (IndexJs.s st')
                    = imports_block (rev (importees ++ [])) /\
                    IndexJs.ancestors st' = IndexJs.ancestors st /\
                    IndexJs.host st' = IndexJs.host st).
  { intros Hp'. exists st. rewrite app_nil_r. split; [reflexivity|].
    split; [now destruct (included verdict (IndexJs.ancestors st) nd)|].
    split; [simpl; lia | auto]. }
  destruct (name_is "require" callee); [|rewrite Hnone; now apply Hskip].
  destruct (children_at "arguments" nd) as [|a [|a' l]];
    try (rewrite Hnone; now apply Hskip).
  destruct (has_type "Literal" a); [|rewrite Hnone; now apply Hskip].
  rewrite (shouldInclude_pure eval_expression verdict ast pure _ nd _ Hanc).
  cbn [bind].
  destruct (included verdict (IndexJs.ancestors st) nd).
  - unfold IndexJs.rewrite_require. cbn [app] in Hp.
    apply pending_overwrite in Hp as (s1 & Hov & Hp1 & Hi1 & _).
    cbn [IndexJs.s IndexJs.importIndex IndexJs.set_importIndex IndexJs.set_host].
    rewrite Hov. cbn [bind].
    eexists. split; [reflexivity|]. simpl.
    split; [|split; [lia | split; [|auto]]].
    + eapply pending_ext; [| |exact Hp1]; reflexivity.
    + rewrite rev_app_distr. simpl. rewrite length_rev, Hlen, Hi1, Hintro.
      reflexivity.
  - eexists. split; [reflexivity|]. simpl. rewrite app_nil_r.
    split; [exact Hp|]. split; [lia | auto].
Qed.

Lemma older_assignment_pending nd later (st : IndexJs.state Host) :
  has_type "AssignmentExpression" nd = true ->
  child "left" nd <> None ->
  pending code target (IndexJs.s st) (IndexJs.assignment_replacements nd ++ later) ->
  exists st',
    IndexJs.enter_AssignmentExpression nd st = Ok st' /\
    pending code target (IndexJs.s st') later /\
    IndexJs.importIndex st' = IndexJs.importIndex st /\
    MagicString.intro (IndexJs.s st') = MagicString.intro (IndexJs.s st) /\
    IndexJs.ancestors st' = IndexJs.ancestors st /\ IndexJs.host st' = IndexJs.host st.
Proof.
  intros Ha Hleft Hp.
  unfold IndexJs.assignment_replacements in Hp. rewrite Ha in Hp.
  unfold IndexJs.enter_AssignmentExpression, req_child.
  destruct (child "left" nd) as [left_|]; [|congruence]. cbn [bind].
  destruct (has_type "MemberExpression" left_); [|exists st; auto 10].
  destruct (child "object" left_) as [object|]; [|exists st; cbn [bind]; auto 10].
  rewrite <- app_assoc in Hp. cbv beta iota zeta.
  assert (H1 : exists st1,
            (if name_is "module" object
             then match child "property" left_ with
                  | Some property =>
                      if name_is "exports" property
                      then
                        let* s1 := MagicString.overwrite (node_start object)
                                     (node_end property) "__exports"
                                     (IndexJs.s (IndexJs.set_hasExports true st)) in
                        Ok (IndexJs.set_s s1 (IndexJs.set_hasExports true st))
                      else Ok st
                  | None => Ok st
                  end
             else Ok st) = Ok st1 /\
            pending code target (IndexJs.s st1)
              ((if name_is "exports" object
                then [(node_start object, node_end object, "__exports")]
                else []) ++ later) /\
            IndexJs.importIndex st1 = IndexJs.importIndex st /\
            MagicString.intro (IndexJs.s st1) = MagicString.intro (IndexJs.s st) /\
            IndexJs.ancestors st1 = IndexJs.ancestors st /\
            IndexJs.host st1 = IndexJs.host st).
  { destruct (child "property" left_) as [property|];
      [|destruct (name_is "module" object); exists st; auto 10].
    destruct (name_is "module" object); cbn [andb] in Hp; [|exists st; auto 10].
    destruct (name_is "exports" property); [|exists st; auto 10].
    cbn [app] in Hp. apply pending_overwrite in Hp as (s1 & Hov & Hp1 & Hi1 & _).
    cbn [IndexJs.s IndexJs.set_hasExports]. rewrite Hov. cbn [bind].
    eexists. split; [reflexivity|]. simpl. auto 10. }
  destruct H1 as (st1 & -> & Hp1 & Hi1 & Hn1 & Ha1 & Hh1). cbn [bind].
  destruct (name_is "exports" object); [|exists st1; auto 10].
  cbn [app] in Hp1. apply pending_overwrite in Hp1 as (s2 & Hov & Hp2 & Hi2 & _).
  cbn [IndexJs.s IndexJs.set_hasExports]. rewrite Hov. cbn [bind].
  eexists. split; [reflexivity|]. simpl.
  split; [exact Hp2|]. split; [exact Hi1|]. split; [congruence|]. auto.
Qed.

Lemma older_mention_pending nd parent later (st : IndexJs.state Host) :
  has_type "Identifier" nd && name_is "exports" nd = true ->
  parent <> None ->
  pending code target (IndexJs.s st) (mention_replacement nd parent ++ later) ->
  exists st',
    IndexJs.enter_exports nd parent st = Ok st' /\
    pending code target (IndexJs.s st') later /\
    IndexJs.importIndex st' = IndexJs.importIndex st /\
    MagicString.intro (IndexJs.s st') = MagicString.intro (IndexJs.s st) /\
    IndexJs.ancestors st' = IndexJs.ancestors st /\ IndexJs.host st' = IndexJs.host st.
Proof.
  intros Hi Hparent Hp.
  unfold mention_replacement, mentions_exports in Hp. rewrite Hi in Hp.
  cbn [andb] in Hp. unfold IndexJs.enter_exports.
  destruct parent as [p|]; [|congruence].
  destruct (match child "object" p with
            | Some object => same_node object nd
            | None => true
            end); [|exists st; auto 10].
  cbn [app] in Hp. apply pending_overwrite in Hp as (s1 & Hov & Hp1 & Hi1 & _).
  rewrite Hov. cbn [bind].
  eexists. split; [reflexivity|]. simpl. auto 10.
Qed.

Lemma older_enter_pending nd parent later importees (st : IndexJs.state Host) :
  readable nd parent ->
  Forall (fun a => In a (nodes ast) /\ exists b, qualifying a = Ok b)
         (IndexJs.ancestors st) ->
  pending code target (IndexJs.s st)
    (IndexJs.replacements_at verdict (IndexJs.importIndex st) nd parent
       (IndexJs.ancestors st) ++ later) ->
  length importees = IndexJs.importIndex st ->
  MagicString.intro (IndexJs.s st) = imports_block (rev importees) ->
  exists st',
    IndexJs.enter eval_expression nd parent st = Ok st' /\
    pending code target (IndexJs.s st') later /\
    IndexJs.importIndex st'
    = IndexJs.importIndex st + length (imported verdict nd (IndexJs.ancestors st)) /\
    MagicString.intro (IndexJs.s st')
    = imports_block (rev (importees ++ imported verdict nd (IndexJs.ancestors st))) /\
    IndexJs.ancestors st' = IndexJs.ancestors st ++ [nd] /\
    IndexJs.host st' = IndexJs.host st.
Proof.
  intros (_ & Hcallee & Hleft & Hparent) Hanc Hp Hlen Hintro.
  unfold IndexJs.replacements_at in Hp. rewrite <- !app_assoc in Hp.
  unfold IndexJs.enter.
  set (st0 := IndexJs.set_s _ st).
  assert (Hp0 : pending code target (IndexJs.s st0)
                  ((if included verdict (IndexJs.ancestors st0) nd
                    then call_replacement (IndexJs.importIndex st0) nd else [])
                     ++ IndexJs.assignment_replacements nd
                     ++ mention_replacement nd parent ++ later)).
  { eapply pending_ext; [| |exact Hp]; reflexivity. }
  assert (H1 : exists st1,
            (if has_type "CallExpression" nd
             then IndexJs.enter_CallExpression eval_expression nd st0
             else Ok st0) = Ok st1 /\
            pending code target (IndexJs.s st1)
              (IndexJs.assignment_replacements nd
                 ++ mention_replacement nd parent ++ later) /\
            IndexJs.importIndex st1
            = IndexJs.importIndex st
              + length (imported verdict nd (IndexJs.ancestors st)) /\
            MagicString.intro (IndexJs.s st1)
            = imports_block
                (rev (importees ++ imported verdict nd (IndexJs.ancestors st))) /\
            IndexJs.ancestors st1 = IndexJs.ancestors st /\
            IndexJs.host st1 = IndexJs.host st).
  { destruct (has_type "CallExpression" nd) eqn:Hc.
    - destruct (older_call_pending nd _ importees st0 Hc (Hcallee eq_refl)
                  Hanc Hp0 Hlen Hintro)
        as (st1 & He & Hp1 & Hi1 & Hn1 & Ha1 & Hh1).
      exists st1. auto 10.
    - exists st0.
      unfold imported, call_replacement, required_module in *. rewrite Hc in *.
      assert (E : (if included verdict (IndexJs.ancestors st) nd
                   then @nil string else []) = [])
        by (now destruct (included verdict (IndexJs.ancestors st) nd)).
      rewrite E, app_nil_r.
      assert (Hp' : pending code target (IndexJs.s st0)
                      (IndexJs.assignment_replacements nd
                         ++ mention_replacement nd parent ++ later)).
      { simpl in Hp0. destruct (included verdict (IndexJs.ancestors st) nd); exact Hp0. }
      simpl. split; [reflexivity|]. split; [exact Hp'|].
      split; [lia | auto]. }
  destruct H1 as (st1 & -> & Hp1 & Hi1 & Hn1 & Ha1 & Hh1). cbn [bind].
  assert (H2 : exists st2,
            (if has_type "AssignmentExpression" nd
             then IndexJs.enter_AssignmentExpression nd st1
             else Ok st1) = Ok st2 /\
            pending code target (IndexJs.s st2) (mention_replacement nd parent ++ later) /\
            IndexJs.importIndex st2 = IndexJs.importIndex st1 /\
            MagicString.intro (IndexJs.s st2) = MagicString.intro (IndexJs.s st1) /\
            IndexJs.ancestors st2 = IndexJs.ancestors st1 /\
            IndexJs.host st2 = IndexJs.host st1).
  { destruct (has_type "AssignmentExpression" nd) eqn:Ha.
    - apply older_assignment_pending; auto.
    - exists st1. unfold IndexJs.assignment_replacements in Hp1.
      rewrite Ha in Hp1. auto 10. }
  destruct H2 as (st2 & -> & Hp2 & Hi2 & Hn2 & Ha2 & Hh2). cbn [bind].
  assert (H3 : exists st3,
            (if has_type "Identifier" nd && name_is "exports" nd
             then IndexJs.enter_exports nd parent st2
             else Ok st2) = Ok st3 /\
            pending code target (IndexJs.s st3) later /\
            IndexJs.importIndex st3 = IndexJs.importIndex st2 /\
            MagicString.intro (IndexJs.s st3) = MagicString.intro (IndexJs.s st2) /\
            IndexJs.ancestors st3 = IndexJs.ancestors st2 /\
            IndexJs.host st3 = IndexJs.host st2).
  { destruct (has_type "Identifier" nd && name_is "exports" nd) eqn:Hi.
    - apply older_mention_pending; auto.
    - exists st2. unfold mention_replacement, mentions_exports in Hp2.
      rewrite Hi in Hp2. auto 10. }
  destruct H3 as (st3 & -> & Hp3 & Hi3 & Hn3 & Ha3 & Hh3). cbn [bind].
  eexists. split; [reflexivity|]. simpl.
  split; [exact Hp3|]. split; [congruence|]. split; [congruence|].
  split; congruence.
Qed.

Lemma older_walk_pure h :
  (forall m p stack, In (m, p, stack) (entered_under ast None []) -> readable m p) ->
  in_source_order (String.length code) None
    (IndexJs.replacements verdict 0 (entered_under ast None [])) ->
  target = spliced code 0 (IndexJs.replacements verdict 0 (entered_under ast None [])) ->
  exists st,
    walk (IndexJs.enter eval_expression) IndexJs.leave ast
         (IndexJs.initial_state code h) = Ok st /\
    MagicString.body (IndexJs.s st) = target /\
    IndexJs.importIndex st = length (imports verdict (entered_under ast None [])) /\
    MagicString.intro (IndexJs.s st)
    = imports_block (rev (imports verdict (entered_under ast None []))) /\
    IndexJs.host st = h.
Proof.
  intros Hwf Hord Htarget.
  set (full := entered_under ast None []) in *.
  set (R := fun (path : list node) (rest : list (node * option node * list node))
                (st : IndexJs.state Host) =>
              IndexJs.ancestors st = path /\
              Forall (fun a => In a (nodes ast) /\ exists b, qualifying a = Ok b) path /\
              (forall e, In e rest -> In e full) /\
              pending code target (IndexJs.s st)
                (IndexJs.replacements verdict (IndexJs.importIndex st) rest) /\
              (exists importees,
                  length importees = IndexJs.importIndex st /\
                  MagicString.intro (IndexJs.s st) = imports_block (rev importees) /\
                  importees ++ imports verdict rest = imports verdict full) /\
              IndexJs.host st = h).
  assert (Hfull : forall m p stack, In (m, p, stack) full ->
                    In m (nodes ast) /\ exists b, qualifying m = Ok b).
  { intros m p stack Hin. split.
    - rewrite <- (entered_under_nodes ast None []).
      apply in_map_iff. exists (m, p, stack). split; [reflexivity | exact Hin].
    - apply readable_qualifying with p. now apply (Hwf m p stack). }
  assert (Henter : forall path n parent rest (st : IndexJs.state Host),
             R path ((n, parent, path) :: rest) st ->
             exists st', IndexJs.enter eval_expression n parent st = Ok st'
                         /\ R (path ++ [n]) rest st').
  { intros path n parent rest st
           (Ha & Hanc & Hsub & Hp & (importees & Hlen & Hin & Hall) & Hh).
    subst path. cbn [IndexJs.replacements] in Hp.
    assert (Hn : In (n, parent, IndexJs.ancestors st) full) by (apply Hsub; now left).
    destruct (older_enter_pending n parent _ importees st (Hwf _ _ _ Hn) Hanc Hp Hlen Hin)
      as (st' & He & Hp' & Hi' & Hn' & Ha' & Hh').
    exists st'. split; [exact He|]. unfold R.
    split; [exact Ha'|]. split; [|split; [|split; [|split]]].
    - apply Forall_app. split; [exact Hanc|].
      constructor; [now apply (Hfull n parent (IndexJs.ancestors st)) | constructor].
    - intros e Hin'. apply Hsub. now right.
    - rewrite Hi'. exact Hp'.
    - exists (importees ++ imported verdict n (IndexJs.ancestors st)).
      split; [rewrite length_app, Hi'; lia|]. split; [exact Hn'|].
      rewrite <- Hall, <- app_assoc. reflexivity.
    - congruence. }
  assert (Hleave : forall path n parent rest (st : IndexJs.state Host),
             R (path ++ [n]) rest st ->
             exists st', IndexJs.leave n parent st = Ok st' /\ R path rest st').
  { intros path n parent rest st (Ha & Hanc & Hsub & Hp & Himp & Hh).
    eexists. split; [reflexivity|]. unfold R. simpl.
    split; [rewrite Ha; apply removelast_last|].
    split; [now apply Forall_app in Hanc|]. auto. }
  assert (H0 : R [] (full ++ []) (IndexJs.initial_state code h)).
  { rewrite app_nil_r. unfold R. simpl.
    split; [reflexivity|]. split; [constructor|]. split; [auto|].
    split; [|split; [|reflexivity]].
    - split; [reflexivity|]. exists 0, None, "".
      split; [apply chain_new|]. split; [exact Hord|]. now rewrite Htarget.
    - exists []. auto. }
  destruct (visit_remaining (IndexJs.enter eval_expression) IndexJs.leave R Henter Hleave
              ast None [] [] (IndexJs.initial_state code h) H0)
    as (st & Hv & (_ & _ & _ & Hp & (importees & Hlen & Hin & Hall) & Hh)).
  exists st. split; [exact Hv|].
  unfold imports in Hall at 1. simpl in Hall. rewrite app_nil_r in Hall. subst importees.
  split; [|auto].
  destruct Hp as (_ & pos & prev & done & Hchain & _ & Ht).
  cbn [IndexJs.replacements spliced] in Ht.
  rewrite <- Ht. now apply chain_body with prev.
Qed.
End older_pure_conditions.

Section older_emission.
Context {Host : Type}.
Variable eval_expression : node -> Host -> result (value * Host).
Variable cwd : string.
Variable options : option Options.

(** What the emission sequence of the older variant adds to the state the
    walk left. *)
Lemma older_emission_frame code id ast h (st : IndexJs.state Host) :
  IndexJs.transform_state eval_expression cwd options code id ast h = Ok st ->
  exists st0,
    walk (IndexJs.enter eval_expression) IndexJs.leave ast
         (IndexJs.initial_state code h) = Ok st0 /\
    IndexJs.hasExports st = IndexJs.hasExports st0 /\
    IndexJs.host st = IndexJs.host st0 /\
    MagicString.chunks (IndexJs.s st) = MagicString.chunks (IndexJs.s st0) /\
    MagicString.intro (IndexJs.s st)
    = (if IndexJs.hasExports st0 then exports_declaration_text else "")
        +:+ (if IndexJs.hasImports st0 then IndexJs.interop_helper_text else "")
        +:+ MagicString.intro (IndexJs.s st0) /\
    MagicString.outro (IndexJs.s st)
    = MagicString.outro (IndexJs.s st0)
        +:+ (if IndexJs.hasExports st0
             then IndexJs.default_export_text
                    +:+ match requested_names cwd options id with
                        | Some names => IndexJs.names_text ast names
                        | None => ""
                        end
             else "").
Proof.
  unfold IndexJs.transform_state. intros H.
  apply bind_Ok_inv in H as (st0 & Hw & H). exists st0. split; [exact Hw|].
  assert (Hi : IndexJs.hasExports (IndexJs.emit_interop st0) = IndexJs.hasExports st0 /\
               IndexJs.host (IndexJs.emit_interop st0) = IndexJs.host st0 /\
               MagicString.chunks (IndexJs.s (IndexJs.emit_interop st0))
               = MagicString.chunks (IndexJs.s st0) /\
               MagicString.outro (IndexJs.s (IndexJs.emit_interop st0))
               = MagicString.outro (IndexJs.s st0) /\
               MagicString.intro (IndexJs.s (IndexJs.emit_interop st0))
               = (if IndexJs.hasImports st0 then IndexJs.interop_helper_text else "")
                   +:+ MagicString.intro (IndexJs.s st0)).
  { unfold IndexJs.emit_interop.
    destruct (IndexJs.hasImports st0); simpl; repeat split; reflexivity. }
  destruct Hi as (Hie & Hih & Hic & Hio & Hiin).
  unfold IndexJs.emit_exports in H. rewrite Hie in H.
  destruct (IndexJs.hasExports st0) eqn:He.
  - destruct options as [o|]; [|discriminate].
    unfold requested_names.
    destruct (match namedExports o with
              | Some table => table !! namedExportFile cwd id
              | None => None
              end) as [names|] eqn:En.
    + apply bind_Ok_inv in H as (top & Htop & H). injection H as <-.
      apply filter_r_Ok in Htop as (-> & _). fold (declared ast).
      rewrite filter_not_top_level. unfold IndexJs.names_text.
      cbn [IndexJs.s IndexJs.set_s IndexJs.hasExports IndexJs.host].
      split; [exact Hie|]. split; [exact Hih|].
      destruct (0 <? length (List.filter (declared ast) names));
        destruct (0 <? length (List.filter _ names));
        cbn [MagicString.intro MagicString.outro MagicString.chunks
             MagicString.append MagicString.prepend];
        rewrite Hiin, Hio, Hic;
        (split; [reflexivity|]); (split; [reflexivity|]);
        rewrite ?append_assoc, ?append_empty_r; reflexivity.
    + injection H as <-.
      cbn [IndexJs.s IndexJs.set_s IndexJs.hasExports IndexJs.host
           MagicString.intro MagicString.outro MagicString.chunks
           MagicString.append MagicString.prepend].
      rewrite Hiin, Hio, Hic.
      split; [exact Hie|]. split; [exact Hih|].
      split; [reflexivity|]. split; [reflexivity|].
      rewrite ?append_assoc, ?append_empty_r; reflexivity.
  - injection H as <-. rewrite Hie, Hih, Hic, Hio, Hiin.
    split; [reflexivity|]. split; [reflexivity|]. split; [reflexivity|].
    split; [reflexivity|]. now rewrite append_empty_r.
Qed.
End older_emission.

Lemma older_emit_exports_total {Host : Type} cwd o ast id (st : IndexJs.state Host) :
  declarations_have_ids ast ->
  exists st', IndexJs.emit_exports cwd (Some o) ast id st = Ok st'.
Proof.
  intros Hwf. unfold IndexJs.emit_exports.
  destruct (IndexJs.hasExports st); [|eauto].
  destruct (match namedExports o with
            | Some table => table !! namedExportFile cwd id
            | None => None
            end) as [names|]; [|eauto].
  destruct (filter_r_total (findTopLevelDeclaration ast) names) as (top & ->).
  - intros name _. now apply findTopLevelDeclaration_total.
  - cbn [bind]. eauto.
Qed.

(** X12. The whole transform of the older variant, called with an
    options object, on a [.js] unit whose qualifying [if] statements
    evaluate without error and without changing the host environment and
    name no variable of the plugin in their tests, whose nodes carry the
    fields the handlers read, and whose replaced ranges lie in source
    order: it returns the [__exports] declaration (with exports), its
    interop helper (with at least one import) and the import statements of
    the included [require] calls, then the unit's text with each included
    [require] call, each assigned [module.exports] (replaced as a whole,
    from [module] to the end of [exports]), each assigned [exports] object
    and each free mention of [exports] replaced in place, then
    [export default __exports;] and the requested named exports when the
    unit has exports. *)
Theorem older_variant_rewrites_unit_with_pure_conditions_in_place :
  forall (Host : Type) (eval_expression : node -> Host -> result (value * Host))
         (verdict : node -> nat) extname cwd o code id ast h,
    extname id = ".js" ->
    (forall p h', In p (nodes ast) -> qualifying p = Ok true ->
                  eval_branch eval_expression p h' = Ok (verdict p, h')) ->
    (forall p t, In p (nodes ast) -> qualifying p = Ok true ->
                 child "test" p = Some t -> names_plugin_variable t = false) ->
    (forall m p stack, In (m, p, stack) (entered_under ast None []) -> readable m p) ->
    declarations_have_ids ast ->
    in_source_order (String.length code) None
      (IndexJs.replacements verdict 0 (entered_under ast None [])) ->
    let modules := imports verdict (entered_under ast None []) in
    let text :=
      spliced code 0 (IndexJs.replacements verdict 0 (entered_under ast None [])) in
    exists st,
      IndexJs.transform_state eval_expression cwd (Some o) code id ast h = Ok st /\
      IndexJs.host st = h /\
      IndexJs.transform eval_expression extname cwd (Some o) code id ast h
      = Ok (Some ((if IndexJs.hasExports st then exports_declaration_text else "")
                    +:+ (if 0 <? length modules
                         then IndexJs.interop_helper_text else "")
                    +:+ imports_block (rev modules)
                    +:+ text
                    +:+ (if IndexJs.hasExports st
                         then IndexJs.default_export_text
                                +:+ match requested_names cwd (Some o) id with
                                    | Some names => IndexJs.names_text ast names
                                    | None => ""
                                    end
                         else ""))).
Proof.
  intros Host ev verdict extname cwd o code id ast h Hext Hpure _ Hs Hids Hord
         modules text.
  destruct (older_walk_pure ev verdict ast Hpure code text h Hs Hord eq_refl)
    as (st0 & Hw & Hbody & Hi & Hin & Hh).
  fold modules in Hi, Hin.
  destruct (older_emit_exports_total cwd o ast id (IndexJs.emit_interop st0) Hids)
    as (st & He).
  assert (Hts : IndexJs.transform_state ev cwd (Some o) code id ast h = Ok st).
  { unfold IndexJs.transform_state. rewrite Hw. exact He. }
  exists st. split; [exact Hts|].
  pose proof (older_emission_frame ev cwd (Some o) code id ast h st Hts)
    as (st1 & Hw1 & Hex & Hhost & Hchunks & Hintro & Hout).
  assert (st1 = st0) by congruence. subst st1.
  split; [congruence|].
  pose proof (older_walk ev ast code h st0 Hw) as (_ & Hflag & Houtro & _).
  unfold IndexJs.transform. rewrite Hext.
  replace (negb (String.eqb ".js" ".js")) with false by reflexivity.
  rewrite Hts. cbn [bind]. do 2 f_equal.
  unfold MagicString.toString.
  assert (Hb : MagicString.body (IndexJs.s st) = text).
  { unfold MagicString.body in *. now rewrite Hchunks. }
  rewrite Hb, Hintro, Hout, Houtro, Hflag, Hin, Hi, Hex.
  now rewrite !append_assoc.
Qed.

(* ===================================================================== *)
(** ** Which conditional decides a call *)
(* ===================================================================== *)

(** The stack [enter] finds at a node holds the ancestors of the node, each
    of which contains it. *)
Lemma entered_under_stack n : forall parent stack0 nd p stack,
  In (nd, p, stack) (entered_under n parent stack0) ->
  In nd (nodes n) /\
  exists path,
    stack = stack0 ++ path /\
    Forall (fun a => In a (nodes n) /\ In nd (nodes a)) path.
Proof.
  induction n as [a fs IH] using node_ind'. intros parent stack0 nd p stack.
  cbn [entered_under]. intros [E | Hin].
  - injection E as <- <- <-. split; [apply nodes_self|].
    exists []. split; [now rewrite app_nil_r | constructor].
  - apply in_flat_map in Hin as ([k c] & Hkc & Hin). cbn [snd] in Hin.
    rewrite List.Forall_forall in IH. specialize (IH (k, c) Hkc). cbn [snd] in IH.
    destruct (IH _ _ _ _ _ Hin) as (Hnd & path & -> & Hpath).
    assert (Hsub : forall m, In m (nodes c) -> In m (nodes (Node a fs))).
    { intros m Hm. now apply (nodes_field k c (Node a fs) m). }
    split; [now apply Hsub|].
    exists (Node a fs :: path). split; [now rewrite <- app_assoc|].
    constructor.
    + split; [apply nodes_self | now apply Hsub].
    + eapply List.Forall_impl; [|exact Hpath]. intros m (Hm & Hn). auto.
Qed.

(** The node objects of a subtree are distinct when those of the tree
    are. *)
Lemma distinct_nodes_field k c a fs :
  In (k, c) fs -> distinct_nodes (Node a fs) -> distinct_nodes c.
Proof.
  unfold distinct_nodes. cbn [nodes map]. intros Hin Hd.
  apply NoDup_cons in Hd as [_ Hd].
  apply in_split in Hin as (l1 & l2 & ->).
  rewrite flat_map_app in Hd. cbn [flat_map snd] in Hd.
  rewrite !map_app in Hd.
  apply NoDup_app in Hd as (_ & _ & Hd).
  now apply NoDup_app in Hd as (Hd & _).
Qed.

Lemma distinct_nodes_sub t : forall p,
  distinct_nodes t -> In p (nodes t) -> distinct_nodes p.
Proof.
  induction t as [a fs IH] using node_ind'. intros p Hd [<- | Hin]; [exact Hd|].
  apply in_flat_map in Hin as ([k c] & Hkc & Hin). cbn [snd] in Hin.
  rewrite List.Forall_forall in IH. apply (IH (k, c) Hkc); [|exact Hin].
  now apply (distinct_nodes_field k c a fs).
Qed.

(** The search of the stack, read off the tree: the first qualifying entry
    decides. *)
Lemma included_first verdict pre p post nd :
  Forall (fun a => qualifying a = Ok false) pre ->
  qualifying p = Ok true ->
  included verdict (pre ++ p :: post) nd
  = findNodeInAst
      (if verdict p =? 0 then child "consequent" p else child "alternate" p) nd.
Proof.
  induction 1 as [|a pre Ha _ IH]; intros Hp; simpl.
  - now rewrite Hp.
  - rewrite Ha. now apply IH.
Qed.

Lemma included_none verdict stack nd :
  Forall (fun a => qualifying a = Ok false) stack ->
  included verdict stack nd = true.
Proof.
  induction 1 as [|a stack Ha _ IH]; simpl; [reflexivity|]. now rewrite Ha.
Qed.

(** What a call [require(literal)] contributes to the replacements and to
    the imports of a unit. *)
Lemma call_contribution verdict k nd parent stack arg :
  has_type "CallExpression" nd = true ->
  require_literal_argument nd = Some arg ->
  imported verdict nd stack
  = (if included verdict stack nd then [literal_to_string (node_value arg)] else []) /\
  replacements_at verdict k nd parent stack
  = (if included verdict stack nd
     then [(node_start nd, node_end nd, interop_call_text (tempImportName_of k))]
     else []).
Proof.
  intros Hc Harg.
  unfold imported, replacements_at, required_module, call_replacement,
         assignment_replacements, mention_replacement, mentions_exports.
  rewrite Hc, Harg.
  rewrite (has_type_other _ "AssignmentExpression" _ Hc) by discriminate.
  rewrite (has_type_other _ "Identifier" _ Hc) by discriminate.
  cbn [andb app]. destruct (included verdict stack nd); split; reflexivity.
Qed.

(** The callee and the argument of such a call contribute nothing. *)
Lemma operand_contribution verdict k nd arg c pc sc :
  require_literal_argument nd = Some arg ->
  c = arg \/ (child "callee" nd = Some c /\ has_type "Identifier" c = true) ->
  imported verdict c sc = [] /\ replacements_at verdict k c pc sc = [].
Proof.
  intros Harg Hc.
  apply require_literal_argument_inv in Harg as (callee & Hcal & Hname & _ & Hlit).
  unfold imported, replacements_at, required_module, call_replacement,
         assignment_replacements, mention_replacement, mentions_exports.
  destruct Hc as [-> | (Hcallee & Hid)].
  - rewrite (has_type_other _ "CallExpression" _ Hlit) by discriminate.
    rewrite (has_type_other _ "AssignmentExpression" _ Hlit) by discriminate.
    rewrite (has_type_other _ "Identifier" _ Hlit) by discriminate.
    cbn [andb app]. now destruct (included verdict sc arg).
  - assert (callee = c) by congruence. subst callee.
    rewrite (has_type_other _ "CallExpression" _ Hid) by discriminate.
    rewrite (has_type_other _ "AssignmentExpression" _ Hid) by discriminate.
    assert (Hn : name_is "exports" c = false).
    { unfold name_is in *. destruct (node_name c) as [y|]; [|reflexivity].
      apply String.eqb_eq in Hname. now subst y. }
    rewrite Hn, andb_false_r. cbn [andb app].
    now destruct (included verdict sc c).
Qed.

(** The replacements and the imports of a walk, piece by piece: the alias
    of a call is the number of the modules imported before it. *)
Lemma imports_app verdict l1 l2 :
  imports verdict (l1 ++ l2) = imports verdict l1 ++ imports verdict l2.
Proof. unfold imports. apply flat_map_app. Qed.

Lemma replacements_app verdict l1 : forall i l2,
  replacements verdict i (l1 ++ l2)
  = replacements verdict i l1
      ++ replacements verdict (i + length (imports verdict l1)) l2.
Proof.
  induction l1 as [|[[nd p] stk] l1 IH]; intros i l2; simpl.
  - now rewrite Nat.add_0_r.
  - rewrite IH, length_app, Nat.add_assoc, <- !app_assoc. reflexivity.
Qed.

(** An included call is replaced by the interop call on its alias, and the
    module imported under that alias is its own. *)
Lemma included_call_in_output verdict tr nd parent stack arg :
  In (nd, parent, stack) tr ->
  has_type "CallExpression" nd = true ->
  require_literal_argument nd = Some arg ->
  included verdict stack nd = true ->
  exists k,
    nth_error (imports verdict tr) k = Some (literal_to_string (node_value arg)) /\
    In (node_start nd, node_end nd, interop_call_text (tempImportName_of k))
       (replacements verdict 0 tr).
Proof.
  intros Hin Hc Harg Hinc.
  apply in_split in Hin as (before & after & ->).
  exists (length (imports verdict before)).
  destruct (call_contribution verdict (length (imports verdict before))
              nd parent stack arg Hc Harg) as (Himp & Hrep).
  rewrite Hinc in Himp, Hrep. split.
  - rewrite imports_app. rewrite nth_error_app2 by lia. rewrite Nat.sub_diag.
    unfold imports. cbn [flat_map fst snd]. rewrite Himp. reflexivity.
  - rewrite replacements_app. apply in_or_app. right.
    cbn [replacements Nat.add]. rewrite Hrep. now left.
Qed.

(** The whole transform of a unit whose qualifying conditionals evaluate
    without effect: the text that was put before the unit, the unit with
    its replacements made, and the footer. *)
Lemma pure_conditions_transform {Host : Type}
    (eval_expression : node -> Host -> result (value * Host))
    (verdict : node -> nat) extname cwd options code id ast h :
  extname id = ".js" ->
  (forall p h', In p (nodes ast) -> qualifying p = Ok true ->
                eval_branch eval_expression p h' = Ok (verdict p, h')) ->
  (forall m p stack, In (m, p, stack) (entered_under ast None []) -> readable m p) ->
  declarations_have_ids ast ->
  in_source_order (String.length code) None
    (replacements verdict 0 (entered_under ast None [])) ->
  exists st,
    transform_state eval_expression cwd options code id ast h = Ok st /\
    host st = h /\
    transform eval_expression extname cwd options code id ast h
    = Ok (Some ((if hasExports st then exports_declaration_text else "")
                  +:+ (if 0 <? length (imports verdict (entered_under ast None []))
                       then interop_helper_text else "")
                  +:+ imports_block (rev (imports verdict (entered_under ast None [])))
                  +:+ spliced code 0 (replacements verdict 0 (entered_under ast None []))
                  +:+ (if hasExports st
                       then footer_text cwd options ast id st else ""))).
Proof.
  intros Hext Hpure Hs Hids Hord.
  destruct (walk_pure eval_expression verdict ast Hpure code _ h Hs Hord eq_refl)
    as (st0 & Hw & Hbody & Hi & Hin & Hh).
  destruct (emit_exports_total cwd options ast id (emit_interop st0) Hids) as (st & He).
  assert (Hts : transform_state eval_expression cwd options code id ast h = Ok st).
  { unfold transform_state. rewrite Hw. exact He. }
  exists st. split; [exact Hts|].
  pose proof (emission_frame eval_expression cwd options code id ast h st Hts)
    as (st1 & Hw1 & _ & _ & Hex & Hidx & Hhost & Hchunks & Hintro).
  assert (st1 = st0) by congruence. subst st1.
  split; [congruence|].
  pose proof (transform_state_Ok eval_expression cwd options code id ast h st Hts)
    as (st1 & Hw2 & _ & _ & _ & _ & Hout & _).
  pose proof (walk_walking eval_expression ast code h st0 Hw) as (_ & Hflag & _).
  unfold transform. rewrite Hext.
  replace (negb (String.eqb ".js" ".js")) with false by reflexivity.
  rewrite Hts. cbn [bind]. do 2 f_equal.
  unfold MagicString.toString.
  assert (Hb : MagicString.body (s st)
               = spliced code 0 (replacements verdict 0 (entered_under ast None []))).
  { unfold MagicString.body in *. now rewrite Hchunks. }
  rewrite Hb, Hintro, Hout, Hflag, Hin, Hi, Hex.
  now rewrite !append_assoc.
Qed.

(** An evaluator that gives the test of a conditional a value without
    touching the world makes the branch evaluation pick the consequent for
    a truthy value and the alternate otherwise. *)
Lemma eval_branch_of_test {Host : Type}
    (eval_expression : node -> Host -> result (value * Host)) p t v h :
  child "test" p = Some t ->
  eval_expression t h = Ok (v, h) ->
  eval_branch eval_expression p h = Ok (if truthy v then 0 else 1, h).
Proof.
  intros Ht He. unfold eval_branch, req_child. rewrite Ht. cbn [bind].
  now rewrite He.
Qed.

Lemma qualifying_test p :
  qualifying p = Ok true -> exists t, child "test" p = Some t.
Proof.
  unfold qualifying, req_child.
  destruct (has_type "IfStatement" p); [|discriminate].
  destruct (child "test" p) as [t|]; [eauto | discriminate].
Qed.




(* ===================================================================== *)
(** ** Witnesses *)
(* ===================================================================== *)

Ltac each_entered H :=
  vm_compute in H;
  repeat (destruct H as [H|H]; [injection H as <- <-|]); [..|contradiction].

Ltac each_node H :=
  vm_compute in H;
  repeat (destruct H as [H|H]; [subst|]); [..|contradiction].

Ltac is_passed_over :=
  unfold passed_over; split; [|split];
  [ intros H; first [ discriminate H | split; [discriminate | reflexivity] ]
  | intros H; first [ discriminate H | split; [discriminate | reflexivity] ]
  | intros H; discriminate H ].

(** Witness: the unit [require(somevar);]. *)
Lemma unit_without_commonjs_is_unchanged_witness :
  Examples.run 10 None Examples.require_variable_code "/project/main.js"
               Examples.require_variable_ast ∅
  = Ok (Some Examples.require_variable_code) /\
  exists st,
    Examples.run_state 10 None Examples.require_variable_code "/project/main.js"
                       Examples.require_variable_ast ∅ = Ok st /\
    host st = ∅ /\ importIndex st = 0 /\ hasExports st = false.
Proof.
  assert (Hext : Path.extname "/project/main.js" = ".js") by reflexivity.
  assert (HP : forall m p, In (m, p) (entered Examples.require_variable_ast None) ->
                           passed_over m p).
  { intros m p Hin. each_entered Hin; is_passed_over. }
  exact (unit_without_commonjs_is_unchanged JsEval.globals (JsEval.evaluate 10)
           Path.extname "/project" None Examples.require_variable_code
           "/project/main.js" Examples.require_variable_ast ∅ Hext HP).
Defined.

(** Witness: the unit with two imports; its second call gets the alias 1
    and its import statement stands first. *)
Lemma unconditional_requires_are_imported_in_order_witness :
  flat_map required_module (nodes Examples.sum_ast) = ["./a"; "./b"] /\
  exists st,
    Examples.run_state 10 None Examples.sum_code "/project/main.js"
                       Examples.sum_ast ∅ = Ok st /\
    importIndex st = 2 /\
    MagicString.intro (s st)
    = exports_declaration_text +:+ interop_helper_text
        +:+ "import * as __require__import__1 from './b';"
        +:+ "import * as __require__import__0 from './a';" /\
    host st = ∅.
Proof.
  split; [reflexivity|].
  assert (Hnq : forall m, In m (nodes Examples.sum_ast) -> qualifying m = Ok false).
  { intros m Hin. each_node Hin; reflexivity. }
  destruct (Examples.run_state 10 None Examples.sum_code "/project/main.js"
              Examples.sum_ast ∅) as [st|e] eqn:E; [|vm_compute in E; discriminate].
  assert (He : hasExports st = true)
    by (vm_compute in E; injection E as <-; reflexivity).
  exists st. split; [reflexivity|].
  destruct (unconditional_requires_are_imported_in_order JsEval.globals
              (JsEval.evaluate 10) "/project" None _ _ _ _ st Hnq E) as (A & B & C).
  split; [exact A|]. split; [|exact C].
  rewrite B, He. reflexivity.
Defined.

(** Witness: the unit that writes [exports['__esModule']]. *)
Lemma es_module_is_recognised_by_its_marker_literal_witness :
  exists st,
    Examples.run_state 10 None Examples.es_module_code "/project/main.js"
                       Examples.es_module_ast ∅ = Ok st /\
    isESModule st = true /\ hasESDefaultExport st = false.
Proof.
  destruct (Examples.run_state 10 None Examples.es_module_code "/project/main.js"
              Examples.es_module_ast ∅) as [st|e] eqn:E; [|vm_compute in E; discriminate].
  exists st. split; [reflexivity|].
  exact (es_module_is_recognised_by_its_marker_literal JsEval.globals
           (JsEval.evaluate 10) "/project" None _ _ _ _ st E).
Defined.

(** Witness: [require(exports);] mentions [exports] and assigns nothing. *)
Lemma exports_are_detected_by_assignment_or_mention_witness :
  existsb assigns_exports (nodes Examples.require_exports_ast) = false /\
  exists st,
    Examples.run_state 10 None Examples.require_exports_code "/project/main.js"
                       Examples.require_exports_ast ∅ = Ok st /\
    hasExports st = true.
Proof.
  split; [reflexivity|].
  destruct (Examples.run_state 10 None Examples.require_exports_code "/project/main.js"
              Examples.require_exports_ast ∅) as [st|e] eqn:E;
    [|vm_compute in E; discriminate].
  exists st. split; [reflexivity|].
  exact (exports_are_detected_by_assignment_or_mention JsEval.globals
           (JsEval.evaluate 10) "/project" None _ _ _ _ st E).
Defined.

(** Witness: the candidates [default], [message], [message] of the
    transpiled ES module leave [message] once. *)
Lemma exported_candidates_follow_the_assignments_witness :
  flat_map exported_candidate (nodes Examples.es_module_ast)
  = ["default"; "message"; "message"] /\
  exists st,
    Examples.run_state 10 None Examples.es_module_code "/project/main.js"
                       Examples.es_module_ast ∅ = Ok st /\
    exported st = ["message"].
Proof.
  split; [reflexivity|].
  destruct (Examples.run_state 10 None Examples.es_module_code "/project/main.js"
              Examples.es_module_ast ∅) as [st|e] eqn:E; [|vm_compute in E; discriminate].
  assert (Hes : isESModule st = true)
    by (vm_compute in E; injection E as <-; reflexivity).
  exists st. split; [reflexivity|].
  destruct (exported_candidates_follow_the_assignments JsEval.globals
              (JsEval.evaluate 10) "/project" None _ _ _ _ st E) as (A & _).
  rewrite A, Hes. reflexivity.
Defined.

(** Witness: a file under [/project], written with either separator, and
    a file outside it. *)
Lemma named_exports_key_is_relative_to_cwd_witness :
  namedExportFile "/project" "/project/lib/main.js" = "lib/main.js" /\
  namedExportFile "C:\project" "C:\project\main.js" = "main.js" /\
  namedExportFile "/project" "/other/main.js" = "other/main.js" /\
  requested_names "/project" (Some (mkOptions (Some {[ "lib/main.js" := ["a"] ]})))
                  "/project/lib/main.js" = Some ["a"].
Proof.
  destruct named_exports_key_is_relative_to_cwd as (_ & H2 & H3 & H4).
  assert (Hf : String.index 0 "\" "lib/main.js" = None) by reflexivity.
  assert (Hg : String.index 0 "\" "main.js" = None) by reflexivity.
  assert (Hi : String.index 0 "/project" "/other/main.js" = None) by reflexivity.
  split; [exact (proj1 (H2 "/project" "lib/main.js" Hf))|].
  split; [exact (proj2 (H2 "C:\project" "main.js" Hg))|].
  split; [exact (H3 "/project" "/other/main.js" Hi)|].
  apply (H4 "/project" {[ "lib/main.js" := ["a"] ]} "lib/main.js" ["a"] Hf).
  reflexivity.
Defined.

(** Witness: the unit [var dep = require('./dep.js'); module.exports = dep;]
    under the older variant created without options, and the unit
    [require(somevar);]. *)
Lemma older_variant_throws_without_options_witness :
  (exists st,
     walk (IndexJs.enter (JsEval.evaluate 10)) IndexJs.leave Examples.import_cjs_ast
          (IndexJs.initial_state Examples.import_cjs_code ∅) = Ok st /\
     IndexJs.transform (JsEval.evaluate 10) Path.extname "/project" None
                       Examples.import_cjs_code "/project/main.js"
                       Examples.import_cjs_ast ∅
     = Err (TypeError "namedExports")) /\
  (exists st,
     walk (IndexJs.enter (JsEval.evaluate 10)) IndexJs.leave Examples.require_variable_ast
          (IndexJs.initial_state Examples.require_variable_code ∅) = Ok st /\
     IndexJs.transform (JsEval.evaluate 10) Path.extname "/project" None
                       Examples.require_variable_code "/project/main.js"
                       Examples.require_variable_ast ∅
     = Ok (Some Examples.require_variable_code)).
Proof.
  assert (Hext : Path.extname "/project/main.js" = ".js") by reflexivity.
  split.
  - destruct (walk (IndexJs.enter (JsEval.evaluate 10)) IndexJs.leave
                Examples.import_cjs_ast
                (IndexJs.initial_state Examples.import_cjs_code ∅)) as [st|e] eqn:E;
      [|vm_compute in E; discriminate].
    exists st. split; [reflexivity|].
    apply (proj1 (older_variant_throws_without_options JsEval.globals
                    (JsEval.evaluate 10) Path.extname "/project" _ _ _ _ st Hext E)).
    reflexivity.
  - destruct (walk (IndexJs.enter (JsEval.evaluate 10)) IndexJs.leave
                Examples.require_variable_ast
                (IndexJs.initial_state Examples.require_variable_code ∅)) as [st|e] eqn:E;
      [|vm_compute in E; discriminate].
    exists st. split; [reflexivity|].
    rewrite (proj2 (older_variant_throws_without_options JsEval.globals
                      (JsEval.evaluate 10) Path.extname "/project" _ _ _ _ st Hext E)
               eq_refl).
    vm_compute in E. injection E as <-. reflexivity.
Defined.

(** Witness: the same unit with an empty options object. *)
Lemma older_variant_output_structure_witness :
  exists st,
    IndexJs.transform_state (JsEval.evaluate 10) "/project" (Some (mkOptions None))
                            Examples.import_cjs_code "/project/main.js"
                            Examples.import_cjs_ast ∅ = Ok st /\
    IndexJs.hasExports st = true /\
    MagicString.intro (IndexJs.s st)
    = exports_declaration_text +:+ IndexJs.interop_helper_text
        +:+ "import * as __require__import__0 from './dep.js';" /\
    MagicString.outro (IndexJs.s st) = "export default __exports;".
Proof.
  destruct (IndexJs.transform_state (JsEval.evaluate 10) "/project"
              (Some (mkOptions None)) Examples.import_cjs_code "/project/main.js"
              Examples.import_cjs_ast ∅) as [st|e] eqn:E;
    [|vm_compute in E; discriminate].
  exists st. split; [reflexivity|].
  destruct (older_variant_output_structure JsEval.globals (JsEval.evaluate 10)
              "/project" (Some (mkOptions None)) _ _ _ _ st E) as (A & _ & C).
  split; [rewrite A; reflexivity|].
  split; [vm_compute in E; injection E as <-; reflexivity|].
  rewrite C, A. reflexivity.
Defined.

(** Witness: [require(somevar);] under the older variant. *)
Lemma older_variant_leaves_unit_without_commonjs_unchanged_witness :
  IndexJs.transform (JsEval.evaluate 10) Path.extname "/project" None
                    Examples.require_variable_code "/project/main.js"
                    Examples.require_variable_ast ∅
  = Ok (Some Examples.require_variable_code).
Proof.
  assert (Hext : Path.extname "/project/main.js" = ".js") by reflexivity.
  assert (HP : forall m p, In (m, p) (entered Examples.require_variable_ast None) ->
                           passed_over m p).
  { intros m p Hin. each_entered Hin; is_passed_over. }
  exact (older_variant_leaves_unit_without_commonjs_unchanged JsEval.globals
           (JsEval.evaluate 10) Path.extname "/project" None
           Examples.require_variable_code "/project/main.js"
           Examples.require_variable_ast ∅ Hext HP).
Defined.

Ltac each_entered_under H :=
  vm_compute in H;
  repeat (destruct H as [H|H]; [injection H as <- <- <-|]); [..|contradiction].

Ltac is_readable :=
  unfold readable; split; [|split; [|split]];
  intros H; first [discriminate H | discriminate].

Ltac spans_in_order :=
  vm_compute;
  repeat (split; [first [lia | left; reflexivity | right; lia | exact I]|]);
  try exact I.

Ltac has_ids :=
  let d := fresh "d" in
  let Hin := fresh "Hin" in
  let H := fresh "H" in
  intros d Hin; each_node Hin; split; intros H;
  first [ discriminate H | destruct H as [H|H]; discriminate H | idtac ];
  try (let dc := fresh "dc" in
       let Hdc := fresh "Hdc" in
       intros dc Hdc; each_node Hdc; discriminate).

(** Witness: the unit [if (1 == 2) ... else ...], whose comparison takes
    the second branch, and the unit with two imports and a named export. *)
Lemma unit_with_pure_conditions_is_rewritten_in_place_witness :
  let second := fun _ : node => 1 in
  (replacements second 0 (entered_under Examples.if_else_ast None [])
   = [(14, 28, "__exports"); (62, 76, "__exports");
      (79, 99, "__interopImport(__require__import__0)")] /\
   Examples.run 10 None Examples.if_else_code "/project/main.js" Examples.if_else_ast ∅
   = Ok (Some (exports_declaration_text +:+ interop_helper_text
         +:+ "import * as __require__import__0 from './dep2.js';"
         +:+ "if (1 == 2) { __exports = require('./dep1.js'); } "
         +:+ "else { __exports = __interopImport(__require__import__0); }"
         +:+ default_export_text))) /\
  (replacements second 0 (entered_under Examples.sum_ast None [])
   = [(8, 22, "__interopImport(__require__import__0)");
      (32, 46, "__interopImport(__require__import__1)");
      (48, 55, "__exports"); (48, 55, "__exports")] /\
   Examples.run 10 None Examples.sum_code "/project/main.js" Examples.sum_ast ∅
   = Ok (Some (exports_declaration_text +:+ interop_helper_text
         +:+ "import * as __require__import__1 from './b';"
         +:+ "import * as __require__import__0 from './a';"
         +:+ "var a = __interopImport(__require__import__0); "
         +:+ "var b = __interopImport(__require__import__1); "
         +:+ "__exports.sum = a + b;"
         +:+ default_export_text))).
Proof.
  intros second.
  assert (Hext : Path.extname "/project/main.js" = ".js") by reflexivity.
  split; (split; [reflexivity|]).
  - assert (Hpure : forall p h', In p (nodes Examples.if_else_ast) ->
                      qualifying p = Ok true ->
                      eval_branch (JsEval.evaluate 10) p h' = Ok (second p, h')).
    { intros p h' Hin Hq. each_node Hin; try (vm_compute in Hq; discriminate Hq).
      reflexivity. }
    assert (Hs : forall m p stack,
               In (m, p, stack) (entered_under Examples.if_else_ast None []) ->
               readable m p).
    { intros m p stack Hin. each_entered_under Hin; is_readable. }
    assert (Hids : declarations_have_ids Examples.if_else_ast) by has_ids.
    assert (Hord : in_source_order (String.length Examples.if_else_code) None
                     (replacements second 0
                        (entered_under Examples.if_else_ast None [])))
      by spans_in_order.
    assert (Hplain : forall p c, In p (nodes Examples.if_else_ast) ->
               qualifying p = Ok true -> child "test" p = Some c ->
               names_plugin_variable c = false).
    { intros p c Hin Hq Hc. each_node Hin; try (vm_compute in Hq; discriminate Hq).
      all: vm_compute in Hc; injection Hc as <-; reflexivity. }
    destruct (unit_with_pure_conditions_is_rewritten_in_place JsEval.globals
                (JsEval.evaluate 10) second Path.extname "/project" None
                Examples.if_else_code "/project/main.js" Examples.if_else_ast ∅
                Hext Hpure Hplain Hs Hids Hord) as (st & Hts & _ & _ & Ht).
    rewrite Ht. vm_compute in Hts. injection Hts as <-. reflexivity.
  - assert (Hpure : forall p h', In p (nodes Examples.sum_ast) ->
                      qualifying p = Ok true ->
                      eval_branch (JsEval.evaluate 10) p h' = Ok (second p, h')).
    { intros p h' Hin Hq. each_node Hin; vm_compute in Hq; discriminate Hq. }
    assert (Hs : forall m p stack,
               In (m, p, stack) (entered_under Examples.sum_ast None []) ->
               readable m p).
    { intros m p stack Hin. each_entered_under Hin; is_readable. }
    assert (Hids : declarations_have_ids Examples.sum_ast) by has_ids.
    assert (Hord : in_source_order (String.length Examples.sum_code) None
                     (replacements second 0 (entered_under Examples.sum_ast None [])))
      by spans_in_order.
    assert (Hplain : forall p c, In p (nodes Examples.sum_ast) ->
               qualifying p = Ok true -> child "test" p = Some c ->
               names_plugin_variable c = false).
    { intros p c Hin Hq Hc. each_node Hin; try (vm_compute in Hq; discriminate Hq).
      all: vm_compute in Hc; injection Hc as <-; reflexivity. }
    destruct (unit_with_pure_conditions_is_rewritten_in_place JsEval.globals
                (JsEval.evaluate 10) second Path.extname "/project" None
                Examples.sum_code "/project/main.js" Examples.sum_ast ∅
                Hext Hpure Hplain Hs Hids Hord) as (st & Hts & _ & _ & Ht).
    rewrite Ht. vm_compute in Hts. injection Hts as <-. reflexivity.
Defined.

(** Witness: the unit [if (1 == 2) ... else ...], whose comparison takes
    the second branch, and the unit
    [var dep = require('./dep.js'); module.exports = dep;], both with an
    empty options object. *)
Lemma older_variant_rewrites_unit_with_pure_conditions_in_place_witness :
  let second := fun _ : node => 1 in
  (IndexJs.replacements second 0 (entered_under Examples.if_else_ast None [])
   = [(14, 28, "__exports"); (62, 76, "__exports");
      (79, 99, "__interopImport(__require__import__0)")] /\
   IndexJs.transform (JsEval.evaluate 10) Path.extname "/project" (Some (mkOptions None))
                     Examples.if_else_code "/project/main.js" Examples.if_else_ast ∅
   = Ok (Some (exports_declaration_text +:+ IndexJs.interop_helper_text
         +:+ "import * as __require__import__0 from './dep2.js';"
         +:+ "if (1 == 2) { __exports = require('./dep1.js'); } "
         +:+ "else { __exports = __interopImport(__require__import__0); }"
         +:+ "export default __exports;"))) /\
  (IndexJs.replacements second 0 (entered_under Examples.import_cjs_ast None [])
   = [(10, 29, "__interopImport(__require__import__0)"); (31, 45, "__exports")] /\
   IndexJs.transform (JsEval.evaluate 10) Path.extname "/project" (Some (mkOptions None))
                     Examples.import_cjs_code "/project/main.js"
                     Examples.import_cjs_ast ∅
   = Ok (Some (exports_declaration_text +:+ IndexJs.interop_helper_text
         +:+ "import * as __require__import__0 from './dep.js';"
         +:+ "var dep = __interopImport(__require__import__0); __exports = dep;"
         +:+ "export default __exports;"))).
Proof.
  intros second.
  assert (Hext : Path.extname "/project/main.js" = ".js") by reflexivity.
  split; (split; [reflexivity|]).
  - assert (Hpure : forall p h', In p (nodes Examples.if_else_ast) ->
                      qualifying p = Ok true ->
                      eval_branch (JsEval.evaluate 10) p h' = Ok (second p, h')).
    { intros p h' Hin Hq. each_node Hin; try (vm_compute in Hq; discriminate Hq).
      reflexivity. }
    assert (Hs : forall m p stack,
               In (m, p, stack) (entered_under Examples.if_else_ast None []) ->
               readable m p).
    { intros m p stack Hin. each_entered_under Hin; is_readable. }
    assert (Hids : declarations_have_ids Examples.if_else_ast) by has_ids.
    assert (Hord : in_source_order (String.length Examples.if_else_code) None
                     (IndexJs.replacements second 0
                        (entered_under Examples.if_else_ast None [])))
      by spans_in_order.
    assert (Hplain : forall p c, In p (nodes Examples.if_else_ast) ->
               qualifying p = Ok true -> child "test" p = Some c ->
               names_plugin_variable c = false).
    { intros p c Hin Hq Hc. each_node Hin; try (vm_compute in Hq; discriminate Hq).
      all: vm_compute in Hc; injection Hc as <-; reflexivity. }
    destruct (older_variant_rewrites_unit_with_pure_conditions_in_place JsEval.globals
                (JsEval.evaluate 10) second Path.extname "/project" (mkOptions None)
                Examples.if_else_code "/project/main.js" Examples.if_else_ast ∅
                Hext Hpure Hplain Hs Hids Hord) as (st & Hts & _ & Ht).
    rewrite Ht. vm_compute in Hts. injection Hts as <-. reflexivity.
  - assert (Hpure : forall p h', In p (nodes Examples.import_cjs_ast) ->
                      qualifying p = Ok true ->
                      eval_branch (JsEval.evaluate 10) p h' = Ok (second p, h')).
    { intros p h' Hin Hq. each_node Hin; vm_compute in Hq; discriminate Hq. }
    assert (Hs : forall m p stack,
               In (m, p, stack) (entered_under Examples.import_cjs_ast None []) ->
               readable m p).
    { intros m p stack Hin. each_entered_under Hin; is_readable. }
    assert (Hids : declarations_have_ids Examples.import_cjs_ast) by has_ids.
    assert (Hord : in_source_order (String.length Examples.import_cjs_code) None
                     (IndexJs.replacements second 0
                        (entered_under Examples.import_cjs_ast None [])))
      by spans_in_order.
    assert (Hplain : forall p c, In p (nodes Examples.import_cjs_ast) ->
               qualifying p = Ok true -> child "test" p = Some c ->
               names_plugin_variable c = false).
    { intros p c Hin Hq Hc. each_node Hin; try (vm_compute in Hq; discriminate Hq).
      all: vm_compute in Hc; injection Hc as <-; reflexivity. }
    destruct (older_variant_rewrites_unit_with_pure_conditions_in_place JsEval.globals
                (JsEval.evaluate 10) second Path.extname "/project" (mkOptions None)
                Examples.import_cjs_code "/project/main.js" Examples.import_cjs_ast ∅
                Hext Hpure Hplain Hs Hids Hord) as (st & Hts & _ & Ht).
    rewrite Ht. vm_compute in Hts. injection Hts as <-. reflexivity.
Defined.




